(** * valentinesProposal: the penguin tracker and the intro gate

    A shallow embedding of the two scripts of the page:

    - the penguin script ([PenguinTracker], [activatePenguins] and the
      console export at its end),
    - [main.js] ([IntroHandler], [initPage] and the display helpers
      exported as [window.mainFunctions]).

    The scripts are event handlers over browser state, so the embedding is
    a state-and-exception monad [Js] over a record [Page] that holds what
    the handlers read and write: [localStorage], the elements of the
    document, the console, the pending timers, and the script objects.
    Numbers that the code computes with ([yesScale]) are binary64 floats,
    as in JavaScript.

    A session is a page load followed by events: clicks, by pointer or
    keyboard, on elements of the document, expiries of pending timers, and
    the console command that the penguin script documents. What holds for
    single calls of the methods is proved on the methods; what holds
    because of the way the page wires them is proved for all sessions, by
    an invariant over the three stages of the page: gate up, gate accepted,
    tracker active. *)

From Stdlib Require Import Floats ZArith Lia Ascii String.
From stdpp Require Import base option list strings gmap pretty.

Open Scope string_scope.
Open Scope list_scope.

(** ** JavaScript values *)

(** What [JSON.parse] can produce, which is also everything the tracker's
    [Set] can hold: strings (the penguin ids) and whatever else a stored
    value decodes to. Strings are Rocq strings, read as UTF-8, which covers
    every string the scripts themselves create. *)
Local Unset Elimination Schemes.
Inductive JVal :=
  | JNull
  | JBool (b : bool)
  | JNum (x : float)
  | JStr (s : string)
  | JArr (items : list JVal)
  | JObj (fields : list (string * JVal)).
Local Set Elimination Schemes.

Inductive JsError := TypeError | SyntaxError | SecurityError | QuotaExceededError.

(** The outcome of evaluating a piece of script: a value, or an exception in
    flight. *)
Inductive Completion (A : Type) :=
  | Normal (a : A)
  | Throw (e : JsError).
Arguments Normal {A} a.
Arguments Throw {A} e.

(** [SameValueZero], the equality of [Set] and [Map] keys. Arrays and
    objects are compared by identity; every array or object that reaches
    the tracker is a fresh node of a [JSON.parse] result, so two of them
    are never the same. *)
Definition sameValueZero (a b : JVal) : bool :=
  match a, b with
  | JNull, JNull => true
  | JBool x, JBool y => Bool.eqb x y
  | JNum x, JNum y => (x =? y)%float || (PrimFloat.is_nan x && PrimFloat.is_nan y)
  | JStr x, JStr y => String.eqb x y
  | _, _ => false
  end.

(** A JavaScript [Set]: its members in insertion order. *)
Module JsSet.
Definition t := list JVal.

Definition empty : t := [].
Definition has (s : t) (v : JVal) : bool := existsb (sameValueZero v) s.
Definition add (s : t) (v : JVal) : t := if has s v then s else s ++ [v].
Definition size (s : t) : nat := length s.
Definition clear (_ : t) : t := [].

(** [new Set(iterable)] adds the items one by one. *)
Definition of_items (l : list JVal) : t := foldl add empty l.

(** [Array.from(set)] *)
Definition to_array (s : t) : JVal := JArr s.
End JsSet.

(** Iterating a string yields its code points, each as a string. Strings
    are held in UTF-8, so a code point is a byte that is not a continuation
    byte ([10xxxxxx]) together with the continuation bytes that follow
    it. *)
Definition is_continuation (c : Ascii.ascii) : bool :=
  match c with
  | Ascii.Ascii _ _ _ _ _ _ false true => true
  | _ => false
  end.

Fixpoint code_points_from (cur : string) (s : string) : list string :=
  match s with
  | EmptyString => [cur]
  | String c s' =>
      if is_continuation c
      then code_points_from (cur +:+ String c EmptyString) s'
      else cur :: code_points_from (String c EmptyString) s'
  end.

Definition code_points (s : string) : list string :=
  match s with
  | EmptyString => []
  | String c s' => code_points_from (String c EmptyString) s'
  end.

Definition string_items (s : string) : list JVal := JStr <$> code_points s.

(** [new Set(v)]: [null] gives the empty set, an array or a string is
    iterated, and anything else is not iterable. *)
Definition new_Set (v : JVal) : Completion JsSet.t :=
  match v with
  | JNull => Normal JsSet.empty
  | JArr l => Normal (JsSet.of_items l)
  | JStr s => Normal (JsSet.of_items (string_items s))
  | JBool _ | JNum _ | JObj _ => Throw TypeError
  end.

(** [JSON.parse] and [JSON.stringify] belong to the platform. The scripts
    are embedded over any implementation; [None] is a [SyntaxError]. *)
Class Json := {
  JSON_parse : string → option JVal;
  JSON_stringify : JVal → string;
}.

(** The one law the tracker relies on: an array of strings written by
    [JSON.stringify] is a non-empty text that [JSON.parse] reads back. *)
Definition json_roundtrips `{Json} (ids : list string) : Prop :=
  JSON_stringify (JArr (JStr <$> ids)) ≠ "" ∧
  JSON_parse (JSON_stringify (JArr (JStr <$> ids))) = Some (JArr (JStr <$> ids)).

(** ** Browser state *)

(** [localStorage]. When the store is disabled every access throws. The
    store has a size limit, which is the browser's: [setItem] throws when
    the entries, with the new one in place, would exceed it, so a write
    can fail after an earlier one went through. The size of the store is
    the length of its keys and values, here in bytes of their UTF-8
    text. *)
Record Storage := {
  st_enabled : bool;
  st_limit : N;
  st_items : gmap string string;
}.

Definition st_size (items : gmap string string) : N :=
  map_fold (λ key value n,
              n + N.of_nat (String.length key) + N.of_nat (String.length value))%N
           0%N items.

(** The store has room for [value] under [key]. *)
Definition st_fits (s : Storage) (key value : string) : bool :=
  (st_size (<[key := value]> (st_items s)) <=? st_limit s)%N.

(** The values of inline style properties. [CssScale x] is the text
    [scale(x)] that [handleNo] builds from a number. *)
Inductive Css :=
  | CssText (s : string)
  | CssScale (x : float).

(** The click listeners the scripts create. Each is a closure over its
    object: the intro handler, or tracker number [tracker] of the heap and
    the penguin id it was created for. *)
Inductive Listener :=
  | OnYes
  | OnNo
  | OnPenguin (tracker : nat) (penguinId : string).

Global Instance Listener_eq_dec : EqDecision Listener.
Proof. solve_decision. Defined.

Record Element := {
  classList : list string;
  textContent : string;
  style : gmap string Css;
  clickListeners : list Listener;
}.

(** Nodes without an id that the scripts append to the body. *)
Inductive Overlay := FoundNotification | CelebrationOverlay.

Global Instance Overlay_eq_dec : EqDecision Overlay.
Proof. solve_decision. Defined.

(** The callbacks handed to [setTimeout]. *)
Inductive Task :=
  | TaskActivate                (* handleYes: show the page, activate penguins *)
  | TaskReveal                  (* allPenguinsFound *)
  | TaskRemove (o : Overlay)    (* notification.remove(), celebration.remove() *)
  | TaskScrollToSecret.         (* revealSecretSection *)

Inductive ConsoleLine :=
  | LogFound (penguinId : string) (total : nat)
  | LogChecking (found total : nat)
  | LogAllFound
  | WarnLoadFailed (e : JsError)
  | WarnSaveFailed (e : JsError)
  | WarnClearFailed (e : JsError)
  | WarnNoSecretSection.

Global Instance JsError_eq_dec : EqDecision JsError.
Proof. solve_decision. Defined.
Global Instance ConsoleLine_eq_dec : EqDecision ConsoleLine.
Proof. solve_decision. Defined.

(** ** Script objects *)

Record IntroHandler := {
  btnYes : option string;        (* the element found by id, or null *)
  btnNo : option string;
  introSection : option string;
  mainContent : option string;
  noMessages : list string;
  noClickCount : nat;
  yesScale : float;
}.

Record PenguinTracker := {
  penguinIds : list string;
  penguinHandlers : gmap string Listener;
  foundPenguins : JsSet.t;
}.

Record Page := {
  localStorage : Storage;
  document : gmap string Element;   (* the elements that carry an id *)
  bodyClasses : list string;
  bodyOverflow : option string;   (* document.body.style.overflow *)
  overlays : list Overlay;
  observing : bool;   (* observeElements has run *)
  reloading : bool;   (* location.reload() was called *)
  console : list ConsoleLine;
  timers : list (nat * Task);   (* pending, each with its delay *)
  introHandler : option IntroHandler;
  trackers : list PenguinTracker;   (* the tracker objects created so far *)
  penguinTracker : option nat;   (* the script's [let penguinTracker] *)
  window_penguinTracker : option nat;   (* the property [window.penguinTracker] *)
}.

(** Field updates. *)
Definition set_localStorage (v : Storage) (p : Page) : Page :=
  {| localStorage := v; document := document p; bodyClasses := bodyClasses p;
     bodyOverflow := bodyOverflow p; overlays := overlays p; observing := observing
     p; reloading := reloading p; console := console p; timers := timers p;
     introHandler := introHandler p; trackers := trackers p; penguinTracker :=
     penguinTracker p; window_penguinTracker := window_penguinTracker p |}.
Definition set_document (v : gmap string Element) (p : Page) : Page :=
  {| localStorage := localStorage p; document := v; bodyClasses := bodyClasses p;
     bodyOverflow := bodyOverflow p; overlays := overlays p; observing := observing
     p; reloading := reloading p; console := console p; timers := timers p;
     introHandler := introHandler p; trackers := trackers p; penguinTracker :=
     penguinTracker p; window_penguinTracker := window_penguinTracker p |}.
Definition set_bodyClasses (v : list string) (p : Page) : Page :=
  {| localStorage := localStorage p; document := document p; bodyClasses := v;
     bodyOverflow := bodyOverflow p; overlays := overlays p; observing := observing
     p; reloading := reloading p; console := console p; timers := timers p;
     introHandler := introHandler p; trackers := trackers p; penguinTracker :=
     penguinTracker p; window_penguinTracker := window_penguinTracker p |}.
Definition set_bodyOverflow (v : option string) (p : Page) : Page :=
  {| localStorage := localStorage p; document := document p; bodyClasses :=
     bodyClasses p; bodyOverflow := v; overlays := overlays p; observing :=
     observing p; reloading := reloading p; console := console p; timers := timers
     p; introHandler := introHandler p; trackers := trackers p; penguinTracker :=
     penguinTracker p; window_penguinTracker := window_penguinTracker p |}.
Definition set_overlays (v : list Overlay) (p : Page) : Page :=
  {| localStorage := localStorage p; document := document p; bodyClasses :=
     bodyClasses p; bodyOverflow := bodyOverflow p; overlays := v; observing :=
     observing p; reloading := reloading p; console := console p; timers := timers
     p; introHandler := introHandler p; trackers := trackers p; penguinTracker :=
     penguinTracker p; window_penguinTracker := window_penguinTracker p |}.
Definition set_observing (v : bool) (p : Page) : Page :=
  {| localStorage := localStorage p; document := document p; bodyClasses :=
     bodyClasses p; bodyOverflow := bodyOverflow p; overlays := overlays p;
     observing := v; reloading := reloading p; console := console p; timers :=
     timers p; introHandler := introHandler p; trackers := trackers p;
     penguinTracker := penguinTracker p; window_penguinTracker :=
     window_penguinTracker p |}.
Definition set_reloading (v : bool) (p : Page) : Page :=
  {| localStorage := localStorage p; document := document p; bodyClasses :=
     bodyClasses p; bodyOverflow := bodyOverflow p; overlays := overlays p;
     observing := observing p; reloading := v; console := console p; timers :=
     timers p; introHandler := introHandler p; trackers := trackers p;
     penguinTracker := penguinTracker p; window_penguinTracker :=
     window_penguinTracker p |}.
Definition set_console (v : list ConsoleLine) (p : Page) : Page :=
  {| localStorage := localStorage p; document := document p; bodyClasses :=
     bodyClasses p; bodyOverflow := bodyOverflow p; overlays := overlays p;
     observing := observing p; reloading := reloading p; console := v; timers :=
     timers p; introHandler := introHandler p; trackers := trackers p;
     penguinTracker := penguinTracker p; window_penguinTracker :=
     window_penguinTracker p |}.
Definition set_timers (v : list (nat * Task)) (p : Page) : Page :=
  {| localStorage := localStorage p; document := document p; bodyClasses :=
     bodyClasses p; bodyOverflow := bodyOverflow p; overlays := overlays p;
     observing := observing p; reloading := reloading p; console := console p;
     timers := v; introHandler := introHandler p; trackers := trackers p;
     penguinTracker := penguinTracker p; window_penguinTracker :=
     window_penguinTracker p |}.
Definition set_introHandler (v : option IntroHandler) (p : Page) : Page :=
  {| localStorage := localStorage p; document := document p; bodyClasses :=
     bodyClasses p; bodyOverflow := bodyOverflow p; overlays := overlays p;
     observing := observing p; reloading := reloading p; console := console p;
     timers := timers p; introHandler := v; trackers := trackers p; penguinTracker
     := penguinTracker p; window_penguinTracker := window_penguinTracker p |}.
Definition set_trackers (v : list PenguinTracker) (p : Page) : Page :=
  {| localStorage := localStorage p; document := document p; bodyClasses :=
     bodyClasses p; bodyOverflow := bodyOverflow p; overlays := overlays p;
     observing := observing p; reloading := reloading p; console := console p;
     timers := timers p; introHandler := introHandler p; trackers := v;
     penguinTracker := penguinTracker p; window_penguinTracker :=
     window_penguinTracker p |}.
Definition set_penguinTracker (v : option nat) (p : Page) : Page :=
  {| localStorage := localStorage p; document := document p; bodyClasses :=
     bodyClasses p; bodyOverflow := bodyOverflow p; overlays := overlays p;
     observing := observing p; reloading := reloading p; console := console p;
     timers := timers p; introHandler := introHandler p; trackers := trackers p;
     penguinTracker := v; window_penguinTracker := window_penguinTracker p |}.
Definition set_window_penguinTracker (v : option nat) (p : Page) : Page :=
  {| localStorage := localStorage p; document := document p; bodyClasses :=
     bodyClasses p; bodyOverflow := bodyOverflow p; overlays := overlays p;
     observing := observing p; reloading := reloading p; console := console p;
     timers := timers p; introHandler := introHandler p; trackers := trackers p;
     penguinTracker := penguinTracker p; window_penguinTracker := v |}.

Definition set_penguinIds (v : list string) (t : PenguinTracker) : PenguinTracker :=
  {| penguinIds := v; penguinHandlers := penguinHandlers t; foundPenguins :=
     foundPenguins t |}.
Definition set_penguinHandlers (v : gmap string Listener) (t : PenguinTracker) : PenguinTracker :=
  {| penguinIds := penguinIds t; penguinHandlers := v; foundPenguins :=
     foundPenguins t |}.
Definition set_foundPenguins (v : JsSet.t) (t : PenguinTracker) : PenguinTracker :=
  {| penguinIds := penguinIds t; penguinHandlers := penguinHandlers t; foundPenguins
     := v |}.
Definition set_noClickCount (v : nat) (h : IntroHandler) : IntroHandler :=
  {| btnYes := btnYes h; btnNo := btnNo h; introSection := introSection h;
     mainContent := mainContent h; noMessages := noMessages h; noClickCount := v;
     yesScale := yesScale h |}.
Definition set_yesScale (v : float) (h : IntroHandler) : IntroHandler :=
  {| btnYes := btnYes h; btnNo := btnNo h; introSection := introSection h;
     mainContent := mainContent h; noMessages := noMessages h; noClickCount :=
     noClickCount h; yesScale := v |}.
Definition set_classList (v : list string) (e : Element) : Element :=
  {| classList := v; textContent := textContent e; style := style e;
     clickListeners := clickListeners e |}.
Definition set_textContent (v : string) (e : Element) : Element :=
  {| classList := classList e; textContent := v; style := style e;
     clickListeners := clickListeners e |}.
Definition set_style (v : gmap string Css) (e : Element) : Element :=
  {| classList := classList e; textContent := textContent e; style := v;
     clickListeners := clickListeners e |}.
Definition set_clickListeners (v : list Listener) (e : Element) : Element :=
  {| classList := classList e; textContent := textContent e; style := style e;
     clickListeners := v |}.

(** ** The script monad *)

(** A piece of script runs on the page and completes normally or throws;
    either way the page keeps the writes made so far. *)
Definition Js (A : Type) : Type := Page → Completion A * Page.

Global Instance Js_ret : MRet Js := λ A a p, (Normal a, p).
Global Instance Js_bind : MBind Js := λ A B k m p,
  match m p with
  | (Normal a, p') => k a p'
  | (Throw e, p') => (Throw e, p')
  end.

Definition throw {A} (e : JsError) : Js A := λ p, (Throw e, p).
(** [try { body } catch (error) { handler(error) }] *)
Definition try_catch {A} (body : Js A) (handler : JsError → Js A) : Js A :=
  λ p, match body p with
       | (Normal a, p') => (Normal a, p')
       | (Throw e, p') => handler e p'
       end.
Definition get {A} (f : Page → A) : Js A := λ p, (Normal (f p), p).
Definition modify (f : Page → Page) : Js unit := λ p, (Normal tt, f p).
Definition lift {A} (c : Completion A) : Js A := λ p, (c, p).
Definition when (b : bool) (m : Js unit) : Js unit := if b then m else mret tt.

(** The page a script leaves behind, whether it threw or not: an uncaught
    exception ends the handler and is reported, the page lives on. *)
Definition exec {A} (m : Js A) (p : Page) : Page := snd (m p).
Definition outcome {A} (m : Js A) (p : Page) : Completion A := fst (m p).

(** ** Platform operations *)

Definition console_log (l : ConsoleLine) : Js unit :=
  modify (λ p, set_console (console p ++ [l]) p).
Definition console_warn (l : ConsoleLine) : Js unit := console_log l.

Definition setTimeout (t : Task) (ms : nat) : Js unit :=
  modify (λ p, set_timers (timers p ++ [(ms, t)]) p).

(** [localStorage.getItem(key)]: the stored text, or [null]. *)
Definition localStorage_getItem (key : string) : Js (option string) :=
  s ← get localStorage;
  if st_enabled s then mret (st_items s !! key) else throw SecurityError.

Definition localStorage_setItem (key value : string) : Js unit :=
  s ← get localStorage;
  if negb (st_enabled s) then throw SecurityError
  else if negb (st_fits s key value) then throw QuotaExceededError
  else modify (set_localStorage
         {| st_enabled := st_enabled s; st_limit := st_limit s;
            st_items := <[key := value]> (st_items s) |}).

Definition localStorage_removeItem (key : string) : Js unit :=
  s ← get localStorage;
  if st_enabled s then
    modify (set_localStorage
      {| st_enabled := st_enabled s; st_limit := st_limit s;
         st_items := delete key (st_items s) |})
  else throw SecurityError.

(** [document.getElementById(id)]: a reference to the element (its id), or
    [null]. *)
Definition getElementById (id : string) : Js (option string) :=
  d ← get document;
  mret (match d !! id with Some _ => Some id | None => None end).

(** Access to a property or method of what [getElementById] returned:
    a [TypeError] on [null]. An element reference always names an element
    of the document, since the scripts never detach one that has an id. *)
Definition deref (ref : option string) : Js Element :=
  match ref with
  | None => throw TypeError
  | Some id =>
      d ← get document;
      match d !! id with
      | Some e => mret e
      | None => throw TypeError
      end
  end.

(** Update of an element through a reference to it. *)
Definition update (ref : option string) (f : Element → Element) : Js unit :=
  e ← deref ref;
  match ref with
  | Some id => modify (λ p, set_document (<[id := f e]> (document p)) p)
  | None => mret tt
  end.

(** [classList.add] and [classList.remove]: a class is listed once. *)
Definition classList_add (c : string) (e : Element) : Element :=
  if bool_decide (c ∈ classList e) then e else set_classList (classList e ++ [c]) e.
Definition classList_remove (c : string) (e : Element) : Element :=
  set_classList (filter (λ x, x ≠ c) (classList e)) e.

Definition style_set (prop : string) (v : Css) (e : Element) : Element :=
  set_style (<[prop := v]> (style e)) e.

(** [addEventListener('click', h)]: a listener already registered is not
    added twice. [removeEventListener('click', h)]. *)
Definition addEventListener (h : Listener) (e : Element) : Element :=
  if bool_decide (h ∈ clickListeners e) then e
  else set_clickListeners (clickListeners e ++ [h]) e.
Definition removeEventListener (h : Listener) (e : Element) : Element :=
  set_clickListeners (filter (λ x, x ≠ h) (clickListeners e)) e.

(** A [style] element as the scripts create it: its text, no class, no
    inline style and no listener. *)
Definition styleSheet (text : string) : Element :=
  {| classList := []; textContent := text; style := ∅; clickListeners := [] |}.

(** [array.forEach(f)] *)
Fixpoint forEach {A} (l : list A) (f : A → Js unit) : Js unit :=
  match l with
  | [] => mret tt
  | x :: l' => f x;; forEach l' f
  end.

(** ** main.js: the helpers exported as [window.mainFunctions] *)

Definition showPenguinCounter : Js unit :=
  counter ← getElementById "penguinCounter";
  when (bool_decide (is_Some counter)) (update counter (classList_add "show")).

Definition updatePenguinCountDisplay (count : nat) : Js unit :=
  countElement ← getElementById "penguinCount";
  when (bool_decide (is_Some countElement))
       (update countElement (set_textContent (pretty count)));;
  when (bool_decide (0 < count)) showPenguinCounter.

Definition revealSecretSection : Js unit :=
  secretSection ← getElementById "secretSection";
  if bool_decide (is_Some secretSection) then
    update secretSection (classList_add "revealed");;
    update secretSection (classList_add "secret-reveal-animation");;
    setTimeout TaskScrollToSecret 200
  else console_warn WarnNoSecretSection.

(** [penguinElement.getBoundingClientRect()] is a [TypeError] on [null]. *)
Definition createCelebrationEffect (penguinElement : option string) : Js unit :=
  _ ← deref penguinElement;
  update penguinElement (classList_add "penguin-found-animation").

Definition disablePenguinInteraction (container : option string) : Js unit :=
  update container (classList_add "found").

(** ** The penguin script *)

(** The ids of the five penguins, as the constructor lists them. *)
Definition universe : list string :=
  ["penguin1"; "penguin2"; "penguin3"; "penguin4"; "penguin5"].

Section Scripts.
Context `{Json}.

(** [this], for the tracker at index [this] of the heap. *)
Definition tracker (this : nat) : Js PenguinTracker :=
  ts ← get trackers;
  match ts !! this with
  | Some t => mret t
  | None => throw TypeError
  end.

Definition update_tracker (this : nat) (f : PenguinTracker → PenguinTracker) : Js unit :=
  modify (λ p, set_trackers (alter f this (trackers p)) p).

Definition JSON_parse_js (text : string) : Js JVal :=
  match JSON_parse text with
  | Some v => mret v
  | None => throw SyntaxError
  end.

(** A string is truthy unless it is empty. *)
Definition truthy (s : string) : bool := negb (String.eqb s "").

(** [loadProgress]: the [try] block returns early with the stored set; in
    every other case, after a caught exception too, the method falls
    through to [return new Set()]. *)
Definition loadProgress : Js JsSet.t :=
  early ← try_catch
    (saved ← localStorage_getItem "penguinsFound";
     match saved with
     | Some text =>
         if truthy text then
           v ← JSON_parse_js text;
           s ← lift (new_Set v);
           mret (Some s)
         else mret None
     | None => mret None
     end)
    (λ error, console_warn (WarnLoadFailed error);; mret None);
  match early with
  | Some s => mret s
  | None => mret JsSet.empty
  end.

Definition saveProgress (this : nat) : Js unit :=
  try_catch
    (t ← tracker this;
     localStorage_setItem "penguinsFound"
       (JSON_stringify (JsSet.to_array (foundPenguins t))))
    (λ error, console_warn (WarnSaveFailed error)).

Definition initPenguins (this : nat) : Js unit :=
  t ← tracker this;
  forEach (penguinIds t) (λ penguinId,
    penguinElement ← getElementById penguinId;
    when (bool_decide (is_Some penguinElement))
      (t ← tracker this;
       if JsSet.has (foundPenguins t) (JStr penguinId) then
         update penguinElement (classList_add "found")
       else
         let handler := OnPenguin this penguinId in
         update_tracker this (λ t,
           set_penguinHandlers (<[penguinId := handler]> (penguinHandlers t)) t);;
         update penguinElement (addEventListener handler))).

Definition updateDisplay (this : nat) : Js unit :=
  t ← tracker this;
  let count := JsSet.size (foundPenguins t) in
  updatePenguinCountDisplay count.

(** The notification is a node without an id; the keyframes style is
    created once, under its id. *)
Definition showPenguinFoundFeedback : Js unit :=
  modify (λ p, set_overlays (overlays p ++ [FoundNotification]) p);;
  existing ← getElementById "penguinFeedbackStyle";
  when (negb (bool_decide (is_Some existing)))
    (modify (λ p, set_document
       (<["penguinFeedbackStyle" := styleSheet "@keyframes fadeInOut"]>
          (document p)) p));;
  setTimeout (TaskRemove FoundNotification) 2000.

Definition allPenguinsFound : Js unit :=
  setTimeout TaskReveal 300.

Definition checkForCompletion (this : nat) : Js unit :=
  t ← tracker this;
  console_log (LogChecking (JsSet.size (foundPenguins t)) (length (penguinIds t)));;
  when (bool_decide (JsSet.size (foundPenguins t) = length (penguinIds t)))
    (console_log LogAllFound;;
     allPenguinsFound).

(** [handlePenguinClick(penguinId, event)]. The two calls on [event] touch
    the event only ([preventDefault], [stopPropagation]). *)
Definition handlePenguinClick (this : nat) (penguinId : string) : Js unit :=
  update_tracker this (λ t,
    set_foundPenguins (JsSet.add (foundPenguins t) (JStr penguinId)) t);;
  saveProgress this;;
  t ← tracker this;
  console_log (LogFound penguinId (JsSet.size (foundPenguins t)));;
  penguinContainer ← getElementById penguinId;
  createCelebrationEffect penguinContainer;;
  t ← tracker this;
  match penguinHandlers t !! penguinId with
  | Some handler =>
      update penguinContainer (removeEventListener handler);;
      update_tracker this (λ t,
        set_penguinHandlers (delete penguinId (penguinHandlers t)) t)
  | None => mret tt
  end;;
  disablePenguinInteraction penguinContainer;;
  updateDisplay this;;
  showPenguinFoundFeedback;;
  checkForCompletion this.

Definition showCompletionCelebration : Js unit :=
  modify (λ p, set_overlays (overlays p ++ [CelebrationOverlay]) p);;
  existing ← getElementById "celebrationStyle";
  when (negb (bool_decide (is_Some existing)))
    (modify (λ p, set_document
       (<["celebrationStyle" := styleSheet "@keyframes celebrationFade"]>
          (document p)) p));;
  setTimeout (TaskRemove CelebrationOverlay) 1000.

Definition reset (this : nat) : Js unit :=
  update_tracker this (λ t, set_foundPenguins (JsSet.clear (foundPenguins t)) t);;
  saveProgress this;;
  modify (set_reloading true).

(** [new PenguinTracker()]: the object is allocated, then the constructor
    fills it in and returns a reference to it. *)
Definition new_PenguinTracker : Js nat :=
  this ← get (λ p, length (trackers p));
  modify (λ p, set_trackers
    (trackers p ++
       [{| penguinIds := universe;
           penguinHandlers := ∅;
           foundPenguins := JsSet.empty |}]) p);;
  found ← loadProgress;
  update_tracker this (set_foundPenguins found);;
  initPenguins this;;
  updateDisplay this;;
  mret this.

Definition initPenguinSystem : Js unit := mret tt.

Definition activatePenguins : Js unit :=
  t ← new_PenguinTracker;
  modify (set_penguinTracker (Some t)).

(** The top level of the penguin script: [let penguinTracker;], the call
    of [initPenguinSystem], and the export, which copies the current value
    of the binding into the property. *)
Definition penguins_script : Js unit :=
  modify (set_penguinTracker None);;
  initPenguinSystem;;
  current ← get penguinTracker;
  modify (set_window_penguinTracker current).

End Scripts.

(** ** main.js: the intro handler and the page set-up *)

(** The number literal [0.3]: the binary64 value nearest to three tenths. *)
Definition three_tenths : float := 0x1.3333333333333p-2%float.

(** Reading [array[i]] gives [undefined] out of range; assigning
    [undefined] to [textContent] leaves the empty text. *)
Definition array_get (l : list string) (i : nat) : option string := l !! i.
Definition text_of (v : option string) : string := default "" v.

Section Gate.
Context `{Json}.

(** [this], for the page's intro handler. *)
Definition intro : Js IntroHandler :=
  h ← get introHandler;
  match h with
  | Some h => mret h
  | None => throw TypeError
  end.

Definition update_intro (f : IntroHandler → IntroHandler) : Js unit :=
  modify (λ p, set_introHandler (f <$> introHandler p) p).

Definition makeYesOnlyOption : Js unit :=
  h ← intro;
  update (btnNo h) (style_set "display" (CssText "none"));;
  update (btnYes h) (style_set "position" (CssText "fixed"));;
  update (btnYes h) (style_set "top" (CssText "0"));;
  update (btnYes h) (style_set "left" (CssText "0"));;
  update (btnYes h) (style_set "width" (CssText "100%"));;
  update (btnYes h) (style_set "height" (CssText "100%"));;
  update (btnYes h) (style_set "borderRadius" (CssText "0"));;
  update (btnYes h) (style_set "fontSize" (CssText "4rem"));;
  update (btnYes h) (style_set "zIndex" (CssText "9999"));;
  update (btnYes h) (style_set "margin" (CssText "0"));;
  update (btnYes h) (style_set "transform" (CssScale 1)).

Definition handleNo : Js unit :=
  update_intro (λ h, set_noClickCount (S (noClickCount h)) h);;
  h ← intro;
  when (bool_decide (noClickCount h ≤ length (noMessages h))%nat)
    (update (btnNo h)
       (set_textContent (text_of (array_get (noMessages h) (noClickCount h - 1)))));;
  update_intro (λ h, set_yesScale (yesScale h + three_tenths)%float h);;
  h ← intro;
  update (btnYes h) (style_set "transform" (CssScale (yesScale h)));;
  update (btnYes h) (style_set "zIndex" (CssText "11"));;
  update (btnYes h) (classList_add "growing");;
  when (4 <? yesScale h)%float
    (update (btnNo h) (style_set "opacity" (CssText "0.3"));;
     update (btnNo h) (style_set "pointerEvents" (CssText "none"));;
     update (btnNo h) (style_set "cursor" (CssText "not-allowed")));;
  when (10 <? yesScale h)%float makeYesOnlyOption.

(** [handleYes] hides the intro and leaves the rest to a timer. *)
Definition handleYes : Js unit :=
  h ← intro;
  update (introSection h) (style_set "opacity" (CssText "0"));;
  update (introSection h) (style_set "visibility" (CssText "hidden"));;
  update (introSection h) (style_set "pointerEvents" (CssText "none"));;
  modify (set_bodyOverflow (Some "auto"));;
  update (mainContent h) (classList_remove "hidden");;
  setTimeout TaskActivate 100.

(** [observeElements] starts an [IntersectionObserver]; all its callback
    does is add the class [js-animate] to elements scrolled into view, a
    class that no script reads. *)
Definition observeElements : Js unit := modify (set_observing true).

(** The callback of [handleYes]'s timer. The penguin script is part of the
    page, so [typeof activatePenguins === 'function'] holds. *)
Definition activation : Js unit :=
  modify (λ p, set_bodyClasses
    (if bool_decide ("js-loaded" ∈ bodyClasses p) then bodyClasses p
     else bodyClasses p ++ ["js-loaded"]) p);;
  observeElements;;
  modify (λ p, set_document
    ((λ e, if bool_decide ("penguin-container" ∈ classList e)
           then classList_add "visible" e else e) <$> document p) p);;
  activatePenguins.

Definition initIntro : Js unit :=
  h ← intro;
  when (bool_decide (is_Some (btnYes h)) && bool_decide (is_Some (btnNo h)))
    (update (btnYes h) (addEventListener OnYes);;
     update (btnNo h) (addEventListener OnNo)).

Definition new_IntroHandler : Js unit :=
  yes ← getElementById "btnYes";
  no ← getElementById "btnNo";
  section ← getElementById "introSection";
  main ← getElementById "mainContent";
  modify (set_introHandler (Some
    {| btnYes := yes; btnNo := no; introSection := section; mainContent := main;
       noMessages := ["No"; "Are you sure??"; "Really sure??"; "Positive??";
                      "I'll be really sad..."; "Please? 💔"];
       noClickCount := 0;
       yesScale := 1 |}));;
  initIntro.

Definition setupSmoothScroll : Js unit := mret tt.

Definition initPage : Js unit :=
  try_catch (localStorage_removeItem "penguinsFound")
            (λ error, console_warn (WarnClearFailed error));;
  modify (set_bodyOverflow (Some "hidden"));;
  new_IntroHandler;;
  setupSmoothScroll.

(** The top level of main.js. The style sheet it appends to the head has
    no id and no behaviour; [initPage] runs once the document is ready. *)
Definition main_script : Js unit := initPage.

(** ** Events *)

(** The documented console command [window.penguinTracker.reset()]. *)
Definition console_reset : Js unit :=
  target ← get window_penguinTracker;
  match target with
  | Some t => reset t
  | None => throw TypeError
  end.

Definition runListener (l : Listener) : Js unit :=
  match l with
  | OnYes => handleYes
  | OnNo => handleNo
  | OnPenguin this penguinId => handlePenguinClick this penguinId
  end.

Definition runTask (t : Task) : Js unit :=
  match t with
  | TaskActivate => activation
  | TaskReveal => showCompletionCelebration;; revealSecretSection
  | TaskRemove o =>
      modify (λ p, set_overlays
        (match list_find (λ x, x = o) (overlays p) with
         | Some (i, _) => delete i (overlays p)
         | None => overlays p
         end) p)
  | TaskScrollToSecret => mret tt
  end.

End Gate.

(** How the user activates a control. *)
Inductive Input := Pointer | Keyboard.

Definition css_is (e : Element) (prop value : string) : bool :=
  match style e !! prop with
  | Some (CssText s) => String.eqb s value
  | _ => false
  end.

(** An element that is not rendered takes no input, and one with
    [pointer-events: none] no pointer input. The scripts hide and disable
    elements through their inline style, and that is what is read here. *)
Definition takes (how : Input) (e : Element) : bool :=
  negb (css_is e "display" "none") && negb (css_is e "visibility" "hidden") &&
  match how with
  | Pointer => negb (css_is e "pointerEvents" "none")
  | Keyboard => true
  end.

(** The nesting of the markup, as far as input goes: for the id of an
    element, the id of the element that contains it and from which it
    inherits [visibility] and [pointer-events], if any. The scripts never
    move an element that carries an id, so the nesting is the same
    throughout a session. *)
Definition Nesting := string → option string.

(** An element receives input if it takes it and its container does. *)
Definition receives (container : Nesting) (how : Input) (p : Page) (id : string) : bool :=
  match document p !! id with
  | None => false
  | Some e =>
      takes how e &&
      match container id ≫= (document p !!.) with
      | Some c => takes how c
      | None => true
      end
  end.

Inductive Event :=
  | Activate (how : Input) (id : string)   (* a click on the element [id] *)
  | TimerFires (k : nat)                   (* the [k]-th pending timer expires *)
  | ConsoleReset.                          (* window.penguinTracker.reset() *)

Section Session.
Context `{Json} (container : Nesting).

(** A click runs the listeners registered when it is dispatched, skipping
    those removed in the meantime. *)
Definition dispatchClick (id : string) (p : Page) : Page :=
  match document p !! id with
  | None => p
  | Some e =>
      foldl (λ p l,
               match document p !! id with
               | Some e' => if bool_decide (l ∈ clickListeners e')
                            then exec (runListener l) p else p
               | None => p
               end)
            p (clickListeners e)
  end.

Definition step (p : Page) (ev : Event) : Page :=
  match ev with
  | Activate how id => if receives container how p id then dispatchClick id p else p
  | TimerFires k =>
      match timers p !! k with
      | Some (_, t) => exec (runTask t) (set_timers (delete k (timers p)) p)
      | None => p
      end
  | ConsoleReset => exec console_reset p
  end.

Definition run (evs : list Event) (p : Page) : Page := foldl step p evs.

End Session.

(** ** Loading the page *)

Record Markup := {
  m_classList : list string;
  m_textContent : string;
  m_style : gmap string Css;
}.

(** What a session starts from: the store as earlier sessions left it, and
    the markup: its elements that carry an id, and their nesting. *)
Record Env := {
  env_storage : Storage;
  env_markup : gmap string Markup;
  env_container : Nesting;
}.

Definition blankPage (env : Env) : Page :=
  {| localStorage := env_storage env;
     document := (λ m, {| classList := m_classList m; textContent := m_textContent m;
                          style := m_style m; clickListeners := [] |}) <$> env_markup env;
     bodyClasses := []; bodyOverflow := None; overlays := []; observing := false;
     reloading := false; console := []; timers := []; introHandler := None;
     trackers := []; penguinTracker := None; window_penguinTracker := None |}.

Definition pageLoad `{Json} (env : Env) : Page :=
  exec (main_script;; penguins_script) (blankPage env).

(** A session: the page is loaded, then the events happen in order. *)
Definition session `{Json} (env : Env) (evs : list Event) : Page :=
  run (env_container env) evs (pageLoad env).

(** The markup places the two controls of the gate inside the intro
    section. *)
Definition gateNested (container : Nesting) : Prop :=
  container "btnYes" = Some "introSection" ∧
  container "btnNo" = Some "introSection".

(** ** A JSON implementation for arrays of strings

    The texts the tracker itself writes are arrays of strings. This
    instance reads and writes them as [JSON.stringify] and [JSON.parse] do
    (quotes and backslashes escaped, no white space); it is what the
    examples below run on. Texts outside this fragment are rejected, and
    values outside it are written as [null]. *)
Module StringArrayJson.

Definition dquote : Ascii.ascii := "034"%char.
Definition backslash : Ascii.ascii := "092"%char.

Fixpoint escape (s : string) : string :=
  match s with
  | EmptyString => EmptyString
  | String c s' =>
      if bool_decide (c = dquote ∨ c = backslash)
      then String backslash (String c (escape s'))
      else String c (escape s')
  end.

Definition quote (s : string) : string :=
  String dquote (escape s +:+ String dquote EmptyString).

Definition stringify_item (v : JVal) : string :=
  match v with
  | JStr s => quote s
  | JBool true => "true"
  | JBool false => "false"
  | _ => "null"
  end.

Fixpoint stringify_items (l : list JVal) : string :=
  match l with
  | [] => ""
  | [v] => stringify_item v
  | v :: l' => stringify_item v +:+ "," +:+ stringify_items l'
  end.

Definition stringify (v : JVal) : string :=
  match v with
  | JArr l => "[" +:+ stringify_items l +:+ "]"
  | _ => stringify_item v
  end.

(** The characters of a string literal up to its closing quote, and the
    text after it. *)
Fixpoint parse_chars (s : string) : option (string * string) :=
  match s with
  | EmptyString => None
  | String c s' =>
      if bool_decide (c = dquote) then Some (EmptyString, s')
      else if bool_decide (c = backslash) then
        match s' with
        | String d s'' =>
            if bool_decide (d = dquote ∨ d = backslash)
            then '(body, rest) ← parse_chars s''; Some (String d body, rest)
            else None
        | EmptyString => None
        end
      else '(body, rest) ← parse_chars s'; Some (String c body, rest)
  end.

(** The items of an array after the first, up to the closing bracket. *)
Fixpoint parse_more (fuel : nat) (s : string) : option (list JVal) :=
  match fuel, s with
  | S fuel, String "]" EmptyString => Some []
  | S fuel, String "," (String c s') =>
      if bool_decide (c = dquote) then
        '(body, rest) ← parse_chars s';
        items ← parse_more fuel rest;
        Some (JStr body :: items)
      else None
  | _, _ => None
  end.

Definition parse (s : string) : option JVal :=
  match s with
  | String "[" (String "]" EmptyString) => Some (JArr [])
  | String "[" (String c s') =>
      if bool_decide (c = dquote) then
        '(body, rest) ← parse_chars s';
        items ← parse_more (String.length rest) rest;
        Some (JArr (JStr body :: items))
      else None
  | String c s' =>
      if bool_decide (c = dquote) then
        '(body, rest) ← parse_chars s';
        if String.eqb rest "" then Some (JStr body) else None
      else if String.eqb s "null" then Some JNull
      else if String.eqb s "true" then Some (JBool true)
      else if String.eqb s "false" then Some (JBool false)
      else None
  | EmptyString => None
  end.

Definition json : Json := {| JSON_parse := parse; JSON_stringify := stringify |}.

(** What [stringify] writes after the first item of an array of strings. *)
Definition rest_items (l : list string) : string :=
  foldr (λ id acc, "," +:+ quote id +:+ acc) "]" l.

End StringArrayJson.

(** ** Observations *)

(** The count that [updateDisplay] reads, and the test that
    [checkForCompletion] makes. *)
Definition currentCount (t : PenguinTracker) : nat := JsSet.size (foundPenguins t).
Definition isComplete (t : PenguinTracker) : bool :=
  bool_decide (JsSet.size (foundPenguins t) = length (penguinIds t)).

(** How often completion was signalled: each signal logs [LogAllFound] and
    schedules the reveal. *)
Definition completionSignals (p : Page) : nat :=
  length (filter (λ l, l = LogAllFound) (console p)).

(** The progress entry as the page can read it. *)
Definition storedProgress (p : Page) : option string :=
  if st_enabled (localStorage p)
  then st_items (localStorage p) !! "penguinsFound"
  else None.

(** A sequence of calls of [handlePenguinClick] on one tracker. *)
Definition discover `{Json} (this : nat) (ids : list string) (p : Page) : Page :=
  foldl (λ p id, exec (handlePenguinClick this id) p) p ids.

(** The page once the timer of [handleYes] has activated the penguins. *)
Definition activated `{Json} (env : Env) : Page :=
  exec activatePenguins (pageLoad env).

(** ** Weakest preconditions for scripts *)

Definition wp {A} (m : Js A) (Q : A → Page → Prop) (E : JsError → Page → Prop)
    (p : Page) : Prop :=
  match m p with
  | (Normal a, p') => Q a p'
  | (Throw e, p') => E e p'
  end.

(** [keeps I m]: the script [m] maintains [I], also when it throws. *)
Definition keeps {A} (I : Page → Prop) (m : Js A) : Prop :=
  ∀ p, I p → wp m (λ _, I) (λ _, I) p.

(** What [loadProgress] returns, read off the store. *)
Definition loaded `{Json} (p : Page) : JsSet.t :=
  match storedProgress p with
  | Some text =>
      if truthy text then
        match JSON_parse text with
        | Some v => match new_Set v with Normal s => s | Throw _ => JsSet.empty end
        | None => JsSet.empty
        end
      else JsSet.empty
  | None => JsSet.empty
  end.

(** The distinct members of a list, in the order of their first occurrence:
    the order in which a [Set] keeps them. *)
Definition distinct (l : list string) : list string :=
  foldl (λ acc x, if bool_decide (x ∈ acc) then acc else acc ++ [x]) [] l.

(** ** A page to run the examples on *)

Definition plainElement : Markup :=
  {| m_classList := []; m_textContent := ""; m_style := ∅ |}.

(** Every element the scripts look up is present, and the gate's controls
    are inside the intro section; the store still holds the progress of an
    earlier session. *)
Definition demoEnv : Env :=
  {| env_storage :=
       {| st_enabled := true; st_limit := 5242880;
          st_items := {["penguinsFound" :=
                         StringArrayJson.stringify (JArr [JStr "penguin3"])]} |};
     env_markup :=
       list_to_map ((λ id, (id, plainElement)) <$>
         ["btnYes"; "btnNo"; "introSection"; "mainContent";
          "penguin1"; "penguin2"; "penguin3"; "penguin4"; "penguin5";
          "penguinCount"; "penguinCounter"; "secretSection"]);
     env_container := λ id,
       if bool_decide (id = "btnYes" ∨ id = "btnNo") then Some "introSection"
       else None |}.

(** The tracker objects seen from outside: the universe and the set of
    each. *)
Definition heapView (ts : list PenguinTracker) : list (list string * JsSet.t) :=
  (λ t, (penguinIds t, foundPenguins t)) <$> ts.

(** The demo page after activation, and calls of the click handler on its
    tracker, run on the JSON instance above. *)
Definition demoPage : Page := @activated StringArrayJson.json demoEnv.
Definition demoDiscover (ids : list string) : Page :=
  @discover StringArrayJson.json 0 ids demoPage.
Definition demoClick (id : string) : Js unit :=
  @handlePenguinClick StringArrayJson.json 0 id.

(** The values the scale of the accept control takes: the finite numbers
    from 1 on (exponent at least -52 with a 53-bit mantissa) and positive
    infinity. *)
Definition scaleOk (x : float) : Prop :=
  match Prim2SF x with
  | S754_finite false _ e => (-52 <= e)%Z
  | S754_infinity false => True
  | _ => False
  end.

(** [n] calls of [handleNo], one after the other. *)
Definition declines `{Json} (n : nat) (p : Page) : Page :=
  Nat.iter n (exec handleNo) p.

(** The state of the gate that [handleNo] relies on: the handler [h] and
    the two controls it refers to. *)
Definition gateReady (h : IntroHandler) (p : Page) : Prop :=
  introHandler p = Some h ∧
  is_Some (document p !! "btnYes") ∧ is_Some (document p !! "btnNo").

(** The decline control is not displayed. *)
Definition declineGone (p : Page) : Prop :=
  ∃ e, document p !! "btnNo" = Some e ∧ css_is e "display" "none" = true.

(** Updates of an element that leave [display: none] in place. *)
Definition keepsHidden (f : Element → Element) : Prop :=
  ∀ e, css_is e "display" "none" = true → css_is (f e) "display" "none" = true.

(** [steady I m]: the script [m] maintains [I] and does not throw. *)
Definition steady {A} (I : Page → Prop) (m : Js A) : Prop :=
  ∀ p, I p → wp m (λ _, I) (λ _ _, False) p.

(** ** The invariant of a session *)

(** An update of an element that touches neither its listeners nor its
    inline style: a change of class or text. *)
Definition benign (f : Element → Element) : Prop :=
  ∀ e, clickListeners (f e) = clickListeners e ∧ style (f e) = style e.

(** [frame I]: the property [I] of the page does not depend on what the
    cosmetic parts of the scripts write: classes and texts, the two style
    sheets, console lines other than the completion signal, timers other
    than the activation, overlays, and the store. *)
Record frame (I : Page → Prop) : Prop := {
  frame_element : ∀ p id e f,
    I p → document p !! id = Some e → benign f →
    I (set_document (<[id := f e]> (document p)) p);
  frame_sheet : ∀ p id text,
    I p → id = "penguinFeedbackStyle" ∨ id = "celebrationStyle" →
    I (set_document (<[id := styleSheet text]> (document p)) p);
  frame_console : ∀ p l,
    I p → l ≠ LogAllFound → I (set_console (console p ++ [l]) p);
  frame_timers : ∀ p d t,
    I p → t ≠ TaskActivate → I (set_timers (timers p ++ [(d, t)]) p);
  frame_timer_gone : ∀ p k, I p → I (set_timers (delete k (timers p)) p);
  frame_overlays : ∀ p o, I p → I (set_overlays o p);
  frame_storage : ∀ p s, I p → I (set_localStorage s p);
}.

(** What a click listener on the element [id] must be: the gate's
    listeners sit on the gate's controls; a penguin listener belongs to the
    one tracker, sits on the penguin it names, is the handler the tracker
    stored for it, and that penguin is not found yet. *)
Definition listenerOk (ts : list PenguinTracker) (id : string) (l : Listener) : Prop :=
  match l with
  | OnYes => id = "btnYes"
  | OnNo => id = "btnNo"
  | OnPenguin this x =>
      this = 0 ∧ x = id ∧ id ∈ universe ∧
      ∃ t, ts = [t] ∧ penguinHandlers t !! id = Some l ∧
           JStr id ∉ foundPenguins t
  end.

(** Every element has at most one listener, and a proper one. During a
    call of [handlePenguinClick] the clicked element [skip] is exempt. *)
Definition listenersOk (skip : option string) (p : Page) : Prop :=
  ∀ id e, document p !! id = Some e → Some id ≠ skip →
    clickListeners e = [] ∨
    ∃ l, clickListeners e = [l] ∧ listenerOk (trackers p) id l.

(** The intro section is hidden, which takes the gate out of reach. *)
Definition gateClosed (p : Page) : Prop :=
  ∃ e, document p !! "introSection" = Some e ∧ css_is e "visibility" "hidden" = true.

Definition noActivation (p : Page) : Prop :=
  ∀ d, (d, TaskActivate) ∉ timers p.

(** The handler's reference to the intro section is the element of that
    id, if any. *)
Definition gateRefs (p : Page) : Prop :=
  ∀ h, introHandler p = Some h →
    introSection h = None ∨ introSection h = Some "introSection".

Definition trackerOk (t : PenguinTracker) : Prop :=
  penguinIds t = universe ∧
  ∃ ids, foundPenguins t = JStr <$> ids ∧ NoDup ids ∧ ids ⊆ universe.

(** The state of the page at the stages of a call of [handlePenguinClick]
    on the tracker [t]: [skip] is the element whose listener is being
    retired, [n] the number of completion signals so far. *)
Definition clickStage (skip : option string) (t : PenguinTracker) (n : nat)
    (p : Page) : Prop :=
  trackers p = [t] ∧ noActivation p ∧ gateClosed p ∧ listenersOk skip p ∧
  completionSignals p = n ∧ window_penguinTracker p = None ∧ gateRefs p.

(** The element [id] carries the listener of its penguin, and only it. *)
Definition ownListener (id : string) (p : Page) : Prop :=
  ∃ e, document p !! id = Some e ∧ clickListeners e = [OnPenguin 0 id].

(** The element [id] carries no listener. *)
Definition noListener (id : string) (p : Page) : Prop :=
  ∃ e, document p !! id = Some e ∧ clickListeners e = [].

(** The three stages of a session. Before the gate is accepted there is no
    tracker, no progress in the store and no penguin listener; [timers] are
    the pending timers. *)
Definition gateStage (ts : list (nat * Task)) (p : Page) : Prop :=
  trackers p = [] ∧ timers p = ts ∧ storedProgress p = None ∧
  completionSignals p = 0 ∧ listenersOk None p ∧
  window_penguinTracker p = None ∧ gateRefs p.

Definition gateUp (p : Page) : Prop := gateStage [] p.

(** Accepted: the intro is hidden and the activation is scheduled. *)
Definition activationPending (p : Page) : Prop :=
  gateStage [(100, TaskActivate)] p ∧ gateClosed p.

(** Activated: the one tracker [t] holds distinct ids of the universe, and
    completion was signalled once if its set is full and never otherwise. *)
Definition trackerActive (t : PenguinTracker) (p : Page) : Prop :=
  trackerOk t ∧ clickStage None t (if isComplete t then 1 else 0) p.

Definition sessionInv (p : Page) : Prop :=
  gateUp p ∨ activationPending p ∨ ∃ t, trackerActive t p.

(** Updates of an element that leave its listeners alone. *)
Definition keepsListeners (f : Element → Element) : Prop :=
  ∀ e, clickListeners (f e) = clickListeners e.

(** Updates of an element that leave [visibility: hidden] in place. *)
Definition keepsClosed (f : Element → Element) : Prop :=
  ∀ e, css_is e "visibility" "hidden" = true → css_is (f e) "visibility" "hidden" = true.

(** The tracker while its constructor runs: nothing is found yet. *)
Definition freshTracker (p : Page) : Prop :=
  ∃ t, clickStage None t 0 p ∧ penguinIds t = universe ∧ foundPenguins t = [].

(** A session on the demo page: the events, in order, after the load. *)
Definition demoSession (evs : list Event) : Page :=
  @session StringArrayJson.json demoEnv evs.

(** No tracker exists yet: the gate is up, accepted or not, and the only
    timers are activations. *)
Definition beforeTracker (p : Page) : Prop :=
  ∃ ts, gateStage ts p ∧ Forall (λ x, x.2 = TaskActivate) ts.

(** The demo page with a markup that does not nest its elements: the
    gate's controls stay in reach when the intro section is hidden. *)
Definition flatEnv : Env :=
  {| env_storage := env_storage demoEnv; env_markup := env_markup demoEnv;
     env_container := λ _, None |}.

(** ** Overlays and their timers *)

Global Instance Task_eq_dec : EqDecision Task.
Proof. solve_decision. Defined.

(** How many overlays of a kind are on the page, and how many pending
    timers remove one. *)
Definition shown (o : Overlay) (p : Page) : nat :=
  length (filter (λ x, x = o) (overlays p)).
Definition removals (o : Overlay) (p : Page) : nat :=
  length (filter (λ x, x.2 = TaskRemove o) (timers p)).

(** Every overlay on the page has its removal pending. *)
Definition overlaysTimed (p : Page) : Prop := ∀ o, shown o p = removals o p.

(** ** The signal and the reveal *)

(** How many reveals wait on a timer. *)
Definition reveals (p : Page) : nat :=
  length (filter (λ x, x.2 = TaskReveal) (timers p)).

(** The event is the expiry of a timer that holds a reveal. *)
Definition firesReveal (p : Page) (ev : Event) : bool :=
  match ev with
  | TimerFires k =>
      match timers p !! k with
      | Some (_, TaskReveal) => true
      | _ => false
      end
  | _ => false
  end.

(** How many of the events, happening in order from the page [p] on, are
    expiries of a reveal. *)
Fixpoint revealsFired `{Json} (container : Nesting) (p : Page) (evs : list Event)
    : nat :=
  match evs with
  | [] => 0
  | ev :: evs =>
      (if firesReveal p ev then 1 else 0) +
      revealsFired container (step container p ev) evs
  end.

(** The signals given are the reveals that wait, and [c] more. *)
Definition balanced (c : nat) (p : Page) : Prop :=
  completionSignals p = (reveals p + c)%nat.

(** ** The reveal *)

(** The secret section carries the class that shows it. *)
Definition revealed (p : Page) : Prop :=
  ∃ e, document p !! "secretSection" = Some e ∧ "revealed" ∈ classList e.

(** The callback of [allPenguinsFound] is pending. *)
Definition revealPending (p : Page) : Prop := ∃ d, (d, TaskReveal) ∈ timers p.

(** Nothing is revealed, and no reveal is pending, unless completion was
    signalled. *)
Definition revealGuarded (p : Page) : Prop :=
  revealed p ∨ revealPending p → (1 ≤ completionSignals p)%nat.

(** Updates of an element that do not add the class [revealed]. *)
Definition keepsUnrevealed (f : Element → Element) : Prop :=
  ∀ e, "revealed" ∈ classList (f e) → "revealed" ∈ classList e.

(** ** A gate that cannot be accepted *)

(** The intro handler found no intro section, or no main content. *)
Definition gateBroken (p : Page) : Prop :=
  ∃ h, introHandler p = Some h ∧ (introSection h = None ∨ mainContent h = None).

(** The demo page without its main content. *)
Definition brokenEnv : Env :=
  {| env_storage := env_storage demoEnv;
     env_markup := delete "mainContent" (env_markup demoEnv);
     env_container := env_container demoEnv |}.

(** ** The wiring of the gate *)

(** Both controls of the gate are in the markup. *)
Definition gateWired (env : Env) : bool :=
  bool_decide (is_Some (env_markup env !! "btnYes") ∧
               is_Some (env_markup env !! "btnNo")).

(** The listeners of an element once the page is loaded. *)
Definition loadedListeners (env : Env) (id : string) : list Listener :=
  if gateWired env then
    if bool_decide (id = "btnYes") then [OnYes]
    else if bool_decide (id = "btnNo") then [OnNo] else []
  else [].

(** The demo page with a store that has room for the text of one id, not
    of two. *)
Definition smallStoreEnv : Env :=
  {| env_storage := {| st_enabled := true; st_limit := 30; st_items := ∅ |};
     env_markup := env_markup demoEnv;
     env_container := env_container demoEnv |}.

(** The demo page without its decline control. *)
Definition loneYesEnv : Env :=
  {| env_storage := env_storage demoEnv;
     env_markup := delete "btnNo" (env_markup demoEnv);
     env_container := env_container demoEnv |}.

(** ** The stages of the decline control *)

(** The scale of the accept control after [n] calls of [handleNo]: [0.3]
    added [n] times to [1], each sum rounded to binary64. *)
Definition scaleAfter (n : nat) : float :=
  Nat.iter n (λ x, (x + three_tenths)%float) 1%float.

(** The gate as [handleNo] finds it: the handler and its two controls. *)
Definition gatePage (h : IntroHandler) (eYes eNo : Element) (p : Page) : Prop :=
  introHandler p = Some h ∧
  document p !! "btnYes" = Some eYes ∧ document p !! "btnNo" = Some eNo.

(** ** Handlers that run to completion *)

(** What a click listener on the element [id] relies on: the gate's
    listeners on the handler and its references to the two controls, a
    penguin's listener on its tracker and on the element it sits on. *)
Definition listenerReady (p : Page) (id : string) (l : Listener) : Prop :=
  match l with
  | OnYes | OnNo =>
      ∃ h, gateReady h p ∧ btnYes h = Some "btnYes" ∧ btnNo h = Some "btnNo"
  | OnPenguin this x =>
      x = id ∧ id ∈ universe ∧ (this < length (trackers p))%nat
  end.

(** The handler refers to the intro section and to the main content, both
    are in the document, and every listener has what it relies on. *)
Definition sound (p : Page) : Prop :=
  (∃ h, introHandler p = Some h ∧
        introSection h = Some "introSection" ∧
        mainContent h = Some "mainContent" ∧
        is_Some (document p !! "introSection") ∧
        is_Some (document p !! "mainContent")) ∧
  ∀ id e l, document p !! id = Some e → l ∈ clickListeners e →
            listenerReady p id l.

Definition sameRefs (h h' : IntroHandler) : Prop :=
  btnYes h' = btnYes h ∧ btnNo h' = btnNo h ∧
  introSection h' = introSection h ∧ mainContent h' = mainContent h.

(** [q] has what [p] has: the handler's references, the elements, the
    trackers. *)
Definition extends (p q : Page) : Prop :=
  (∀ h, introHandler p = Some h → ∃ h', introHandler q = Some h' ∧ sameRefs h h') ∧
  (∀ id, is_Some (document p !! id) → is_Some (document q !! id)) ∧
  (length (trackers p) ≤ length (trackers q))%nat.

(** The tracker under construction, while [sound] holds. *)
Definition constructing (this : nat) (p : Page) : Prop :=
  sound p ∧ ∃ t, trackers p !! this = Some t ∧ penguinIds t = universe.

(** The pages at which a listener can run: the page as loaded, the page
    after an event, and the page a listener leaves, which is where the
    next listener of the same click runs. *)
Inductive reachable `{Json} (env : Env) : Page → Prop :=
  | reach_load : reachable env (pageLoad env)
  | reach_step p ev :
      reachable env p → reachable env (step (env_container env) p ev)
  | reach_listener p id e l :
      reachable env p → document p !! id = Some e → l ∈ clickListeners e →
      reachable env (exec (runListener l) p).

(** ** The store and the sets *)

(** The stored progress against the sets of the trackers. A write that
    fails leaves the entry of an earlier save in place, so the entry, if
    there is one, is the text of what one of the sets was when it was
    saved: a part of that set from its start, with at least one member,
    since the sets grow at their end. With a single set, and a store that
    is enabled and has room for the text of that set, the entry is the
    text of the set as soon as it has a member. *)
Definition currentFor `{Json} (store : Storage) (stored : option string)
    (sets : list JsSet.t) : Prop :=
  (stored = None ∨
   ∃ s saved, s ∈ sets ∧ saved `prefix_of` s ∧ saved ≠ [] ∧
              stored = Some (JSON_stringify (JsSet.to_array saved))) ∧
  match sets with
  | [s] =>
      st_enabled store = true →
      st_fits store "penguinsFound" (JSON_stringify (JsSet.to_array s)) = true →
      stored = if bool_decide (s = [])
               then None
               else Some (JSON_stringify (JsSet.to_array s))
  | _ => True
  end.

Definition storeCurrent `{Json} (p : Page) : Prop :=
  currentFor (localStorage p) (storedProgress p) (foundPenguins <$> trackers p).

(** What the cosmetic parts of the scripts leave alone: the store and the
    sets of the trackers. *)
Definition storeFrame (s : Storage) (sets : list JsSet.t) (p : Page) : Prop :=
  localStorage p = s ∧ foundPenguins <$> trackers p = sets.

(** * Proofs *)

Section WpRules.
Context {A B : Type}.
Implicit Types (Q : A → Page → Prop) (E : JsError → Page → Prop).

Lemma wp_ret (a : A) Q E p : Q a p → wp (mret a) Q E p.
Proof. done. Qed.

Lemma wp_throw e Q E p : E e p → wp (throw e) Q E p.
Proof. done. Qed.

Lemma wp_get (f : Page → A) Q E p : Q (f p) p → wp (get f) Q E p.
Proof. done. Qed.

Lemma wp_lift (c : Completion A) Q E p :
  match c with Normal a => Q a p | Throw e => E e p end → wp (lift c) Q E p.
Proof. by destruct c. Qed.

Lemma wp_bind (m : Js A) (k : A → Js B) (R : B → Page → Prop) E p :
  wp m (λ a, wp (k a) R E) E p → wp (m ≫= k) R E p.
Proof.
  unfold wp, mbind, Js_bind. destruct (m p) as [[a|e] p']; done.
Qed.

Lemma wp_try_catch (body : Js A) (handler : JsError → Js A) Q E p :
  wp body Q (λ e, wp (handler e) Q E) p → wp (try_catch body handler) Q E p.
Proof.
  unfold wp, try_catch. destruct (body p) as [[a|e] p']; done.
Qed.

Lemma wp_mono (m : Js A) Q Q' E E' p :
  wp m Q E p → (∀ a p', Q a p' → Q' a p') → (∀ e p', E e p' → E' e p') →
  wp m Q' E' p.
Proof.
  unfold wp. destruct (m p) as [[a|e] p']; eauto.
Qed.

Lemma wp_exec (m : Js A) (R : Page → Prop) p :
  wp m (λ _, R) (λ _, R) p ↔ R (exec m p).
Proof.
  unfold wp, exec. destruct (m p) as [[a|e] p']; done.
Qed.

Lemma wp_outcome (m : Js A) (R : Completion A → Page → Prop) p :
  wp m (λ a, R (Normal a)) (λ e, R (Throw e)) p ↔ R (outcome m p) (exec m p).
Proof.
  unfold wp, exec, outcome. destruct (m p) as [[a|e] p']; done.
Qed.

End WpRules.

Lemma wp_modify (f : Page → Page) Q E p : Q tt (f p) → wp (modify f) Q E p.
Proof. done. Qed.

Lemma wp_when (b : bool) (m : Js unit) Q E p :
  (if b then wp m Q E p else Q tt p) → wp (when b m) Q E p.
Proof. by destruct b. Qed.

Ltac head_of t := lazymatch t with ?f _ => head_of f | _ => t end.

(** One step of symbolic execution of a script. *)
Ltac wp_step :=
  cbv beta;
  lazymatch goal with
  | |- wp (mbind _ _) _ _ _ => apply wp_bind
  | |- wp (mret _) _ _ _ => apply wp_ret
  | |- wp (throw _) _ _ _ => apply wp_throw
  | |- wp (get _) _ _ _ => apply wp_get
  | |- wp (modify _) _ _ _ => apply wp_modify
  | |- wp (lift _) _ _ _ => apply wp_lift
  | |- wp (try_catch _ _) _ _ _ => apply wp_try_catch
  | |- wp (when _ _) _ _ _ => apply wp_when
  | |- wp (match ?x with _ => _ end) _ _ _ => destruct x eqn:?
  | |- wp ?m _ _ _ => let h := head_of m in unfold h
  | |- match ?x with _ => _ end => destruct x eqn:?
  end.

Lemma universe_NoDup : NoDup universe.
Proof. apply (bool_decide_unpack _). by vm_compute. Qed.

(** ** Sets of strings *)

Lemma sameValueZero_JStr x v : sameValueZero (JStr x) v = true ↔ v = JStr x.
Proof.
  destruct v; simpl; try (split; [done|congruence]).
  rewrite String.eqb_eq. split; congruence.
Qed.

Lemma has_JStr (s : JsSet.t) x : JsSet.has s (JStr x) = true ↔ JStr x ∈ s.
Proof.
  unfold JsSet.has. rewrite existsb_exists. split.
  - intros (v & Hin & Hv). apply sameValueZero_JStr in Hv as ->.
    by apply list_elem_of_In.
  - intros Hin. exists (JStr x). split; [by apply list_elem_of_In|].
    by apply sameValueZero_JStr.
Qed.

Lemma has_JStr_fmap (l : list string) x :
  JsSet.has (JStr <$> l) (JStr x) = bool_decide (x ∈ l).
Proof.
  apply eq_true_iff_eq. rewrite has_JStr, bool_decide_eq_true.
  rewrite list_elem_of_fmap. split.
  - intros (y & [= ->] & Hy). done.
  - intros Hx. eauto.
Qed.

Lemma add_JStr_fmap (l : list string) x :
  JsSet.add (JStr <$> l) (JStr x) =
  JStr <$> (if bool_decide (x ∈ l) then l else l ++ [x]).
Proof.
  unfold JsSet.add. rewrite has_JStr_fmap.
  case_bool_decide; [done|]. by rewrite fmap_app.
Qed.

Lemma foldl_add_JStr (acc ids : list string) :
  foldl JsSet.add (JStr <$> acc) (JStr <$> ids) =
  JStr <$> foldl (λ acc x, if bool_decide (x ∈ acc) then acc else acc ++ [x]) acc ids.
Proof.
  revert acc. induction ids as [|x ids IH]; intros acc; simpl; [done|].
  rewrite add_JStr_fmap. apply IH.
Qed.

Lemma of_items_JStr (ids : list string) :
  JsSet.of_items (JStr <$> ids) = JStr <$> distinct ids.
Proof. apply (foldl_add_JStr []). Qed.

Lemma foldl_distinct_spec (acc ids : list string) :
  NoDup acc →
  let r := foldl (λ acc x, if bool_decide (x ∈ acc) then acc else acc ++ [x]) acc ids in
  NoDup r ∧ (∀ x, x ∈ r ↔ x ∈ acc ∨ x ∈ ids).
Proof.
  revert acc. induction ids as [|y ids IH]; intros acc Hacc; simpl.
  - split; [done|]. intros x. rewrite elem_of_nil. tauto.
  - case_bool_decide as Hy.
    + destruct (IH acc Hacc) as [Hnd Hin]. split; [done|].
      intros x. rewrite Hin, elem_of_cons. split; [tauto|].
      intros [?|[->|?]]; auto.
    + destruct (IH (acc ++ [y])) as [Hnd Hin].
      { apply NoDup_app. split_and!; [done| |apply NoDup_singleton].
        intros x Hx ->%list_elem_of_singleton. done. }
      split; [done|]. intros x.
      rewrite Hin, elem_of_app, list_elem_of_singleton, elem_of_cons. tauto.
Qed.

Lemma distinct_NoDup ids : NoDup (distinct ids).
Proof. apply (foldl_distinct_spec [] ids), NoDup_nil_2. Qed.

Lemma elem_of_distinct ids x : x ∈ distinct ids ↔ x ∈ ids.
Proof.
  destruct (foldl_distinct_spec [] ids (NoDup_nil_2)) as [_ Hin].
  unfold distinct. rewrite Hin, elem_of_nil. tauto.
Qed.

Lemma foldl_distinct_id (acc ids : list string) :
  NoDup (acc ++ ids) →
  foldl (λ acc x, if bool_decide (x ∈ acc) then acc else acc ++ [x]) acc ids = acc ++ ids.
Proof.
  revert acc. induction ids as [|y ids IH]; intros acc Hnd; simpl.
  - by rewrite app_nil_r.
  - rewrite bool_decide_eq_false_2.
    + rewrite IH; rewrite <- app_assoc; done.
    + apply NoDup_app in Hnd as (_ & Hdis & _). intros Hy.
      apply (Hdis y Hy). left.
Qed.

Lemma distinct_NoDup_id ids : NoDup ids → distinct ids = ids.
Proof. intros Hnd. apply (foldl_distinct_id [] ids Hnd). Qed.

Lemma distinct_length ids : length (distinct ids) = length (remove_dups ids).
Proof.
  apply Permutation_length, NoDup_Permutation.
  - apply distinct_NoDup.
  - apply NoDup_remove_dups.
  - intros x. by rewrite elem_of_distinct, elem_of_remove_dups.
Qed.

(** ** [loadProgress] *)

Lemma loadProgress_wp `{Json} p :
  wp loadProgress
     (λ s p', s = loaded p ∧
        (p' = p ∨ ∃ e, p' = set_console (console p ++ [WarnLoadFailed e]) p))
     (λ _ _, False) p.
Proof.
  unfold loaded, storedProgress.
  repeat wp_step; simpl in *; eauto.
Qed.

Lemma loadProgress_returns `{Json} p : outcome loadProgress p = Normal (loaded p).
Proof.
  pose proof (loadProgress_wp p) as Hwp. unfold wp, outcome in *.
  destruct (loadProgress p) as [[s|e] p']; simpl; [|done].
  by destruct Hwp as [-> _].
Qed.

(** C6. [loadProgress] never throws, and the store determines what it
    returns, for every stored value. It returns the empty set when the
    store is absent or disabled (every access to it throws), when there is
    no entry, when the entry is the empty text, when the text is not JSON,
    and when it is the JSON text of [null], a boolean, a number or an
    object. When the text is that of an array it returns the members of
    the array, each once, in the order of their first occurrence; for an
    array of distinct ids, which is what [saveProgress] writes, this is
    the stored set. When the text is that of a string it returns the code
    points of the string. *)
Theorem loadProgress_never_throws `{Json} (p : Page) :
  ∃ s, outcome loadProgress p = Normal s ∧
    (st_enabled (localStorage p) = false → s = JsSet.empty) ∧
    (st_items (localStorage p) !! "penguinsFound" = None → s = JsSet.empty) ∧
    (storedProgress p = Some "" → s = JsSet.empty) ∧
    (∀ text, storedProgress p = Some text → JSON_parse text = None →
       s = JsSet.empty) ∧
    (∀ text v, storedProgress p = Some text → text ≠ "" →
       JSON_parse text = Some v →
       s = match v with
           | JArr items => JsSet.of_items items
           | JStr chars => JsSet.of_items (string_items chars)
           | JNull | JBool _ | JNum _ | JObj _ => JsSet.empty
           end) ∧
    (∀ text ids, storedProgress p = Some text → text ≠ "" →
       JSON_parse text = Some (JArr (JStr <$> ids)) →
       s = JStr <$> distinct ids ∧ (NoDup ids → s = JStr <$> ids)).
Proof.
  exists (loaded p). split; [apply loadProgress_returns|].
  unfold loaded, storedProgress. split_and!.
  - by intros ->.
  - intros ->. by destruct (st_enabled _).
  - by intros ->.
  - intros text -> Hparse. rewrite Hparse. by destruct (truthy text).
  - intros text v -> Hne Hparse. rewrite Hparse.
    assert (truthy text = true) as ->.
    { unfold truthy. apply negb_true_iff, String.eqb_neq. done. }
    by destruct v.
  - intros text ids -> Hne Hparse. rewrite Hparse.
    assert (truthy text = true) as ->.
    { unfold truthy. apply negb_true_iff, String.eqb_neq. done. }
    simpl. rewrite of_items_JStr. split; [done|].
    intros Hnd. by rewrite distinct_NoDup_id.
Qed.

(** ** [saveProgress] *)

Lemma saveProgress_stores `{Json} p this t :
  st_enabled (localStorage p) = true →
  st_fits (localStorage p) "penguinsFound"
          (JSON_stringify (JsSet.to_array (foundPenguins t))) = true →
  trackers p !! this = Some t →
  saveProgress this p =
    (Normal tt,
     set_localStorage
       {| st_enabled := true; st_limit := st_limit (localStorage p);
          st_items := <["penguinsFound" := JSON_stringify (JArr (foundPenguins t))]>
                        (st_items (localStorage p)) |} p).
Proof.
  intros Hen Hq Ht.
  unfold saveProgress, try_catch, tracker, localStorage_setItem, mbind, Js_bind, get,
    modify, mret, Js_ret, JsSet.to_array in *.
  rewrite Ht. simpl. rewrite Hen, Hq. simpl. done.
Qed.

(** C7. With a store that is enabled and has room for the text of the
    set, [saveProgress] followed by [loadProgress]
    returns the set that was saved: the same ids in the same order. This
    holds for every set of strings that the platform's JSON reads back, in
    particular for every subset of the universe, the empty one included. *)
Theorem save_load_roundtrip `{Json} (p : Page) (this : nat) (t : PenguinTracker)
    (S : list string) :
  st_enabled (localStorage p) = true →
  st_fits (localStorage p) "penguinsFound"
          (JSON_stringify (JsSet.to_array (foundPenguins t))) = true →
  trackers p !! this = Some t →
  foundPenguins t = JStr <$> S →
  NoDup S →
  json_roundtrips S →
  outcome loadProgress (exec (saveProgress this) p) = Normal (JStr <$> S).
Proof.
  intros Hen Hq Ht Hfound Hnd [Hne Hparse].
  unfold exec. rewrite (saveProgress_stores p this t Hen Hq Ht). simpl.
  rewrite loadProgress_returns. f_equal.
  unfold loaded, storedProgress. simpl. rewrite lookup_insert_eq.
  rewrite Hfound.
  assert (truthy (JSON_stringify (JArr (JStr <$> S))) = true) as ->.
  { unfold truthy. apply negb_true_iff, String.eqb_neq. done. }
  rewrite Hparse. simpl. rewrite of_items_JStr. by rewrite distinct_NoDup_id.
Qed.

(** ** Invariants of scripts *)

Section KeepsRules.
Context {A B : Type} (I : Page → Prop).

Lemma keeps_ret (a : A) : keeps I (mret a).
Proof. intros p Hp. done. Qed.
Lemma keeps_throw e : keeps I (throw (A:=A) e).
Proof. intros p Hp. done. Qed.
Lemma keeps_get (f : Page → A) : keeps I (get f).
Proof. intros p Hp. done. Qed.
Lemma keeps_lift (c : Completion A) : keeps I (lift c).
Proof. intros p Hp. by destruct c. Qed.
Lemma keeps_bind (m : Js A) (k : A → Js B) :
  keeps I m → (∀ a, keeps I (k a)) → keeps I (m ≫= k).
Proof.
  intros Hm Hk p Hp. apply wp_bind. eapply wp_mono; [by apply Hm| |done].
  intros a p' Hp'. by apply Hk.
Qed.
Lemma keeps_try_catch (body : Js A) (handler : JsError → Js A) :
  keeps I body → (∀ e, keeps I (handler e)) → keeps I (try_catch body handler).
Proof.
  intros Hb Hh p Hp. apply wp_try_catch. eapply wp_mono; [by apply Hb|done|].
  intros e p' Hp'. by apply Hh.
Qed.
Lemma keeps_exec (m : Js A) p : keeps I m → I p → I (exec m p).
Proof. intros Hm Hp. by apply wp_exec, Hm. Qed.
End KeepsRules.

Lemma keeps_modify (I : Page → Prop) (f : Page → Page) :
  (∀ p, I p → I (f p)) → keeps I (modify f).
Proof. intros Hf p Hp. by apply Hf. Qed.
Lemma keeps_when (I : Page → Prop) (b : bool) (m : Js unit) :
  keeps I m → keeps I (when b m).
Proof. intros Hm. destruct b; [done|]. apply keeps_ret. Qed.
Lemma keeps_forEach {A} (I : Page → Prop) (l : list A) (f : A → Js unit) :
  (∀ x, x ∈ l → keeps I (f x)) → keeps I (forEach l f).
Proof.
  induction l as [|x l IH]; intros Hf; simpl; [apply keeps_ret|].
  apply keeps_bind; [apply Hf; left|]. intros _. apply IH.
  intros y Hy. apply Hf. by right.
Qed.
Lemma keeps_update (I : Page → Prop) (ref : option string) (f : Element → Element) :
  (∀ p id e, I p → document p !! id = Some e →
     I (set_document (<[id := f e]> (document p)) p)) →
  keeps I (update ref f).
Proof.
  intros Hf p Hp. unfold update, deref. destruct ref as [id|]; [|done].
  apply wp_bind, wp_bind, wp_get. cbv beta.
  destruct (document p !! id) as [e|] eqn:He; [|done].
  apply wp_ret, wp_modify. by apply Hf.
Qed.
(** Syntax-directed decomposition of a [keeps] goal: what is left are the
    writes of the script, each to be shown to maintain the invariant. *)
Ltac keeps_step :=
  lazymatch goal with
  | |- keeps _ (mbind _ _) => apply keeps_bind; [|intros ?]
  | |- keeps _ (mret _) => apply keeps_ret
  | |- keeps _ (throw _) => apply keeps_throw
  | |- keeps _ (get _) => apply keeps_get
  | |- keeps _ (lift _) => apply keeps_lift
  | |- keeps _ (modify _) => apply keeps_modify; intros ? ?
  | |- keeps _ (try_catch _ _) => apply keeps_try_catch; [|intros ?]
  | |- keeps _ (when _ _) => apply keeps_when
  | |- keeps _ (forEach _ _) => apply keeps_forEach; intros ? ?
  | |- keeps _ (update _ _) => apply keeps_update; intros ? ? ? ? ?
  | |- keeps _ (match ?x with _ => _ end) => destruct x
  | |- keeps _ ?m => let h := head_of m in unfold h
  end.
Ltac keeps_auto := repeat keeps_step.

Lemma fmap_alter_same {A B} (f : A → B) (g : A → A) (i : nat) (l : list A) :
  (∀ x, f (g x) = f x) → f <$> alter g i l = f <$> l.
Proof.
  intros Hfg. revert i. induction l as [|x l IH]; intros [|i]; simpl; [done..| |].
  - by rewrite Hfg.
  - f_equal. apply IH.
Qed.

Lemma fmap_alter_commute {A B} (f : A → B) (g : A → A) (g' : B → B) (i : nat)
    (l : list A) :
  (∀ x, f (g x) = g' (f x)) → f <$> alter g i l = alter g' i (f <$> l).
Proof.
  intros Hfg. revert i. induction l as [|x l IH]; intros [|i]; simpl; [done..| |].
  - by rewrite Hfg.
  - f_equal. apply IH.
Qed.

Lemma exec_bind_modify {A} (f : Page → Page) (k : unit → Js A) p :
  exec (modify f ≫= k) p = exec (k tt) (f p).
Proof. done. Qed.

(** ** The heap of trackers under [handlePenguinClick] *)

Section Heap.
Context `{Json}.

Lemma exec_bind_update_tracker {A} this f (k : unit → Js A) p :
  exec (update_tracker this f ≫= k) p =
  exec (k tt) (set_trackers (alter f this (trackers p)) p).
Proof. done. Qed.

(** A call of [handlePenguinClick] adds the id to the set of its tracker,
    whatever the id and however the call ends; the ids of the universe and
    the other trackers stay as they are. *)
Lemma handlePenguinClick_heap this id p :
  heapView (trackers (exec (handlePenguinClick this id) p)) =
  alter (λ v, (v.1, JsSet.add v.2 (JStr id))) this (heapView (trackers p)).
Proof.
  unfold handlePenguinClick. rewrite exec_bind_update_tracker.
  set (q := set_trackers _ p).
  transitivity (heapView (trackers q)).
  - apply (keeps_exec (λ p', heapView (trackers p') = heapView (trackers q)));
      [|done].
    generalize (heapView (trackers q)). intros ts.
    keeps_auto; simpl; try done.
    unfold heapView in *. rewrite fmap_alter_same; done.
  - unfold q, heapView. simpl. by apply fmap_alter_commute.
Qed.

End Heap.

Lemma exec_bind_keeps {A B} (I : Page → Prop) (m : Js A) (k : A → Js B) p :
  I (exec m p) → (∀ a, keeps I (k a)) → I (exec (m ≫= k) p).
Proof.
  intros Hm Hk. apply wp_exec, wp_bind. unfold exec, wp in *.
  destruct (m p) as [[a|e] p']; simpl in *; [|done].
  by apply Hk.
Qed.

Lemma wp_keeps {A} (I : Page → Prop) (m : Js A) Q E p :
  keeps I m → I p → (∀ a p', I p' → Q a p') → (∀ e p', I p' → E e p') →
  wp m Q E p.
Proof. intros Hm Hp HQ HE. eapply wp_mono; [by apply Hm|done..]. Qed.

(** ** Loading the page and activating the penguins *)

Section PageLoad.
Context `{Json}.

Lemma clear_on_load p :
  storedProgress
    (exec (try_catch (localStorage_removeItem "penguinsFound")
                     (λ error, console_warn (WarnClearFailed error))) p) = None.
Proof.
  unfold storedProgress, exec, try_catch, localStorage_removeItem, mbind, Js_bind, get.
  destruct (st_enabled (localStorage p)) eqn:Hen; simpl.
  - apply lookup_delete_eq.
  - by rewrite ?Hen.
Qed.

Lemma pageLoad_storedProgress env : storedProgress (pageLoad env) = None.
Proof.
  unfold pageLoad, main_script, initPage.
  apply (exec_bind_keeps (λ p, storedProgress p = None)).
  - apply (exec_bind_keeps (λ p, storedProgress p = None)).
    + apply clear_on_load.
    + intros _. keeps_auto; done.
  - intros _. keeps_auto; done.
Qed.

Lemma pageLoad_trackers env : trackers (pageLoad env) = [].
Proof.
  unfold pageLoad. apply (keeps_exec (λ p, trackers p = [])); [|done].
  keeps_auto; done.
Qed.

Lemma loaded_None p : storedProgress p = None → loaded p = JsSet.empty.
Proof. unfold loaded. by intros ->. Qed.

Lemma activatePenguins_fresh p :
  trackers p = [] → storedProgress p = None →
  heapView (trackers (exec activatePenguins p)) = [(universe, [])].
Proof.
  intros Hts Hst. apply wp_exec. unfold activatePenguins, new_PenguinTracker.
  apply wp_bind, wp_bind, wp_get. cbv beta. rewrite Hts. simpl.
  apply wp_bind, wp_modify. apply wp_bind.
  eapply wp_mono; [apply loadProgress_wp| |done].
  intros s p1 [-> Hp1]. rewrite loaded_None by done.
  assert (trackers p1 = [{| penguinIds := universe; penguinHandlers := ∅;
                            foundPenguins := JsSet.empty |}]) as Hts1.
  { destruct Hp1 as [->|[e ->]]; simpl; by rewrite Hts. }
  apply wp_bind. unfold update_tracker. apply wp_modify. rewrite Hts1. simpl.
  apply (wp_keeps (λ p', heapView (trackers p') = [(universe, [])])).
  - keeps_auto; simpl; try done.
    all: unfold heapView in *; rewrite fmap_alter_same; done.
  - done.
  - intros this p' Hp'. by apply wp_modify.
  - done.
Qed.

Lemma activated_heap env : heapView (trackers (activated env)) = [(universe, [])].
Proof.
  apply activatePenguins_fresh.
  - apply pageLoad_trackers.
  - apply pageLoad_storedProgress.
Qed.

Lemma discover_heap this ids p :
  heapView (trackers (discover this ids p)) =
  alter (λ v, (v.1, foldl JsSet.add v.2 (JStr <$> ids))) this (heapView (trackers p)).
Proof.
  unfold discover. revert p. induction ids as [|id ids IH]; intros p; simpl.
  - symmetry. apply list_alter_id. by intros [??].
  - rewrite IH, handlePenguinClick_heap, list_alter_alter_eq. done.
Qed.

Lemma discover_activated env ids :
  heapView (trackers (discover 0 ids (activated env))) =
  [(universe, JStr <$> distinct ids)].
Proof.
  rewrite discover_heap, activated_heap. simpl. by rewrite <- of_items_JStr.
Qed.

Lemma heapView_singleton ts a b :
  heapView ts = [(a, b)] → ∃ t, ts = [t] ∧ penguinIds t = a ∧ foundPenguins t = b.
Proof.
  destruct ts as [|t [|t' ts]]; simpl; [done| |done].
  intros [= <- <-]. eauto.
Qed.

(** C5. On a freshly activated tracker, after any sequence of calls of
    [handlePenguinClick] the count is the number of distinct ids of the
    sequence; so two sequences that name the same ids, in any order and
    with any repetitions, give the same count. (For ids of the universe
    this is the number of distinct valid ids; the statement does not need
    the restriction.) *)
Theorem currentCount_counts_distinct (env : Env) (ids : list string) :
  ∃ t, trackers (discover 0 ids (activated env)) = [t] ∧
       currentCount t = length (remove_dups ids) ∧
       (∀ ids', (∀ id, id ∈ ids' ↔ id ∈ ids) →
          ∃ t', trackers (discover 0 ids' (activated env)) = [t'] ∧
                currentCount t' = currentCount t).
Proof.
  destruct (heapView_singleton _ _ _ (discover_activated env ids))
    as (t & Ht & _ & Hfound).
  exists t. split; [done|].
  assert (∀ ids0 t0, foundPenguins t0 = JStr <$> distinct ids0 →
            currentCount t0 = length (remove_dups ids0)) as Hcount.
  { intros ids0 t0 H0. unfold currentCount, JsSet.size.
    by rewrite H0, length_fmap, distinct_length. }
  split; [by apply Hcount|].
  intros ids' Hsame.
  destruct (heapView_singleton _ _ _ (discover_activated env ids'))
    as (t' & Ht' & _ & Hfound').
  exists t'. split; [done|].
  rewrite (Hcount ids' t' Hfound'), (Hcount ids t Hfound).
  apply Permutation_length, NoDup_Permutation; [apply NoDup_remove_dups..|].
  intros x. rewrite !elem_of_remove_dups. apply Hsame.
Qed.

(** The completion test on a set of distinct ids of the universe. *)
Lemma complete_iff_all (t : PenguinTracker) (ids : list string) :
  penguinIds t = universe → foundPenguins t = JStr <$> ids → NoDup ids →
  (∀ id, id ∈ ids → id ∈ universe) →
  (isComplete t = true ↔ ∀ id, id ∈ universe → id ∈ ids).
Proof.
  intros Hids Hfound Hnd Hvalid.
  unfold isComplete, JsSet.size. rewrite bool_decide_eq_true.
  rewrite Hids, Hfound, length_fmap.
  assert (ids ⊆+ universe) as Hsub by (by apply NoDup_submseteq).
  split.
  - intros Hlen id Hid.
    assert (ids ≡ₚ universe) as Hperm.
    { apply submseteq_length_Permutation; [done|]. by rewrite Hlen. }
    by rewrite Hperm.
  - intros Hall. apply Permutation_length, NoDup_Permutation.
    + done.
    + apply universe_NoDup.
    + intros x. split; [apply Hvalid|apply Hall].
Qed.

End PageLoad.

(** ** Direct calls of the click handler *)

(** C4, as stated, fails on the method, which takes any id: after five
    calls with ids of other elements of the page, each of which completes
    normally, the completion test holds and completion is signalled though
    no id of the universe was found; and after a call with one such id and
    calls with the five ids of the universe the test fails, with a set of
    six, though every id of the universe was found (completion was
    signalled one call earlier, at size five, with [penguin5] not yet
    found). *)
Lemma foreign_ids_complete :
  let foreign := ["btnYes"; "btnNo"; "introSection"; "mainContent"; "secretSection"] in
  Forall (λ id, id ∉ universe) foreign ∧
  heapView (trackers (demoDiscover foreign)) = [(universe, JStr <$> foreign)] ∧
  isComplete <$> trackers (demoDiscover foreign) = [true] ∧
  completionSignals (demoDiscover foreign) = 1 ∧
  heapView (trackers (demoDiscover ("btnYes" :: universe)))
    = [(universe, JStr <$> "btnYes" :: universe)] ∧
  isComplete <$> trackers (demoDiscover ("btnYes" :: universe)) = [false] ∧
  completionSignals
    (demoDiscover ["btnYes"; "penguin1"; "penguin2"; "penguin3"; "penguin4"]) = 1.
Proof.
  split; [|by vm_compute].
  repeat constructor; intros Hin; by repeat (apply elem_of_cons in Hin as [?|Hin]);
    try (by apply elem_of_nil in Hin).
Qed.

(** C6, as stated, fails on a stored value that is neither malformed nor a
    set of ids: the entry that holds the JSON text of the string [ab] is
    read without an error, and [loadProgress] returns the set of the two
    characters, which is not empty and does not hold the stored value. *)
Lemma stored_string_is_spread :
  let text := StringArrayJson.stringify (JStr "ab") in
  let p := set_localStorage
             {| st_enabled := true; st_limit := 5242880;
                st_items := {["penguinsFound" := text]} |}
             (@pageLoad StringArrayJson.json demoEnv) in
  String.length text = 4 ∧
  StringArrayJson.parse text = Some (JStr "ab") ∧
  outcome (@loadProgress StringArrayJson.json) p = Normal [JStr "a"; JStr "b"] ∧
  console (exec (@loadProgress StringArrayJson.json) p) = console p.
Proof. by vm_compute. Qed.

(** C1, as stated, fails on the method: the fifth distinct id signals
    completion, and a further call with an id that is already in the set
    signals it again. *)
Lemma completion_signalled_again :
  completionSignals (demoDiscover universe) = 1 ∧
  heapView (trackers (demoDiscover universe)) = [(universe, JStr <$> universe)] ∧
  completionSignals (demoDiscover (universe ++ ["penguin1"])) = 2 ∧
  timers (demoDiscover (universe ++ ["penguin1"])) =
    timers (demoDiscover universe) ++
      [(2000, TaskRemove FoundNotification); (300, TaskReveal)].
Proof. by vm_compute. Qed.

(** C2, as stated, fails on the method: a call with an id that is already
    in the set logs, shows the feedback, runs the completion check and
    writes the store again (here: after the entry was removed, the call
    puts it back). *)
Lemma repeated_call_has_effects :
  let p := demoDiscover ["penguin1"] in
  let p' := exec (demoClick "penguin1") p in
  heapView (trackers p) = [(universe, [JStr "penguin1"])] ∧
  outcome (demoClick "penguin1") p = Normal tt ∧
  console p' = console p ++ [LogFound "penguin1" 1; LogChecking 1 5] ∧
  overlays p' = overlays p ++ [FoundNotification] ∧
  timers p' = timers p ++ [(2000, TaskRemove FoundNotification)] ∧
  storedProgress (exec (localStorage_removeItem "penguinsFound") p) = None ∧
  storedProgress
    (exec (demoClick "penguin1") (exec (localStorage_removeItem "penguinsFound") p))
    = storedProgress p.
Proof. by vm_compute. Qed.

(** C3, as stated, fails on the method: an id outside the universe is
    added to the set and written to the store. The call throws only
    afterwards, and only when the document has no element of that id; with
    such an element ([btnYes] here) it completes normally. *)
Lemma invalid_id_is_inserted :
  ("bogus" ∉ universe) ∧ ("btnYes" ∉ universe) ∧
  outcome (demoClick "bogus") demoPage = Throw TypeError ∧
  heapView (trackers (exec (demoClick "bogus") demoPage)) =
    [(universe, [JStr "bogus"])] ∧
  storedProgress (exec (demoClick "bogus") demoPage) =
    Some (StringArrayJson.stringify (JArr [JStr "bogus"])) ∧
  outcome (demoClick "btnYes") demoPage = Normal tt ∧
  heapView (trackers (exec (demoClick "btnYes") demoPage)) =
    [(universe, [JStr "btnYes"])].
Proof.
  split; [by apply (bool_decide_unpack _); vm_compute|].
  split; [by apply (bool_decide_unpack _); vm_compute|].
  by vm_compute.
Qed.

(** ** Adding three tenths to a binary64 number

    The scale of the accept control starts at 1 and grows by the rounded
    sum with [three_tenths]. The sum is taken in binary64, so that it never
    decreases is a fact about rounding; it is proved here from the
    specification of the primitive floats. *)
Module Binary64.
Local Open Scope Z_scope.

Lemma digits2_pos_size m : digits2_pos m = Pos.size m.
Proof. induction m; simpl; congruence. Qed.

Lemma digits_bounds m :
  2 ^ (Zpos (digits2_pos m) - 1) <= Zpos m < 2 ^ Zpos (digits2_pos m).
Proof.
  rewrite digits2_pos_size. split.
  - pose proof (Pos.size_le m) as H. 
    assert (Zpos (2 ^ Pos.size m) <= Zpos m~0) as H' by exact H.
    rewrite Pos2Z.inj_pow in H'. change (Z.pos m~0) with (2 * Z.pos m) in H'.
    replace (Zpos (Pos.size m)) with (Z.succ (Zpos (Pos.size m) - 1)) in H' by lia.
    rewrite Z.pow_succ_r in H' by lia.
    set (k := 2 ^ (Z.pos (Pos.size m) - 1)) in *. lia.
  - pose proof (Pos.size_gt m) as H.
    assert (Zpos m < Zpos (2 ^ Pos.size m)) as H' by exact H.
    now rewrite Pos2Z.inj_pow in H'.
Qed.

Lemma iter_pos_nat {A} (f : A -> A) n x :
  SpecFloat.iter_pos f n x = Nat.iter (Pos.to_nat n) f x.
Proof.
  revert x. induction n as [n IH|n IH|]; intros x; cbn [SpecFloat.iter_pos].
  - rewrite !IH, Pos2Nat.inj_xI.
    rewrite <- Nat.iter_succ_r, <- Nat.iter_add. f_equal. lia.
  - rewrite !IH, Pos2Nat.inj_xO.
    rewrite <- Nat.iter_add. f_equal. lia.
  - reflexivity.
Qed.

Lemma shr_m_shr_1 r : 0 <= shr_m r -> shr_m (shr_1 r) = shr_m r / 2.
Proof.
  destruct r as [m r s]. simpl. intros Hm.
  destruct m as [|[p|p|]|p]; simpl; try reflexivity; try lia.
  - rewrite Pos2Z.inj_xI. apply Z.div_unique with 1; lia.
  - rewrite Pos2Z.inj_xO. apply Z.div_unique with 0; lia.
Qed.

Lemma shr_m_iter n r :
  0 <= shr_m r -> shr_m (Nat.iter n shr_1 r) = shr_m r / 2 ^ Z.of_nat n.
Proof.
  intros Hr. induction n as [|n IH].
  - simpl. now rewrite Z.div_1_r.
  - rewrite Nat2Z.inj_succ, Z.pow_succ_r by lia. rewrite Nat.iter_succ.
    assert (0 < 2 ^ Z.of_nat n) as Hpow by (apply Z.pow_pos_nonneg; lia).
    rewrite shr_m_shr_1.
    + rewrite IH. rewrite Z.div_div by lia. f_equal. lia.
    + rewrite IH. apply Z.div_pos; lia.
Qed.

Lemma shr_spec r e n :
  0 <= shr_m r ->
  shr_m (fst (shr r e n)) = (if 0 <? n then shr_m r / 2 ^ n else shr_m r) /\
  snd (shr r e n) = (if 0 <? n then e + n else e).
Proof.
  intros Hr. destruct n as [|p|p]; simpl; try (split; reflexivity).
  split; [|reflexivity].
  rewrite iter_pos_nat, shr_m_iter by assumption.
  now rewrite positive_nat_Z.
Qed.

Lemma round_nearest_even_bounds m l :
  m <= round_nearest_even m l <= m + 1.
Proof.
  destruct l as [|[]]; simpl; try lia. destruct (Z.even m); lia.
Qed.

Lemma iter_xO m d : Zpos (Pos.iter xO m d) = Zpos m * 2 ^ Zpos d.
Proof.
  induction d as [|d IH] using Pos.peano_ind.
  - simpl. lia.
  - rewrite Pos.iter_succ, Pos2Z.inj_xO, IH, Pos2Z.inj_succ, Z.pow_succ_r by lia. lia.
Qed.

Lemma pow2_lt_inv a b : 0 <= b -> 2 ^ a < 2 ^ b -> a < b.
Proof. intros Hb H. apply (Z.pow_lt_mono_r_iff 2); lia. Qed.

Lemma add_three_tenths_mono mx ex :
  bounded 53 1024 mx ex = true -> -52 <= ex ->
  match SFadd 53 1024 (S754_finite false mx ex)
                      (S754_finite false 5404319552844595 (-54)) with
  | S754_finite false m' e' => ex < e' \/ (e' = ex /\ Zpos mx <= Zpos m')
  | S754_infinity false => True
  | _ => False
  end.
Proof.
  intros Hb Hex.
  assert (Zpos (digits2_pos mx) = 53) as Hdig.
  { unfold bounded, canonical_mantissa, fexp, emin in Hb.
    apply andb_prop in Hb as [Hb _]. apply Z.eqb_eq in Hb. lia. }
  pose proof (digits_bounds mx) as Hmx. rewrite Hdig in Hmx.
  change (2 ^ (53 - 1)) with 4503599627370496 in Hmx.
  change (2 ^ 53) with 9007199254740992 in Hmx.
  unfold SFadd. replace (Z.min ex (-54)) with (-54) by lia.
  unfold shl_align at 1 2.
  destruct (-54 - ex) as [|d|d] eqn:Hd; try lia.
  change (-54 - -54) with 0. cbn [fst cond_Zopp]. rewrite <- Pos2Z.inj_add.
  set (m := (Pos.iter xO mx d + 5404319552844595)%positive).
  assert (Zpos m = Zpos mx * 2 ^ Zpos d + 5404319552844595) as Hm.
  { unfold m. now rewrite Pos2Z.inj_add, iter_xO. }
  assert (Zpos d = ex + 54) as Hd' by lia.
  assert (4 <= 2 ^ Zpos d) as Hpd.
  { change 4 with (2 ^ 2). apply Z.pow_le_mono_r; lia. }
  pose proof (digits_bounds m) as HD.
  set (D := Zpos (digits2_pos m)) in *.
  assert (53 + Zpos d <= D) as HDlow.
  { assert (2 ^ (52 + Zpos d) < 2 ^ D) as Hlt.
    { rewrite Z.pow_add_r by lia. change (2 ^ 52) with 4503599627370496. nia. }
    apply pow2_lt_inv in Hlt; lia. }
  unfold binary_normalize, binary_round.
  assert (fexp 53 1024 (D + -54) = D - 107) as Hfexp.
  { unfold fexp, emin. lia. }
  fold D. rewrite Hfexp.
  unfold shl_align. destruct (D - 107 - -54) as [|n1|n1] eqn:Hn1; try lia.
  unfold binary_round_aux.
  assert (Zpos n1 = D - 53) as Hn1' by lia.
  assert (0 < 2 ^ Zpos n1) as Hpn1 by (apply Z.pow_pos_nonneg; lia).
  (* first shift *)
  unfold shr_fexp at 1. cbn [Zdigits2]. fold D. rewrite Hfexp, Hn1.
  pose proof (shr_spec (shr_record_of_loc (Zpos m) loc_Exact) (-54) (Zpos n1)) as Hs1.
  destruct (shr (shr_record_of_loc (Zpos m) loc_Exact) (-54) (Zpos n1))
    as [mrs' e'] eqn:Heq1.
  cbn [fst snd shr_record_of_loc shr_m] in Hs1.
  destruct Hs1 as [Hq He']; [lia|].
  change (0 <? Zpos n1) with true in Hq, He'. cbv iota in Hq, He'.
  set (q := shr_m mrs') in *.
  assert (4503599627370496 <= q < 9007199254740992) as Hqb.
  { assert (2 ^ (D - 1) = 4503599627370496 * 2 ^ Zpos n1) as E1.
    { replace (D - 1) with (52 + Zpos n1) by lia. now rewrite Z.pow_add_r by lia. }
    assert (2 ^ D = 9007199254740992 * 2 ^ Zpos n1) as E2.
    { replace D with (53 + Zpos n1) at 1 by lia. now rewrite Z.pow_add_r by lia. }
    rewrite Hq. split.
    - apply Z.div_le_lower_bound; lia.
    - apply Z.div_lt_upper_bound; lia. }
  pose proof (round_nearest_even_bounds q (loc_of_shr_record mrs')) as Hq'.
  set (q' := round_nearest_even q (loc_of_shr_record mrs')) in *.
  destruct q' as [|p'|p'] eqn:Hp'; try lia.
  (* second shift *)
  unfold shr_fexp. cbn [Zdigits2].
  pose proof (digits_bounds p') as HD'.
  set (D' := Zpos (digits2_pos p')) in *.
  assert (D' = 53 \/ D' = 54) as HD'cases.
  { assert (52 < D').
    { apply pow2_lt_inv; [lia|]. change (2 ^ 52) with 4503599627370496. lia. }
    assert (D' - 1 < 54).
    { apply pow2_lt_inv; [lia|]. change (2 ^ 54) with 18014398509481984. lia. }
    lia. }
  assert (fexp 53 1024 (D' + e') - e' = D' - 53) as Hfexp'.
  { unfold fexp, emin. lia. }
  rewrite Hfexp'.
  pose proof (shr_spec (shr_record_of_loc (Zpos p') loc_Exact) e' (D' - 53)) as Hs2.
  destruct (shr (shr_record_of_loc (Zpos p') loc_Exact) e' (D' - 53))
    as [mrs'' e''] eqn:Heq2.
  cbn [fst snd shr_record_of_loc shr_m] in Hs2.
  destruct Hs2 as [Hm'' He'']; [lia|].
  destruct HD'cases as [HD53|HD54].
  - rewrite HD53 in Hm'', He''. change (0 <? 53 - 53) with false in Hm'', He''.
    cbv iota in Hm'', He''. rewrite Hm''.
    destruct (e'' <=? 1024 - 53); [|exact I].
    assert (ex <= e'') by lia.
    destruct (Z.eq_dec e'' ex) as [Heq|Hne]; [right|left; lia].
    split; [assumption|].
    assert (Zpos n1 = Zpos d) as Hnd by lia.
    assert (Zpos mx <= q).
    { rewrite Hq, Hnd. apply Z.div_le_lower_bound; lia. }
    lia.
  - rewrite HD54 in Hm'', He''. change (0 <? 54 - 53) with true in Hm'', He''.
    cbv iota in Hm'', He''. change (2 ^ (54 - 53)) with 2 in Hm''.
    assert (1 <= shr_m mrs'') as Hpos.
    { rewrite Hm''. apply Z.div_le_lower_bound; lia. }
    destruct (shr_m mrs'') as [|m''|m'']; try lia.
    destruct (e'' <=? 1024 - 53); [|exact I].
    left. lia.
Qed.

Lemma three_tenths_spec :
  Prim2SF three_tenths = S754_finite false 5404319552844595 (-54).
Proof. reflexivity. Qed.

Lemma scale_one : scaleOk 1%float.
Proof. unfold scaleOk. now vm_compute. Qed.

(** The step of [handleNo]: the scale stays in range and does not
    decrease. *)
Lemma add_three_tenths (x : float) :
  scaleOk x ->
  scaleOk (x + three_tenths)%float /\ (x <=? x + three_tenths)%float = true.
Proof.
  unfold scaleOk. intros Hx.
  rewrite leb_spec, add_spec, three_tenths_spec.
  pose proof (Prim2SF_valid x) as Hvalid.
  destruct (Prim2SF x) as [s|[|]| |[|] mx ex]; try contradiction.
  - split; [exact I|reflexivity].
  - pose proof (add_three_tenths_mono mx ex Hvalid Hx) as Hadd.
    unfold SF64add, prec, emax.
    destruct (SFadd 53 1024 (S754_finite false mx ex)
                (S754_finite false 5404319552844595 (-54)))
      as [s|[|]| |[|] m' e']; try contradiction.
    + split; [exact I|reflexivity].
    + split; [lia|].
      unfold SFleb, SFcompare.
      destruct Hadd as [Hlt|[-> Hle]].
      * apply Z.compare_lt_iff in Hlt. now rewrite Hlt.
      * rewrite Z.compare_refl.
        change (Pos.compare_cont Eq mx m') with (Pos.compare mx m').
        destruct (Pos.compare_spec mx m') as [?|?|Hgt]; try reflexivity.
        apply Pos2Z.pos_lt_pos in Hgt. lia.
Qed.

End Binary64.

(** ** The intro gate *)

Section SteadyRules.
Context {A B : Type} (I : Page → Prop).

Lemma steady_ret (a : A) : steady I (mret a).
Proof. intros p Hp. done. Qed.
Lemma steady_get (f : Page → A) : steady I (get f).
Proof. intros p Hp. done. Qed.
Lemma steady_bind (m : Js A) (k : A → Js B) :
  steady I m → (∀ a, steady I (k a)) → steady I (m ≫= k).
Proof.
  intros Hm Hk p Hp. apply wp_bind. eapply wp_mono; [by apply Hm| |done].
  intros a p' Hp'. by apply Hk.
Qed.
End SteadyRules.

Lemma steady_modify (I : Page → Prop) (f : Page → Page) :
  (∀ p, I p → I (f p)) → steady I (modify f).
Proof. intros Hf p Hp. by apply Hf. Qed.
Lemma steady_when (I : Page → Prop) (b : bool) (m : Js unit) :
  steady I m → steady I (when b m).
Proof. intros Hm. destruct b; [done|]. apply steady_ret. Qed.
Lemma steady_update (I : Page → Prop) (id : string) (f : Element → Element) :
  (∀ p, I p → is_Some (document p !! id)) →
  (∀ p e, I p → document p !! id = Some e →
     I (set_document (<[id := f e]> (document p)) p)) →
  steady I (update (Some id) f).
Proof.
  intros Hpresent Hf p Hp. unfold update, deref.
  apply wp_bind, wp_bind, wp_get. cbv beta.
  destruct (Hpresent p Hp) as [e He]. rewrite He.
  apply wp_ret, wp_modify. by apply Hf.
Qed.

Lemma wp_nothrow {A} (m : Js A) Q p :
  wp m Q (λ _ _, False) p → ∃ a, outcome m p = Normal a ∧ Q a (exec m p).
Proof.
  unfold wp, outcome, exec. destruct (m p) as [[a|e] p']; [eauto|done].
Qed.

Lemma wp_seq {A B} (m : Js A) (k : A → Js B) (Mid : A → Page → Prop) Q E p :
  wp m Mid E p → (∀ a p', Mid a p' → wp (k a) Q E p') → wp (m ≫= k) Q E p.
Proof. intros Hm Hk. apply wp_bind. eapply wp_mono; [done| |done]. done. Qed.

Lemma wp_steady {A} (I : Page → Prop) (m : Js A) Q E p :
  steady I m → I p → (∀ a p', I p' → Q a p') → wp m Q E p.
Proof. intros Hm Hp HQ. eapply wp_mono; [by apply Hm|done|done]. Qed.

Lemma present_insert (d : gmap string Element) id k x :
  is_Some (d !! k) → is_Some (<[id := x]> d !! k).
Proof.
  intros Hk. destruct (decide (id = k)) as [->|Hne].
  - rewrite lookup_insert_eq. eauto.
  - by rewrite lookup_insert_ne.
Qed.

Lemma gateReady_insert h p id (x : Element) :
  gateReady h p → gateReady h (set_document (<[id := x]> (document p)) p).
Proof.
  intros (Hh & Hy & Hn). split_and!; simpl; [done|by apply present_insert..].
Qed.

Lemma declineGone_insert p id (f : Element → Element) (e : Element) :
  declineGone p → document p !! id = Some e → keepsHidden f →
  declineGone (set_document (<[id := f e]> (document p)) p).
Proof.
  intros (e0 & He0 & Hcss) He Hf. unfold declineGone. simpl.
  destruct (decide (id = "btnNo")) as [->|Hne].
  - rewrite lookup_insert_eq. eexists. split; [done|].
    apply Hf. congruence.
  - rewrite lookup_insert_ne by done. eauto.
Qed.

Lemma css_is_style_set e prop v prop' value :
  css_is (style_set prop v e) prop' value =
  if bool_decide (prop = prop')
  then match v with CssText s => String.eqb s value | _ => false end
  else css_is e prop' value.
Proof.
  unfold css_is, style_set. simpl. case_bool_decide as Hp.
  - subst. by rewrite lookup_insert_eq.
  - by rewrite lookup_insert_ne.
Qed.

Lemma keepsHidden_style_set prop v :
  prop ≠ "display" ∨ v = CssText "none" → keepsHidden (style_set prop v).
Proof.
  intros Hpv e He. rewrite css_is_style_set. case_bool_decide as Hp; [|done].
  destruct Hpv as [?| ->]; done.
Qed.
Lemma keepsHidden_textContent s : keepsHidden (set_textContent s).
Proof. by intros e He. Qed.
Lemma keepsHidden_classList_add c : keepsHidden (classList_add c).
Proof. intros e He. unfold classList_add. by case_bool_decide. Qed.

Ltac keepsHidden_tac :=
  first [ apply keepsHidden_textContent
        | apply keepsHidden_classList_add
        | apply keepsHidden_style_set; first [by left | by right] ].

(** Decomposition of a [steady] goal for scripts that update the two
    controls of the gate. *)
Ltac steady_step :=
  lazymatch goal with
  | |- steady _ (mbind _ _) => apply steady_bind; [|intros ?]
  | |- steady _ (mret _) => apply steady_ret
  | |- steady _ (get _) => apply steady_get
  | |- steady _ (modify _) => apply steady_modify; intros ? ?
  | |- steady _ (when _ _) => apply steady_when
  | |- steady _ (update (Some _) _) => apply steady_update; [intros ? ?|intros ? ? ? ?]
  end.

Section GateProofs.
Context `{Json}.

Lemma wp_intro Q E p h :
  introHandler p = Some h → Q h p → wp intro Q E p.
Proof.
  intros Hh HQ. unfold intro. apply wp_bind, wp_get. cbv beta. rewrite Hh.
  by apply wp_ret.
Qed.

Ltac gate_obligation :=
  match goal with
  | H : gateReady _ _ |- is_Some _ => by destruct H as (? & ? & ?)
  | H : gateReady _ _ ∧ _ |- is_Some _ => by destruct H as ((? & ? & ?) & ?)
  | |- gateReady _ _ => by apply gateReady_insert
  | H : gateReady _ _ ∧ declineGone _ |- gateReady _ _ ∧ declineGone _ =>
      destruct H as [? ?]; split;
      [by apply gateReady_insert|apply declineGone_insert; [done..|keepsHidden_tac]]
  | H : declineGone _ |- declineGone _ =>
      apply declineGone_insert; [done..|keepsHidden_tac]
  end.

Lemma makeYesOnlyOption_wp h p :
  btnYes h = Some "btnYes" → btnNo h = Some "btnNo" → gateReady h p →
  wp makeYesOnlyOption (λ _ p', gateReady h p' ∧ declineGone p') (λ _ _, False) p.
Proof.
  intros Hyes Hno Hp. unfold makeYesOnlyOption.
  apply wp_bind. apply (wp_intro _ _ _ h); [by destruct Hp|].
  rewrite Hyes, Hno.
  apply (wp_seq _ _ (λ _ p', gateReady h p' ∧ declineGone p')).
  - unfold update, deref. apply wp_bind, wp_bind, wp_get. cbv beta.
    destruct Hp as (Hh & Hy & [e He]). rewrite He.
    apply wp_ret, wp_modify. split.
    + apply gateReady_insert. by split_and!.
    + unfold declineGone. simpl. rewrite lookup_insert_eq. eexists. split; [done|].
      by rewrite css_is_style_set.
  - intros _ p' Hp'.
    apply (wp_steady (λ p', gateReady h p' ∧ declineGone p')); [|done|done].
    repeat steady_step; gate_obligation.
Qed.

(** One call of [handleNo] on a ready gate: it completes normally, counts
    the click, adds three tenths to the scale, and leaves the decline
    control undisplayed once the new scale exceeds 10. *)
Lemma handleNo_wp h p :
  btnYes h = Some "btnYes" → btnNo h = Some "btnNo" → gateReady h p →
  let h' := set_yesScale (yesScale h + three_tenths)
              (set_noClickCount (S (noClickCount h)) h) in
  wp handleNo
     (λ _ p', gateReady h' p' ∧
              ((10 <? yesScale h')%float = true → declineGone p'))
     (λ _ _, False) p.
Proof.
  intros Hyes Hno Hp h'. unfold handleNo, update_intro.
  set (h1 := set_noClickCount (S (noClickCount h)) h).
  apply wp_bind, wp_modify.
  assert (gateReady h1 (set_introHandler
            ((λ h, set_noClickCount (S (noClickCount h)) h) <$> introHandler p) p))
    as Hp1.
  { destruct Hp as (Hh & Hy & Hn). rewrite Hh. by split_and!. }
  apply wp_bind. apply (wp_intro _ _ _ h1); [by destruct Hp1|].
  change (btnNo h1) with (btnNo h). rewrite Hno.
  apply (wp_seq _ _ (λ _, gateReady h1)).
  { apply (wp_steady (gateReady h1)); [|done|done].
    repeat steady_step; gate_obligation. }
  intros _ p2 Hp2. apply wp_bind, wp_modify.
  assert (gateReady h' (set_introHandler
            ((λ h, set_yesScale (yesScale h + three_tenths) h) <$> introHandler p2)
            p2)) as Hp3.
  { destruct Hp2 as (Hh & Hy & Hn). rewrite Hh. by split_and!. }
  apply wp_bind. apply (wp_intro _ _ _ h'); [by destruct Hp3|].
  change (btnYes h') with (btnYes h). change (btnNo h') with (btnNo h).
  rewrite Hyes, Hno.
  apply (wp_seq _ _ (λ _, gateReady h')).
  { apply (wp_steady (gateReady h')); [|done|done].
    repeat steady_step; gate_obligation. }
  intros _ p4 Hp4.
  apply (wp_seq _ _ (λ _, gateReady h')).
  { apply (wp_steady (gateReady h')); [|done|done].
    repeat steady_step; gate_obligation. }
  intros _ p5 Hp5.
  apply (wp_seq _ _ (λ _, gateReady h')).
  { apply (wp_steady (gateReady h')); [|done|done].
    repeat steady_step; gate_obligation. }
  intros _ p6 Hp6.
  apply (wp_seq _ _ (λ _, gateReady h')).
  { apply (wp_steady (gateReady h')); [|done|done].
    repeat steady_step; gate_obligation. }
  intros _ p7 Hp7. apply wp_when.
  destruct (10 <? yesScale h')%float eqn:Hten.
  - eapply wp_mono; [by apply (makeYesOnlyOption_wp h')| |done].
    intros _ p8 [Hp8 Hgone]. done.
  - done.
Qed.

Lemma handleNo_keeps_gone : keeps declineGone handleNo.
Proof.
  keeps_auto; try done.
  all: try (apply declineGone_insert; [done..|keepsHidden_tac]).
Qed.

(** A control that is not displayed takes no click. *)
Lemma declineGone_no_input container p how :
  declineGone p → step container p (Activate how "btnNo") = p.
Proof.
  intros (e & He & Hcss). unfold step, receives. rewrite He.
  unfold takes. by rewrite Hcss.
Qed.

Lemma getElementById_present Q E p id :
  is_Some (document p !! id) → Q (Some id) p → wp (getElementById id) Q E p.
Proof.
  intros [e He] HQ. unfold getElementById. apply wp_bind, wp_get. cbv beta.
  rewrite He. by apply wp_ret.
Qed.

Lemma getElementById_any Q E p id :
  (∀ r, Q r p) → wp (getElementById id) Q E p.
Proof.
  intros HQ. unfold getElementById. apply wp_bind, wp_get. cbv beta.
  by apply wp_ret.
Qed.

Lemma initPage_gate p :
  is_Some (document p !! "btnYes") → is_Some (document p !! "btnNo") →
  wp initPage
     (λ _ p', ∃ h, gateReady h p' ∧ btnYes h = Some "btnYes" ∧
                   btnNo h = Some "btnNo" ∧ noClickCount h = 0 ∧
                   yesScale h = 1%float ∧ length (noMessages h) = 6)
     (λ _ _, False) p.
Proof.
  intros Hy Hn. unfold initPage.
  apply (wp_seq _ _ (λ _ p', is_Some (document p' !! "btnYes") ∧
                             is_Some (document p' !! "btnNo"))).
  { repeat wp_step; simpl; done. }
  intros _ p1 [Hy1 Hn1]. apply wp_bind, wp_modify.
  unfold new_IntroHandler. apply wp_bind.
  apply wp_bind, getElementById_present; [done|].
  apply wp_bind, getElementById_present; [done|].
  apply wp_bind, getElementById_any. intros section.
  apply wp_bind, getElementById_any. intros main.
  apply wp_bind, wp_modify.
  match goal with |- wp _ _ _ (set_introHandler (Some ?h0) _) => set (h := h0) end.
  assert (gateReady h (set_introHandler (Some h) (set_bodyOverflow (Some "hidden") p1)))
    as Hready by (by split_and!).
  apply wp_bind. unfold initIntro. apply wp_bind.
  apply (wp_intro _ _ _ h); [done|].
  change (btnYes h) with (Some "btnYes"). change (btnNo h) with (Some "btnNo").
  rewrite !bool_decide_eq_true_2 by eauto. cbn [andb].
  apply wp_when.
  apply (wp_steady (gateReady h)); [|done|].
  - repeat steady_step; gate_obligation.
  - intros _ p2 Hp2. apply wp_ret. exists h. by split_and!.
Qed.

Lemma pageLoad_gate env :
  is_Some (env_markup env !! "btnYes") → is_Some (env_markup env !! "btnNo") →
  ∃ h, gateReady h (pageLoad env) ∧ btnYes h = Some "btnYes" ∧
       btnNo h = Some "btnNo" ∧ noClickCount h = 0 ∧
       yesScale h = 1%float ∧ length (noMessages h) = 6.
Proof.
  intros Hy Hn. unfold pageLoad, main_script.
  apply wp_exec.
  apply (wp_seq _ _ (λ _ p', ∃ h, gateReady h p' ∧ btnYes h = Some "btnYes" ∧
                               btnNo h = Some "btnNo" ∧ noClickCount h = 0 ∧
                               yesScale h = 1%float ∧ length (noMessages h) = 6)).
  - eapply wp_mono; [apply initPage_gate| |done].
    + unfold blankPage. simpl. rewrite lookup_fmap. by destruct Hy as [? ->].
    + unfold blankPage. simpl. rewrite lookup_fmap. by destruct Hn as [? ->].
    + done.
  - intros _ p1 (h & Hready & Hrest).
    apply (wp_keeps (gateReady h)); [|done|eauto|eauto].
    keeps_auto; simpl; done.
Qed.

(** The gate after [n] calls of [handleNo]. *)
Lemma declines_gate env n :
  is_Some (env_markup env !! "btnYes") → is_Some (env_markup env !! "btnNo") →
  ∃ h, gateReady h (declines n (pageLoad env)) ∧ btnYes h = Some "btnYes" ∧
       btnNo h = Some "btnNo" ∧ noClickCount h = n ∧
       scaleOk (yesScale h) ∧ length (noMessages h) = 6.
Proof.
  intros Hy Hn. induction n as [|n (h & Hready & Hyes & Hno & Hcount & Hok & Hlen)].
  - destruct (pageLoad_gate env Hy Hn) as (h & Hready & Hyes & Hno & Hc & Hs & Hl).
    exists h. split_and!; try done. rewrite Hs. apply Binary64.scale_one.
  - destruct (wp_nothrow _ _ _ (handleNo_wp h _ Hyes Hno Hready))
      as ([] & Hout & Hready' & _).
    unfold declines in *. simpl.
    eexists. split_and!; [exact Hready'|done|done|simpl; by rewrite Hcount| |done].
    simpl. by apply Binary64.add_three_tenths.
Qed.


Lemma declines_keep_gone n p : declineGone p → declineGone (declines n p).
Proof.
  intros Hp. induction n as [|n IH]; [done|].
  unfold declines in *. simpl. by apply keeps_exec; [apply handleNo_keeps_gone|].
Qed.

(** A call of [handleNo] after [n] earlier ones: it completes normally,
    counts, does not lower the scale, and past 10 leaves the decline
    control out of reach. *)
Lemma decline_call (env : Env) (n : nat) :
  is_Some (env_markup env !! "btnYes") →
  is_Some (env_markup env !! "btnNo") →
  ∃ h h',
    introHandler (declines n (pageLoad env)) = Some h ∧
    introHandler (declines (S n) (pageLoad env)) = Some h' ∧
    outcome handleNo (declines n (pageLoad env)) = Normal tt ∧
    noClickCount h' = S n ∧
    ((noClickCount h' ≤ length (noMessages h'))%nat →
       is_Some (array_get (noMessages h') (noClickCount h' - 1))) ∧
    (yesScale h <=? yesScale h')%float = true ∧
    ((10 <? yesScale h')%float = true →
       ∀ k how,
         step (env_container env) (declines k (declines (S n) (pageLoad env)))
              (Activate how "btnNo")
         = declines k (declines (S n) (pageLoad env))).
Proof.
  intros Hy Hn.
  destruct (declines_gate env n Hy Hn) as (h & Hready & Hyes & Hno & Hcount & Hok & Hlen).
  destruct (wp_nothrow _ _ _ (handleNo_wp h _ Hyes Hno Hready))
    as ([] & Hout & Hready' & Hgone).
  eexists h, _. split_and!.
  - by destruct Hready.
  - by destruct Hready'.
  - done.
  - simpl. by rewrite Hcount.
  - simpl. intros Hle. apply lookup_lt_is_Some. unfold array_get. lia.
  - simpl. by apply Binary64.add_three_tenths.
  - intros Hten k how. apply declineGone_no_input, declines_keep_gone.
    by apply Hgone.
Qed.
End GateProofs.

(** On the demo page: twenty declines pass the six messages and the first
    threshold; the thirtieth is the first to pass the second one. In exact
    arithmetic the scale would then be 10; the binary64 sum is above it. *)
Example twenty_declines :
  let p := @declines StringArrayJson.json 20 (@pageLoad StringArrayJson.json demoEnv) in
  (noClickCount <$> introHandler p) = Some 20 ∧
  (textContent <$> document p !! "btnNo") = Some "Please? 💔" ∧
  ((λ h, (4 <? yesScale h, 10 <? yesScale h)%float) <$> introHandler p)
    = Some (true, false) ∧
  ((λ e, css_is e "pointerEvents" "none") <$> document p !! "btnNo") = Some true ∧
  ((λ e, css_is e "display" "none") <$> document p !! "btnNo") = Some false.
Proof. by vm_compute. Qed.

Example thirty_declines :
  let p29 := @declines StringArrayJson.json 29 (@pageLoad StringArrayJson.json demoEnv) in
  let p30 := @declines StringArrayJson.json 30 (@pageLoad StringArrayJson.json demoEnv) in
  ((λ h, (10 <? yesScale h)%float) <$> introHandler p29) = Some false ∧
  ((λ h, (10 <? yesScale h)%float) <$> introHandler p30) = Some true ∧
  ((λ e, css_is e "display" "none") <$> document p30 !! "btnNo") = Some true ∧
  ((λ e, style e !! "transform") <$> document p30 !! "btnYes")
    = Some (Some (CssScale 1)).
Proof. by vm_compute. Qed.

(** ** The console handle *)

Section Handle.
Context `{Json}.

Lemma keeps_runListener_window l :
  keeps (λ p, window_penguinTracker p = None) (runListener l).
Proof. destruct l; keeps_auto; done. Qed.

Lemma keeps_runTask_window t :
  keeps (λ p, window_penguinTracker p = None) (runTask t).
Proof. destruct t; keeps_auto; done. Qed.

Lemma dispatchClick_keeps (I : Page → Prop) id p :
  (∀ l, keeps I (runListener l)) → I p → I (dispatchClick id p).
Proof.
  intros Hl Hp. unfold dispatchClick.
  destruct (document p !! id) as [e|]; [|done].
  generalize (clickListeners e). intros ls. revert p Hp.
  induction ls as [|l ls IH]; intros p Hp; simpl; [done|].
  apply IH. destruct (document p !! id) as [e'|]; [|done].
  case_bool_decide; [|done]. by apply keeps_exec.
Qed.

Lemma step_keeps_window container p ev :
  window_penguinTracker p = None →
  window_penguinTracker (step container p ev) = None.
Proof.
  intros Hp. destruct ev as [how id|k|]; simpl.
  - destruct (receives container how p id); [|done].
    apply (dispatchClick_keeps (λ p, window_penguinTracker p = None)); [|done].
    apply keeps_runListener_window.
  - destruct (timers p !! k) as [[d t]|]; [|done].
    by apply (keeps_exec (λ p, window_penguinTracker p = None));
      [apply keeps_runTask_window|].
  - unfold console_reset, exec, mbind, Js_bind, get. by rewrite Hp.
Qed.

Lemma pageLoad_window env : window_penguinTracker (pageLoad env) = None.
Proof.
  unfold pageLoad, penguins_script, initPenguinSystem.
  apply wp_exec, wp_bind.
  apply (wp_keeps (λ p, window_penguinTracker p = None));
    [by keeps_auto|done| |done].
  intros _ p _. by repeat wp_step.
Qed.

(** C10. Whatever happens in a session, [window.penguinTracker] stays
    undefined: the export copied the binding before any tracker existed,
    and nothing writes the property afterwards. The documented console
    command therefore throws a [TypeError] and leaves the page, and any
    tracker on it, as they were. *)
Theorem window_penguinTracker_stays_undefined (env : Env) (evs : list Event) :
  window_penguinTracker (session env evs) = None ∧
  outcome console_reset (session env evs) = Throw TypeError ∧
  step (env_container env) (session env evs) ConsoleReset = session env evs.
Proof.
  assert (window_penguinTracker (session env evs) = None) as Hw.
  { unfold session, run. generalize (pageLoad_window env). generalize (pageLoad env).
    induction evs as [|ev evs IH]; intros p Hp; simpl; [done|].
    apply IH. by apply step_keeps_window. }
  split; [done|].
  unfold step, console_reset, outcome, exec, mbind, Js_bind, get. by rewrite Hw.
Qed.
End Handle.

(** On the demo page, after the gate was accepted and two penguins were
    found: the script's binding refers to the tracker, the window property
    does not, and the console command resets nothing. *)
Example console_reset_reaches_nothing :
  let p := demoSession [Activate Pointer "btnYes"; TimerFires 0;
                        Activate Pointer "penguin2"; Activate Keyboard "penguin4"] in
  penguinTracker p = Some 0 ∧
  window_penguinTracker p = None ∧
  heapView (trackers p) = [(universe, [JStr "penguin2"; JStr "penguin4"])] ∧
  heapView (trackers (@step StringArrayJson.json (env_container demoEnv) p ConsoleReset))
    = [(universe, [JStr "penguin2"; JStr "penguin4"])] ∧
  reloading (@step StringArrayJson.json (env_container demoEnv) p ConsoleReset) = false.
Proof. by vm_compute. Qed.

(** ** Instances on the demo page *)

Lemma save_load_roundtrip_witness :
  let t := {| penguinIds := universe; penguinHandlers := ∅;
              foundPenguins := JStr <$> ["penguin2"; "penguin5"] |} in
  let p := set_trackers [t] (@pageLoad StringArrayJson.json demoEnv) in
  outcome (@loadProgress StringArrayJson.json)
          (exec (@saveProgress StringArrayJson.json 0) p)
  = Normal (JStr <$> ["penguin2"; "penguin5"]).
Proof.
  intros t p.
  apply (@save_load_roundtrip StringArrayJson.json p 0 t ["penguin2"; "penguin5"]).
  - by vm_compute.
  - by vm_compute.
  - reflexivity.
  - reflexivity.
  - apply (bool_decide_unpack _). by vm_compute.
  - split; by vm_compute.
Defined.

(** The empty set round-trips as well: its text is not the empty string. *)
Example save_load_empty :
  let t := {| penguinIds := universe; penguinHandlers := ∅; foundPenguins := [] |} in
  let p := set_trackers [t] (@pageLoad StringArrayJson.json demoEnv) in
  storedProgress (exec (@saveProgress StringArrayJson.json 0) p)
    = Some (String "[" (String "]" EmptyString)) ∧
  outcome (@loadProgress StringArrayJson.json)
          (exec (@saveProgress StringArrayJson.json 0) p) = Normal [].
Proof. by vm_compute. Qed.

(** What [loadProgress] makes of stored texts that are not lists of ids. *)
Example load_degrades :
  let stored text :=
    set_localStorage {| st_enabled := true; st_limit := 5242880;
                        st_items := {["penguinsFound" := text]} |}
                     (@pageLoad StringArrayJson.json demoEnv) in
  let disabled :=
    set_localStorage {| st_enabled := false; st_limit := 5242880; st_items := ∅ |}
                     (@pageLoad StringArrayJson.json demoEnv) in
  outcome (@loadProgress StringArrayJson.json) (stored "not json") = Normal [] ∧
  outcome (@loadProgress StringArrayJson.json) (stored "") = Normal [] ∧
  outcome (@loadProgress StringArrayJson.json) (stored "true") = Normal [] ∧
  outcome (@loadProgress StringArrayJson.json) (stored "null") = Normal [] ∧
  outcome (@loadProgress StringArrayJson.json) disabled = Normal [] ∧
  console (exec (@loadProgress StringArrayJson.json) disabled)
    = [WarnLoadFailed SecurityError] ∧
  outcome (@loadProgress StringArrayJson.json)
    (stored (StringArrayJson.stringify (JStr "ab"))) = Normal [JStr "a"; JStr "b"].
Proof. by vm_compute. Qed.

(** ** Frames *)

Lemma benign_classList_add c : benign (classList_add c).
Proof. intros e. unfold classList_add. by case_bool_decide. Qed.
Lemma benign_classList_remove c : benign (classList_remove c).
Proof. by intros e. Qed.
Lemma benign_set_textContent s : benign (set_textContent s).
Proof. by intros e. Qed.

Lemma frame_and (I J : Page → Prop) :
  frame I → frame J → frame (λ p, I p ∧ J p).
Proof.
  intros [] []. split; intros; destruct_and!; split; eauto.
Qed.

Lemma frame_trackers ts : frame (λ p, trackers p = ts).
Proof. by split. Qed.
Lemma frame_window : frame (λ p, window_penguinTracker p = None).
Proof. by split. Qed.
Lemma frame_gateRefs : frame gateRefs.
Proof. by split. Qed.

Lemma frame_present id : frame (λ p, is_Some (document p !! id)).
Proof.
  split; try done; intros; simpl; by apply present_insert.
Qed.

Lemma frame_noActivation : frame noActivation.
Proof.
  split; try done; unfold noActivation; simpl.
  - intros p d t Hp Ht d'. rewrite elem_of_app, list_elem_of_singleton.
    intros [Hin|[= _ <-]]; [by eapply Hp|done].
  - intros p k Hp d Hin. apply (Hp d). by eapply list_elem_of_delete_inv.
Qed.

Lemma frame_completionSignals n : frame (λ p, completionSignals p = n).
Proof.
  split; try done. unfold completionSignals. simpl.
  intros p l <- Hl. rewrite filter_app, length_app.
  rewrite (filter_cons_False _ l) by done. simpl. lia.
Qed.

Lemma css_is_benign (f : Element → Element) e prop value :
  benign f → css_is (f e) prop value = css_is e prop value.
Proof. intros Hf. unfold css_is. by rewrite (proj2 (Hf e)). Qed.

Lemma frame_gateClosed : frame gateClosed.
Proof.
  split; try done; unfold gateClosed; simpl.
  - intros p id e f (e0 & He0 & Hcss) He Hf.
    destruct (decide (id = "introSection")) as [->|Hne].
    + rewrite lookup_insert_eq. eexists. split; [done|].
      rewrite css_is_benign by done. congruence.
    + rewrite lookup_insert_ne by done. eauto.
  - intros p id text (e0 & He0 & Hcss) Hid.
    rewrite lookup_insert_ne; [eauto|]. by destruct Hid as [-> | ->].
Qed.

Lemma listenersOk_ext skip p q :
  document q = document p → trackers q = trackers p →
  listenersOk skip p → listenersOk skip q.
Proof. unfold listenersOk. by intros -> ->. Qed.

Lemma frame_listenersOk skip : frame (listenersOk skip).
Proof.
  split; try (intros; by eapply listenersOk_ext); unfold listenersOk; simpl.
  - intros p id e f Hp He Hf x e'.
    destruct (decide (id = x)) as [->|Hne].
    + rewrite lookup_insert_eq. intros [= <-] Hskip.
      rewrite (proj1 (Hf e)). by eapply Hp.
    + rewrite lookup_insert_ne by done. apply Hp.
  - intros p id text Hp Hid x e'.
    destruct (decide (id = x)) as [->|Hne].
    + rewrite lookup_insert_eq. intros [= <-] _. by left.
    + rewrite lookup_insert_ne by done. apply Hp.
Qed.

Ltac benign_tac :=
  first [ apply benign_classList_add
        | apply benign_classList_remove
        | apply benign_set_textContent ].

(** Discharges the writes of a cosmetic script against a frame [HI]. *)
Ltac frame_solve HI :=
  first
    [ by eapply (frame_element _ HI); [eassumption|eassumption|benign_tac]
    | by eapply (frame_sheet _ HI); [eassumption|auto]
    | by eapply (frame_console _ HI)
    | by eapply (frame_timers _ HI)
    | by eapply (frame_overlays _ HI)
    | by eapply (frame_storage _ HI) ].

Section Cosmetic.
Context `{Json} (I : Page → Prop) (HI : frame I).

Lemma steady_console_log l : l ≠ LogAllFound → steady I (console_log l).
Proof. intros Hl p Hp. unfold console_log. apply wp_modify. frame_solve HI. Qed.

Lemma steady_setTimeout t d : t ≠ TaskActivate → steady I (setTimeout t d).
Proof. intros Ht p Hp. unfold setTimeout. apply wp_modify. frame_solve HI. Qed.

Lemma steady_saveProgress this : steady I (saveProgress this).
Proof.
  intros p Hp. unfold saveProgress.
  repeat wp_step; simpl in *; try done; frame_solve HI.
Qed.

Lemma wp_guarded_update id f p :
  I p → benign f →
  wp (r ← getElementById id; when (bool_decide (is_Some r)) (update r f))
     (λ _, I) (λ _ _, False) p.
Proof.
  intros Hp Hf. unfold getElementById, update, deref.
  apply wp_bind, wp_bind, wp_get. cbv beta.
  destruct (document p !! id) as [e|] eqn:He; apply wp_ret; simpl; [|done].
  apply wp_bind, wp_bind, wp_get. cbv beta. rewrite He.
  apply wp_ret, wp_modify. by eapply (frame_element _ HI).
Qed.

Lemma steady_showPenguinCounter : steady I showPenguinCounter.
Proof.
  intros p Hp. apply wp_guarded_update; [done|benign_tac].
Qed.

Lemma steady_updatePenguinCountDisplay count :
  steady I (updatePenguinCountDisplay count).
Proof.
  intros p Hp. unfold updatePenguinCountDisplay, getElementById.
  apply wp_bind, wp_bind, wp_get. cbv beta.
  destruct (document p !! "penguinCount") as [e|] eqn:He; apply wp_ret.
  - apply (wp_seq _ _ (λ _, I)).
    + simpl. unfold update, deref. apply wp_bind, wp_bind, wp_get. cbv beta.
      rewrite He. apply wp_ret, wp_modify. frame_solve HI.
    + intros _ p' Hp'. apply wp_when. destruct (bool_decide _); [|done].
      by apply steady_showPenguinCounter.
  - apply wp_bind. simpl. apply wp_ret.
    apply wp_when. destruct (bool_decide _); [|done].
    by apply steady_showPenguinCounter.
Qed.

Lemma steady_updateDisplay this :
  (∀ p, I p → is_Some (trackers p !! this)) → steady I (updateDisplay this).
Proof.
  intros Ht p Hp. unfold updateDisplay, tracker.
  apply wp_bind, wp_bind, wp_get. cbv beta.
  destruct (Ht p Hp) as [t ->]. apply wp_ret.
  by apply steady_updatePenguinCountDisplay.
Qed.

Lemma steady_update_present id f :
  benign f → (∀ p, I p → is_Some (document p !! id)) →
  steady I (update (Some id) f).
Proof.
  intros Hf Hpresent. apply steady_update; [done|].
  intros p e Hp He. by eapply (frame_element _ HI).
Qed.

Lemma steady_createCelebrationEffect id :
  (∀ p, I p → is_Some (document p !! id)) →
  steady I (createCelebrationEffect (Some id)).
Proof.
  intros Hpresent p Hp. unfold createCelebrationEffect, deref.
  apply wp_bind, wp_bind, wp_get. cbv beta.
  destruct (Hpresent p Hp) as [e He]. rewrite He. apply wp_ret.
  apply steady_update_present; [benign_tac|done|done].
Qed.

Lemma steady_disablePenguinInteraction id :
  (∀ p, I p → is_Some (document p !! id)) →
  steady I (disablePenguinInteraction (Some id)).
Proof.
  intros Hpresent. apply steady_update_present; [benign_tac|done].
Qed.

Lemma wp_sheet id text (k : Js unit) Q p :
  id = "penguinFeedbackStyle" ∨ id = "celebrationStyle" →
  I p → (∀ p', I p' → wp k Q (λ _ _, False) p') →
  wp (existing ← getElementById id;
      when (negb (bool_decide (is_Some existing)))
        (modify (λ p, set_document (<[id := styleSheet text]> (document p)) p));;
      k) Q (λ _ _, False) p.
Proof.
  intros Hid Hp Hk. unfold getElementById.
  apply wp_bind, wp_bind, wp_get. cbv beta.
  destruct (document p !! id) as [e|]; apply wp_ret, wp_bind; simpl.
  - apply wp_ret. by apply Hk.
  - apply wp_modify. apply Hk. frame_solve HI.
Qed.

Lemma steady_showPenguinFoundFeedback : steady I showPenguinFoundFeedback.
Proof.
  intros p Hp. unfold showPenguinFoundFeedback.
  apply wp_bind, wp_modify. apply wp_sheet; [auto|frame_solve HI|].
  intros p' Hp'. by apply steady_setTimeout.
Qed.

Lemma steady_showCompletionCelebration : steady I showCompletionCelebration.
Proof.
  intros p Hp. unfold showCompletionCelebration.
  apply wp_bind, wp_modify. apply wp_sheet; [auto|frame_solve HI|].
  intros p' Hp'. by apply steady_setTimeout.
Qed.

Lemma steady_revealSecretSection : steady I revealSecretSection.
Proof.
  intros p Hp. unfold revealSecretSection, getElementById.
  apply wp_bind, wp_bind, wp_get. cbv beta.
  destruct (document p !! "secretSection") as [e|] eqn:He; apply wp_ret; simpl.
  - apply (wp_steady (λ p, I p ∧ is_Some (document p !! "secretSection")));
      [|by eauto|by intros ? ? []].
    pose proof (frame_and _ _ HI (frame_present "secretSection")) as HI'.
    apply steady_bind; [|intros _; apply steady_bind; [|intros _]].
    + apply steady_update; [by intros ? []|].
      intros q e' Hq He'. by eapply (frame_element _ HI'); [..|benign_tac].
    + apply steady_update; [by intros ? []|].
      intros q e' Hq He'. by eapply (frame_element _ HI'); [..|benign_tac].
    + intros q Hq. unfold setTimeout. apply wp_modify.
      by eapply (frame_timers _ HI').
  - by apply steady_console_log.
Qed.

Lemma steady_runTask t :
  t ≠ TaskActivate → steady I (runTask t).
Proof.
  intros Ht. destruct t as [| |o|]; [done|..]; simpl.
  - apply steady_bind; [apply steady_showCompletionCelebration|intros _].
    apply steady_revealSecretSection.
  - apply steady_modify. intros p Hp. frame_solve HI.
  - apply steady_ret.
Qed.
End Cosmetic.
(** ** A click on a penguin *)

Lemma frame_clickStage skip t n : frame (clickStage skip t n).
Proof.
  unfold clickStage.
  repeat (apply frame_and;
    [first [apply frame_trackers|apply frame_noActivation|apply frame_gateClosed
           |apply frame_listenersOk|apply frame_completionSignals
           |apply frame_window]|]).
  apply frame_gateRefs.
Qed.

Lemma sheet_not_penguin id :
  id = "penguinFeedbackStyle" ∨ id = "celebrationStyle" → id ∉ universe.
Proof.
  intros [-> | ->]; apply (bool_decide_unpack _); by vm_compute.
Qed.

Lemma frame_ownListener id : id ∈ universe → frame (ownListener id).
Proof.
  intros Hid. split; try done; unfold ownListener; simpl.
  - intros p x e f (e0 & He0 & Hl) He Hf.
    destruct (decide (x = id)) as [->|Hne].
    + rewrite lookup_insert_eq. eexists. split; [done|].
      rewrite (proj1 (Hf e)). congruence.
    + rewrite lookup_insert_ne by done. eauto.
  - intros p x text (e0 & He0 & Hl) Hx.
    rewrite lookup_insert_ne; [eauto|].
    intros ->. by apply (sheet_not_penguin id).
Qed.

Lemma wp_tracker `{Json} this t Q E p :
  trackers p !! this = Some t → Q t p → wp (tracker this) Q E p.
Proof.
  intros Ht HQ. unfold tracker. apply wp_bind, wp_get. cbv beta. rewrite Ht.
  by apply wp_ret.
Qed.

Lemma trackerOk_room t id :
  trackerOk t → id ∈ universe → JStr id ∉ foundPenguins t →
  isComplete t = false ∧
  trackerOk (set_foundPenguins (JsSet.add (foundPenguins t) (JStr id)) t) ∧
  JsSet.add (foundPenguins t) (JStr id) = foundPenguins t ++ [JStr id].
Proof.
  intros (Hids & ids & Hfound & Hnd & Hsub) Hid Hnotin.
  assert (id ∉ ids) as Hnew.
  { intros Hin. apply Hnotin. rewrite Hfound. by apply list_elem_of_fmap_2. }
  assert (JsSet.add (foundPenguins t) (JStr id) = JStr <$> (ids ++ [id])) as Hadd.
  { rewrite Hfound, add_JStr_fmap. by rewrite bool_decide_eq_false_2. }
  split_and!.
  - unfold isComplete, JsSet.size. apply bool_decide_eq_false.
    rewrite Hids, Hfound, length_fmap.
    assert (id :: ids ⊆+ universe) as Hle.
    { apply NoDup_submseteq; [by apply NoDup_cons|].
      intros x [->|Hx]%elem_of_cons; auto. }
    apply submseteq_length in Hle. simpl in Hle. unfold universe in *. simpl in *. lia.
  - split; [done|]. exists (ids ++ [id]). simpl. split_and!; [done| |].
    + apply NoDup_app. split_and!; [done| |apply NoDup_singleton].
      by intros x Hx ->%list_elem_of_singleton.
    + intros x [Hx| ->%list_elem_of_singleton]%elem_of_app; auto.
  - rewrite Hadd, Hfound. by rewrite fmap_app.
Qed.

Lemma frame_noListener id : frame (noListener id).
Proof.
  split; try done; unfold noListener; simpl.
  - intros p x e f (e0 & He0 & Hl) He Hf.
    destruct (decide (x = id)) as [->|Hne].
    + rewrite lookup_insert_eq. eexists. split; [done|].
      rewrite (proj1 (Hf e)). congruence.
    + rewrite lookup_insert_ne by done. eauto.
  - intros p x text (e0 & He0 & Hl) Hx.
    destruct (decide (x = id)) as [->|Hne].
    + rewrite lookup_insert_eq. eauto.
    + rewrite lookup_insert_ne by done. eauto.
Qed.

Lemma listenerOk_found_grows t t' x l id :
  x ≠ id → penguinHandlers t' = penguinHandlers t →
  foundPenguins t' = foundPenguins t ++ [JStr id] →
  listenerOk [t] x l → listenerOk [t'] x l.
Proof.
  intros Hne Hh Hf. destruct l as [| |this y]; simpl; [done..|].
  intros (-> & -> & Hx & t0 & [= <-] & Hl & Hnotin).
  split_and!; [done..|]. exists t'. split_and!; [done|by rewrite Hh|].
  rewrite Hf, not_elem_of_app, list_elem_of_singleton. split; [done|congruence].
Qed.

Lemma listenerOk_handler_deleted t t' x l id :
  x ≠ id → penguinHandlers t' = delete id (penguinHandlers t) →
  foundPenguins t' = foundPenguins t →
  listenerOk [t] x l → listenerOk [t'] x l.
Proof.
  intros Hne Hh Hf. destruct l as [| |this y]; simpl; [done..|].
  intros (-> & -> & Hx & t0 & [= <-] & Hl & Hnotin).
  split_and!; [done..|]. exists t'. split_and!; [done| |by rewrite Hf].
  by rewrite Hh, lookup_delete_ne.
Qed.

Section Click.
Context `{Json}.

(** A click that reaches the listener of a penguin which is not found yet:
    the handler runs to its end, the penguin is found, its listener is
    gone, and completion is signalled exactly if the set is now full. *)
Lemma handlePenguinClick_active p id t :
  clickStage None t (if isComplete t then 1 else 0) p → trackerOk t →
  ownListener id p →
  wp (handlePenguinClick 0 id)
     (λ _ p', ∃ t', clickStage None t' (if isComplete t' then 1 else 0) p' ∧
                    trackerOk t' ∧ noListener id p' ∧
                    foundPenguins t' = foundPenguins t ++ [JStr id])
     (λ _ _, False) p.
Proof.
  intros Hstage Htok Hown.
  pose proof Hstage as (Hts & Hna & Hgc & Hlok & Hsig & Hwin & Hrefs).
  pose proof Hown as (e & He & Hl).
  destruct (Hlok id e He) as [Hnil|(l & Hl' & Hok)]; [done|congruence|].
  assert (l = OnPenguin 0 id) as -> by congruence.
  rewrite Hts in Hok.
  destruct Hok as (_ & _ & Hid & t0 & [= <-] & Hhandler & Hnotin).
  destruct (trackerOk_room t id Htok Hid Hnotin) as (Hincomplete & Htok1 & Hadd).
  rewrite Hincomplete in *.
  set (t1 := set_foundPenguins (JsSet.add (foundPenguins t) (JStr id)) t) in *.
  set (I1 := λ q, clickStage (Some id) t1 0 q ∧ ownListener id q).
  assert (frame I1) as HI1
    by (apply frame_and; [apply frame_clickStage|by apply frame_ownListener]).
  unfold handlePenguinClick.
  apply (wp_seq _ _ (λ _, I1)).
  { unfold update_tracker. apply wp_modify. split; [|done].
    unfold clickStage. simpl. rewrite Hts. split_and!; try done.
    intros x e' He' Hx.
    destruct (Hlok x e' He') as [?|(l & ? & Hokl)]; [done|by left|right].
    exists l. split; [done|]. rewrite Hts in Hokl.
    eapply (listenerOk_found_grows t t1 x l id); [congruence|done|done|done]. }
  intros _ p1 Hp1.
  apply (wp_seq _ _ (λ _, I1)); [by apply steady_saveProgress|].
  intros _ p2 Hp2.
  apply wp_bind, (wp_tracker 0 t1); [by destruct Hp2 as [(-> & _) _]|].
  apply (wp_seq _ _ (λ _, I1)); [by apply steady_console_log|].
  intros _ p3 Hp3.
  apply wp_bind, getElementById_present;
    [by destruct Hp3 as [_ (? & -> & _)]|].
  apply (wp_seq _ _ (λ _, I1)).
  { apply steady_createCelebrationEffect; [done| |done].
    by intros q [_ (? & -> & _)]. }
  intros _ p4 Hp4.
  apply wp_bind, (wp_tracker 0 t1); [by destruct Hp4 as [(-> & _) _]|].
  change (penguinHandlers t1) with (penguinHandlers t). rewrite Hhandler.
  set (t2 := set_penguinHandlers (delete id (penguinHandlers t)) t1).
  set (I3 := λ q, clickStage None t2 0 q ∧ noListener id q).
  assert (frame I3) as HI3
    by (apply frame_and; [apply frame_clickStage|apply frame_noListener]).
  apply (wp_seq _ _ (λ _, I3)).
  { destruct Hp4 as [(Hts4 & Hna4 & Hgc4 & Hlok4 & Hsig4 & Hwin4 & Hrefs4)
                       (e4 & He4 & Hl4)].
    apply wp_bind. unfold update, deref. apply wp_bind, wp_bind, wp_get. cbv beta.
    rewrite He4. apply wp_ret, wp_modify. unfold update_tracker. apply wp_modify.
    assert (clickListeners (removeEventListener (OnPenguin 0 id) e4) = []) as Hgone.
    { unfold removeEventListener. simpl. rewrite Hl4.
      rewrite filter_cons_False by (intros Hne; by apply Hne). done. }
    split.
    - unfold clickStage. simpl. rewrite Hts4. split_and!; try done.
      + destruct Hgc4 as (es & Hes & Hcss). unfold gateClosed. simpl.
        destruct (decide (id = "introSection")) as [->|Hne].
        * rewrite lookup_insert_eq. eexists. split; [done|].
          assert (es = e4) as -> by congruence. done.
        * rewrite lookup_insert_ne by done. eauto.
      + intros x e' He' _. simpl in He'.
        destruct (decide (id = x)) as [->|Hne].
        * rewrite lookup_insert_eq in He'. injection He' as <-. by left.
        * rewrite lookup_insert_ne in He' by done.
          destruct (Hlok4 x e' He') as [?|(l & ? & Hokl)];
            [congruence|by left|right].
          exists l. split; [done|]. rewrite Hts4 in Hokl.
          eapply (listenerOk_handler_deleted t1 t2 x l id); [congruence|done..].
    - unfold noListener. simpl. rewrite lookup_insert_eq. eauto. }
  intros _ p5 Hp5.
  apply (wp_seq _ _ (λ _, I3)).
  { apply steady_disablePenguinInteraction; [done| |done].
    by intros q [_ (? & -> & _)]. }
  intros _ p6 Hp6.
  apply (wp_seq _ _ (λ _, I3)).
  { apply steady_updateDisplay; [done| |done].
    by intros q [(-> & _) _]. }
  intros _ p7 Hp7.
  apply (wp_seq _ _ (λ _, I3)); [by apply steady_showPenguinFoundFeedback|].
  intros _ p8 Hp8.
  unfold checkForCompletion.
  apply wp_bind, (wp_tracker 0 t2); [by destruct Hp8 as [(-> & _) _]|].
  apply (wp_seq _ _ (λ _, I3)); [by apply steady_console_log|].
  intros _ p9 [Hstage9 Hnone9].
  assert (trackerOk t2) as Htok2 by done.
  assert (foundPenguins t2 = foundPenguins t ++ [JStr id]) as Hfound2 by done.
  apply wp_when. fold (isComplete t2).
  destruct (isComplete t2) eqn:Hcomplete.
  - unfold console_log, allPenguinsFound, setTimeout.
    apply wp_bind, wp_modify, wp_modify.
    exists t2. rewrite Hcomplete. split_and!; [|done| |done].
    + destruct Hstage9 as (Hts9 & Hna9 & Hgc9 & Hlok9 & Hsig9 & Hwin9 & Hrefs9).
      unfold clickStage. simpl. split_and!; try done.
      * intros d. simpl. rewrite elem_of_app, list_elem_of_singleton.
        intros [Hin|[= _]]. by eapply Hna9.
      * unfold completionSignals in *. simpl.
        rewrite filter_app, length_app, Hsig9. done.
    + done.
  - exists t2. rewrite Hcomplete. by split_and!.
Qed.
End Click.
(** ** The stages of a session *)

Lemma keepsListeners_style_set prop v : keepsListeners (style_set prop v).
Proof. done. Qed.
Lemma keepsListeners_benign f : benign f → keepsListeners f.
Proof. intros Hf e. apply Hf. Qed.

Ltac keepsListeners_tac :=
  first [ apply keepsListeners_style_set
        | apply keepsListeners_benign; benign_tac ].

Lemma keepsClosed_style_set prop v :
  prop ≠ "visibility" → keepsClosed (style_set prop v).
Proof.
  intros Hne e He. rewrite css_is_style_set. by rewrite bool_decide_eq_false_2.
Qed.
Lemma keepsClosed_benign f : benign f → keepsClosed f.
Proof. intros Hf e He. by rewrite css_is_benign. Qed.

Lemma listenersOk_update skip p id e f :
  keepsListeners f → listenersOk skip p → document p !! id = Some e →
  listenersOk skip (set_document (<[id := f e]> (document p)) p).
Proof.
  intros Hf Hp He x e'. simpl.
  destruct (decide (id = x)) as [->|Hne].
  - rewrite lookup_insert_eq. intros [= <-] Hskip. rewrite Hf. by eapply Hp.
  - rewrite lookup_insert_ne by done. apply Hp.
Qed.

Lemma gateStage_ext ts p q :
  trackers q = trackers p → timers q = timers p →
  localStorage q = localStorage p → console q = console p →
  document q = document p → window_penguinTracker q = window_penguinTracker p →
  introHandler q = introHandler p → gateStage ts p → gateStage ts q.
Proof.
  unfold gateStage, storedProgress, completionSignals, listenersOk, gateRefs.
  by intros -> -> -> -> -> -> ->.
Qed.

Lemma gateStage_update ts p id e f :
  keepsListeners f → gateStage ts p → document p !! id = Some e →
  gateStage ts (set_document (<[id := f e]> (document p)) p).
Proof.
  intros Hf (? & ? & ? & ? & Hl & ? & ?) He.
  split_and!; [done..|by apply listenersOk_update|done|done].
Qed.

Lemma gateClosed_update p id e f :
  keepsClosed f → gateClosed p → document p !! id = Some e →
  gateClosed (set_document (<[id := f e]> (document p)) p).
Proof.
  intros Hf (es & Hes & Hcss) He. unfold gateClosed. simpl.
  destruct (decide (id = "introSection")) as [->|Hne].
  - rewrite lookup_insert_eq. eexists. split; [done|].
    apply Hf. congruence.
  - rewrite lookup_insert_ne by done. eauto.
Qed.

Lemma gateStage_intro ts p f :
  (∀ h, introSection (f h) = introSection h) → gateStage ts p →
  gateStage ts (set_introHandler (f <$> introHandler p) p).
Proof.
  intros Hf (? & ? & ? & ? & ? & ? & Hrefs). split_and!; [done..|].
  intros h. simpl. destruct (introHandler p) as [h0|] eqn:Hh; simpl; [|done].
  intros [= <-]. rewrite Hf. by apply Hrefs.
Qed.

Lemma wp_update ref f Q E p :
  (∀ id e, ref = Some id → document p !! id = Some e →
     Q tt (set_document (<[id := f e]> (document p)) p)) →
  E TypeError p → wp (update ref f) Q E p.
Proof.
  intros HQ HE. unfold update, deref. destruct ref as [id|]; [|done].
  apply wp_bind, wp_bind, wp_get. cbv beta.
  destruct (document p !! id) as [e|] eqn:He; [|done].
  apply wp_ret, wp_modify. by eapply HQ.
Qed.

Lemma wp_cases {A} (m : Js A) (Q E : Page → Prop) p :
  wp m (λ _, Q) (λ _, E) p → Q (exec m p) ∨ E (exec m p).
Proof. unfold wp, exec. destruct (m p) as [[a|e] p']; auto. Qed.

Section Stages.
Context `{Json}.

(** Declining changes the gate's controls and the handler's counters. *)
Lemma handleNo_gateStage ts : keeps (gateStage ts) handleNo.
Proof.
  keeps_auto;
    first [ by apply gateStage_intro
          | by eapply gateStage_update; [keepsListeners_tac|..]
          | done ].
Qed.

(** Accepting hides the intro section and schedules the activation; if an
    element it needs is missing, the handler stops with a [TypeError] and
    the gate stays as it is. *)
Lemma handleYes_gateStage ts p :
  gateStage ts p →
  wp handleYes (λ _ p', gateStage (ts ++ [(100, TaskActivate)]) p' ∧ gateClosed p')
     (λ _, gateStage ts) p.
Proof.
  intros Hp. unfold handleYes, intro.
  apply wp_bind, wp_bind, wp_get. cbv beta.
  destruct (introHandler p) as [h|] eqn:Hh; [apply wp_ret|by apply wp_throw].
  assert (introSection h = None ∨ introSection h = Some "introSection") as Href
    by (by apply Hp).
  apply wp_bind, wp_update; [|done]. intros id e Hid He.
  assert (id = "introSection") as -> by (destruct Href; congruence).
  match goal with |- wp _ _ _ ?q => set (p1 := q) end.
  assert (gateStage ts p1) as Hp1 by (by apply gateStage_update).
  apply wp_bind, wp_update; [|done]. intros id e1 Hid1 He1.
  assert (id = "introSection") as -> by congruence.
  match goal with |- wp _ _ _ ?q => set (p2 := q) end.
  assert (gateStage ts p2) as Hp2 by (by apply gateStage_update).
  assert (gateClosed p2) as Hc2.
  { eexists. split; [apply lookup_insert_eq|]. by rewrite css_is_style_set. }
  apply wp_bind, wp_update; [|done]. intros id e2 Hid2 He2.
  match goal with |- wp _ _ _ ?q => set (p3 := q) end.
  assert (gateStage ts p3) as Hp3 by (by apply gateStage_update).
  assert (gateClosed p3) as Hc3
    by (by apply gateClosed_update; [apply keepsClosed_style_set|..]).
  apply wp_bind, wp_modify.
  match goal with |- wp _ _ _ ?q => set (p4 := q) end.
  assert (gateStage ts p4) as Hp4 by (by apply (gateStage_ext _ p3)).
  assert (gateClosed p4) as Hc4 by done.
  apply wp_bind, wp_update; [|done]. intros id3 e3 Hid3 He3.
  match goal with |- wp _ _ _ ?q => set (p5 := q) end.
  assert (gateStage ts p5) as Hp5
    by (by apply gateStage_update; [keepsListeners_tac|..]).
  assert (gateClosed p5) as Hc5
    by (by apply gateClosed_update; [apply keepsClosed_benign; benign_tac|..]).
  clearbody p5. unfold setTimeout. apply wp_modify. split; [|done].
  destruct Hp5 as (? & Ht & ? & ? & ? & ? & ?).
  split_and!; try done. simpl. by rewrite Ht.
Qed.

Lemma handleYes_gateUp p :
  gateUp p → wp handleYes (λ _, activationPending) (λ _, gateUp) p.
Proof. apply (handleYes_gateStage []). Qed.

End Stages.
(** ** Activation *)

Lemma steady_forEach {A} (I : Page → Prop) (l : list A) (f : A → Js unit) :
  (∀ x, x ∈ l → steady I (f x)) → steady I (forEach l f).
Proof.
  induction l as [|x l IH]; simpl; intros Hf; [apply steady_ret|].
  apply steady_bind; [apply Hf; by left|intros _].
  apply IH. intros y Hy. apply Hf. by right.
Qed.

Lemma universe_not_gate x :
  x ∈ universe → x ≠ "introSection" ∧ x ≠ "btnYes" ∧ x ≠ "btnNo".
Proof.
  intros Hx. split_and!; intros ->; revert Hx;
    apply (bool_decide_unpack _); by vm_compute.
Qed.

Lemma clickStage_ext skip t n p q :
  trackers q = trackers p → timers q = timers p → console q = console p →
  document q = document p → window_penguinTracker q = window_penguinTracker p →
  introHandler q = introHandler p → clickStage skip t n p → clickStage skip t n q.
Proof.
  unfold clickStage, noActivation, gateClosed, completionSignals, listenersOk, gateRefs.
  by intros -> -> -> -> -> ->.
Qed.

(** Before activation the only listeners are the gate's. *)
Lemma listenerOk_gate ts id l : listenerOk [] id l → listenerOk ts id l.
Proof. destruct l; simpl; [done..|]. by intros (_ & _ & _ & t & ? & _). Qed.

Section Activation.
Context `{Json}.

(** The loop of [initPenguins] on a tracker that has found nothing: each
    penguin present in the document gets its listener. *)
Lemma initPenguins_fresh : steady freshTracker (initPenguins 0).
Proof.
  intros p (t & Hstage & Hids & Hfound). unfold initPenguins.
  apply wp_bind, (wp_tracker 0 t); [by destruct Hstage as (-> & _)|].
  rewrite Hids. apply steady_forEach; [|by exists t].
  clear p t Hstage Hids Hfound. intros x Hx p (t & Hstage & Hids & Hfound). cbv beta.
  destruct (universe_not_gate x Hx) as (Hx1 & Hx2 & Hx3).
  destruct Hstage as (Hts & Hna & Hgc & Hlok & Hsig & Hwin & Hrefs).
  unfold getElementById. apply wp_bind, wp_bind, wp_get. cbv beta.
  destruct (document p !! x) as [e|] eqn:He; apply wp_ret; simpl;
    [|by exists t].
  apply wp_bind, (wp_tracker 0 t); [by rewrite Hts|].
  rewrite Hfound. simpl.
  apply wp_bind. unfold update_tracker. apply wp_modify.
  unfold update, deref. apply wp_bind, wp_bind, wp_get. cbv beta. simpl.
  rewrite He. apply wp_ret, wp_modify.
  set (h := OnPenguin 0 x).
  set (t' := set_penguinHandlers (<[x := h]> (penguinHandlers t)) t).
  exists t'. split; [|done].
  unfold clickStage. simpl. rewrite Hts. split_and!; try done.
  - destruct Hgc as (es & Hes & Hcss). exists es. simpl.
    by rewrite lookup_insert_ne.
  - intros y e' He' _. simpl in He'.
    assert (listenerOk [t'] x h) as Hh.
    { split_and!; [done..|]. exists t'. split_and!; [done| |].
      - apply lookup_insert_eq.
      - simpl. rewrite Hfound. apply not_elem_of_nil. }
    destruct (decide (x = y)) as [<-|Hne].
    + rewrite lookup_insert_eq in He'. injection He' as <-.
      unfold addEventListener.
      destruct (Hlok x e He) as [Hnil|(l & Hl & Hok)]; [done| |].
      * rewrite Hnil. simpl. right. by exists h.
      * rewrite Hl. rewrite Hts in Hok.
        destruct l as [| |this z]; simpl in Hok; [done..|].
        destruct Hok as (-> & -> & _). fold h.
        rewrite bool_decide_eq_true_2 by apply list_elem_of_here.
        right. by exists h.
    + rewrite lookup_insert_ne in He' by done.
      destruct (Hlok y e' He') as [?|(l & Hl & Hok)]; [done|by left|right].
      exists l. split; [done|]. rewrite Hts in Hok.
      destruct l as [| |this z]; simpl in *; [done..|].
      destruct Hok as (-> & -> & Hy & t0 & [= <-] & Hl0 & Hnotin).
      split_and!; [done..|]. exists t'. split_and!; [done| |done].
      simpl. by rewrite lookup_insert_ne.
Qed.

(** The timer of [handleYes]: the tracker is constructed on a cleared
    store, so it starts from the empty set, and the penguins are wired. *)
Lemma activation_fresh p :
  gateUp p → gateClosed p →
  wp activation (λ _ p', ∃ t, trackerActive t p' ∧ foundPenguins t = [])
     (λ _ _, False) p.
Proof.
  intros Hp Hc. unfold activation, observeElements.
  apply wp_bind, wp_modify, wp_bind, wp_modify, wp_bind, wp_modify.
  match goal with |- wp _ _ _ ?q => set (p3 := q) end.
  assert (gateUp p3 ∧ gateClosed p3) as [Hp3 Hc3].
  { destruct Hp as (? & ? & ? & ? & Hlok & ? & ?). split.
    - split_and!; try done.
      intros x e'. simpl. rewrite lookup_fmap.
      intros (e & He & ->)%fmap_Some Hskip.
      assert (∀ e0 : Element, clickListeners
                (if bool_decide ("penguin-container" ∈ classList e0)
                 then classList_add "visible" e0 else e0) = clickListeners e0) as ->.
      { intros e0. case_bool_decide; [|done]. apply benign_classList_add. }
      by apply Hlok.
    - destruct Hc as (es & Hes & Hcss). unfold gateClosed. simpl.
      rewrite lookup_fmap, Hes. simpl. eexists. split; [done|].
      case_bool_decide; [|done]. by rewrite css_is_benign by benign_tac. }
  clearbody p3. clear Hp Hc p.
  unfold activatePenguins, new_PenguinTracker.
  apply wp_bind, wp_bind, wp_get. cbv beta.
  destruct Hp3 as (Hts & Htm & Hstored & Hsig & Hlok & Hwin & Hrefs).
  rewrite Hts. simpl.
  apply wp_bind, wp_modify.
  match goal with |- wp _ _ _ ?q => set (p4 := q) end.
  apply wp_bind. eapply wp_mono; [apply loadProgress_wp| |done].
  intros s p5 [-> Hp5]. cbv beta.
  rewrite (loaded_None p4) by exact Hstored.
  apply wp_bind. unfold update_tracker. apply wp_modify.
  match goal with |- wp _ _ _ ?q => set (p6 := q) end.
  assert (freshTracker p6) as Hp6.
  { exists {| penguinIds := universe; penguinHandlers := ∅;
               foundPenguins := JsSet.empty |}.
    split; [|done].
    assert (trackers p5 = trackers p4 ∧ timers p5 = timers p4 ∧
            document p5 = document p4 ∧
            window_penguinTracker p5 = window_penguinTracker p4 ∧
            introHandler p5 = introHandler p4 ∧
            completionSignals p5 = completionSignals p4)
      as (Hts5 & Htm5 & Hdoc5 & Hwin5 & Hih5 & Hsig5).
    { destruct Hp5 as [->|[e ->]]; [done|]. split_and!; try done.
      unfold completionSignals. simpl. rewrite filter_app.
      rewrite filter_cons_False by done. by rewrite app_nil_r. }
    unfold p4 in *. simpl in *. rewrite Hts in Hts5. simpl in Hts5.
    unfold clickStage, p6, noActivation, gateClosed, gateRefs. simpl.
    rewrite Hts5, Htm5, Hdoc5, Hwin5, Hih5, Htm. simpl.
    split_and!; try done.
    + intros d. apply not_elem_of_nil.
    + intros x e. simpl. rewrite Hdoc5. intros He Hskip.
      destruct (Hlok x e He Hskip) as [?|(l & ? & Hok)]; [by left|right].
      exists l. split; [done|]. apply listenerOk_gate. by rewrite Hts in Hok.
    + change (completionSignals p5 = 0). by rewrite Hsig5. }
  clearbody p6.
  apply (wp_seq _ _ (λ _, freshTracker)); [by apply initPenguins_fresh|].
  intros _ p7 (t & Hst & Hids & Hfound).
  apply (wp_seq _ _ (λ _, clickStage None t 0)).
  { apply steady_updateDisplay; [apply frame_clickStage| |done].
    intros q (-> & _). by eexists. }
  intros _ p8 Hst8. apply wp_ret, wp_modify.
  exists t. split; [|done]. split.
  - split; [done|]. exists []. rewrite Hfound. split_and!; [done|constructor|].
    apply list_subseteq_nil.
  - unfold isComplete. rewrite Hfound, Hids. simpl.
    by apply (clickStage_ext _ _ _ p8).
Qed.

End Activation.
(** ** Events *)

Section Steps.
Context `{Json} (container : Nesting).

(** Once the intro section is hidden, the controls inside it take no
    input. *)
Lemma gate_out_of_reach how p id :
  gateNested container → gateClosed p → id = "btnYes" ∨ id = "btnNo" →
  receives container how p id = false.
Proof.
  intros [Hyes Hno] (es & Hes & Hcss) Hid. unfold receives.
  destruct (document p !! id) as [e|]; [|done].
  assert (container id = Some "introSection") as -> by (by destruct Hid as [-> | ->]).
  simpl. rewrite Hes. unfold takes at 2. rewrite Hcss. simpl.
  by rewrite andb_false_r, andb_false_l, andb_false_r.
Qed.

Lemma dispatchClick_none id p e :
  document p !! id = Some e → clickListeners e = [] → dispatchClick id p = p.
Proof. intros He Hl. unfold dispatchClick. by rewrite He, Hl. Qed.

Lemma dispatchClick_one id p e l :
  document p !! id = Some e → clickListeners e = [l] →
  dispatchClick id p = exec (runListener l) p.
Proof.
  intros He Hl. unfold dispatchClick. rewrite He, Hl. simpl. rewrite He, Hl.
  by rewrite bool_decide_eq_true_2 by apply list_elem_of_here.
Qed.

Lemma exec_console_reset p :
  window_penguinTracker p = None → exec console_reset p = p.
Proof.
  intros Hw. unfold console_reset, exec, mbind, Js_bind, get. by rewrite Hw.
Qed.

(** While the gate is up, an event leaves it up, or accepts it. *)
Lemma step_gateUp p ev :
  gateUp p → gateUp (step container p ev) ∨ activationPending (step container p ev).
Proof.
  intros Hp. pose proof Hp as (Hts & Htm & _ & _ & Hlok & Hwin & _).
  destruct ev as [how id|k|]; simpl.
  - destruct (receives container how p id); [|by left].
    destruct (document p !! id) as [e|] eqn:He;
      [|unfold dispatchClick; rewrite He; by left].
    destruct (Hlok id e He) as [Hnil|(l & Hl & Hok)]; [done| |].
    { rewrite (dispatchClick_none id p e); auto. }
    rewrite (dispatchClick_one id p e l) by done.
    destruct l as [| |this x]; simpl.
    + destruct (wp_cases _ _ _ _ (handleYes_gateUp p Hp)); auto.
    + left. by apply keeps_exec; [apply handleNo_gateStage|].
    + rewrite Hts in Hok. by destruct Hok as (_ & _ & _ & t & ? & _).
  - rewrite Htm. by left.
  - rewrite exec_console_reset by done. by left.
Qed.

(** After the gate was accepted, the one event that has an effect is the
    activation timer; it constructs the tracker, with nothing found. *)
Lemma step_pending p ev :
  gateNested container → activationPending p →
  step container p ev = p ∨ ∃ t, trackerActive t (step container p ev) ∧ foundPenguins t = [].
Proof.
  intros Hnest [Hp Hc].
  pose proof Hp as (Hts & Htm & Hst & Hsig & Hlok & Hwin & Href).
  destruct ev as [how id|k|]; simpl.
  - destruct (receives container how p id) eqn:Hr; [|by left]. left.
    destruct (document p !! id) as [e|] eqn:He;
      [|unfold dispatchClick; by rewrite He].
    destruct (Hlok id e He) as [Hnil|(l & Hl & Hok)]; [done| |].
    { by rewrite (dispatchClick_none id p e). }
    rewrite Hts in Hok.
    destruct l as [| |this x]; simpl in Hok.
    + rewrite gate_out_of_reach in Hr by auto. done.
    + rewrite gate_out_of_reach in Hr by auto. done.
    + by destruct Hok as (_ & _ & _ & t & ? & _).
  - rewrite Htm. destruct k as [|k]; simpl; [right|by left].
    set (q := set_timers [] p).
    assert (gateUp q) as Hq by done.
    destruct (wp_nothrow _ _ _ (activation_fresh q Hq Hc)) as (_ & _ & HQ).
    done.
  - rewrite exec_console_reset by done. by left.
Qed.

(** With the tracker active, an event leaves the tracker as it is, or it
    is a click on a penguin not found yet, which is then found. *)
Lemma step_active t p ev :
  gateNested container → trackerActive t p →
  trackerActive t (step container p ev) ∨
  ∃ how id t', ev = Activate how id ∧ id ∈ universe ∧
               (JStr id ∉ foundPenguins t) ∧
               foundPenguins t' = foundPenguins t ++ [JStr id] ∧
               trackerActive t' (step container p ev).
Proof.
  intros Hnest [Htok Hstage].
  pose proof Hstage as (Hts & Hna & Hgc & Hlok & Hsig & Hwin & Hrefs).
  destruct ev as [how id|k|]; simpl.
  - destruct (receives container how p id) eqn:Hr; [|by left].
    destruct (document p !! id) as [e|] eqn:He;
      [|unfold dispatchClick; rewrite He; by left].
    destruct (Hlok id e He) as [Hnil|(l & Hl & Hok)]; [done| |].
    { rewrite (dispatchClick_none id p e) by done. by left. }
    rewrite Hts in Hok.
    destruct l as [| |this x]; simpl in Hok.
    + rewrite gate_out_of_reach in Hr by auto. done.
    + rewrite gate_out_of_reach in Hr by auto. done.
    + destruct Hok as (-> & -> & Hid & t0 & [= <-] & Hh & Hnotin).
      rewrite (dispatchClick_one id p e (OnPenguin 0 id)) by done. simpl.
      assert (ownListener id p) as Hown by (by exists e).
      destruct (wp_nothrow _ _ _ (handlePenguinClick_active p id t Hstage Htok Hown))
        as (_ & _ & t' & Hstage' & Htok' & _ & Hfound').
      right. exists how, id, t'. by split_and!.
  - destruct (timers p !! k) as [[d task]|] eqn:Hk; [|by left]. left.
    assert (task ≠ TaskActivate) as Htask.
    { intros ->. apply (Hna d). by eapply list_elem_of_lookup_2. }
    split; [done|].
    set (q := set_timers (delete k (timers p)) p).
    assert (clickStage None t (if isComplete t then 1 else 0) q) as Hq
      by (by apply (frame_timer_gone _ (frame_clickStage _ _ _))).
    destruct (wp_nothrow _ _ _
      (steady_runTask _ (frame_clickStage _ _ _) task Htask q Hq)) as (_ & _ & HQ).
    done.
  - rewrite exec_console_reset by done. by left.
Qed.

Lemma sessionInv_step p ev :
  gateNested container → sessionInv p → sessionInv (step container p ev).
Proof.
  intros Hnest [Hp|[Hp|[t Hp]]].
  - destruct (step_gateUp p ev Hp); [by left|by right; left].
  - destruct (step_pending p ev Hnest Hp) as [->|(t & Ht & _)];
      [by right; left|right; right; by exists t].
  - right; right.
    destruct (step_active t p ev Hnest Hp) as [?|(_ & _ & t' & _ & _ & _ & _ & ?)];
      eauto.
Qed.

Lemma sessionInv_run evs p :
  gateNested container → sessionInv p → sessionInv (run container evs p).
Proof.
  intros Hnest. unfold run. revert p.
  induction evs as [|ev evs IH]; intros p Hp; simpl; [done|].
  by apply IH, sessionInv_step.
Qed.

(** Until the tracker is constructed nothing writes the store, whatever
    the nesting of the markup: an event leaves the page without a tracker,
    or it is an activation, and the tracker it constructs loads the empty
    set. *)
Lemma activation_first ts p :
  gateStage ts p →
  ∃ t, trackers (exec activation p) = [t] ∧ foundPenguins t = JsSet.empty.
Proof.
  intros (Hts & _ & Hst & _). unfold activation, observeElements.
  rewrite !exec_bind_modify.
  match goal with |- context [exec activatePenguins ?q] =>
    pose proof (activatePenguins_fresh q Hts Hst) as Hheap end.
  apply heapView_singleton in Hheap as (t & Ht & _ & Hf). by exists t.
Qed.

Lemma step_beforeTracker p ev :
  beforeTracker p →
  beforeTracker (step container p ev) ∨
  ∃ t, trackers (step container p ev) = [t] ∧ foundPenguins t = JsSet.empty.
Proof.
  intros (ts & Hp & Hall).
  pose proof Hp as (Hts & Htm & _ & _ & Hlok & Hwin & _).
  assert (beforeTracker p) as Hbefore by (by exists ts).
  destruct ev as [how id|k|]; simpl.
  - destruct (receives container how p id); [|by left].
    destruct (document p !! id) as [e|] eqn:He;
      [|unfold dispatchClick; rewrite He; by left].
    destruct (Hlok id e He) as [Hnil|(l & Hl & Hok)]; [done| |].
    { rewrite (dispatchClick_none id p e); auto. }
    rewrite (dispatchClick_one id p e l) by done. left.
    destruct l as [| |this x]; simpl.
    + destruct (wp_cases _ _ _ _ (handleYes_gateStage ts p Hp)) as [[Hq _]|Hq].
      * eexists. split; [done|]. apply Forall_app. split; [done|].
        by apply Forall_singleton.
      * by exists ts.
    + exists ts. split; [|done]. by apply keeps_exec; [apply handleNo_gateStage|].
    + rewrite Hts in Hok. by destruct Hok as (_ & _ & _ & t & ? & _).
  - rewrite Htm. destruct (ts !! k) as [[d task]|] eqn:Hk; [|by left]. right.
    rewrite Forall_lookup in Hall. specialize (Hall k _ Hk). simpl in Hall.
    subst task. simpl. apply (activation_first (delete k ts)).
    destruct Hp as (? & ? & ? & ? & ? & ? & ?). by split_and!.
  - rewrite exec_console_reset by done. by left.
Qed.

Lemma alter_not_nil {A} (f : A → A) i (l : list A) : l ≠ [] → alter f i l ≠ [].
Proof. destruct l; [done|]. by destruct i. Qed.

Ltac tracker_goal :=
  first [ done | by apply alter_not_nil | by intros [_ ?]%app_eq_nil ].

Lemma keeps_runListener_tracker l :
  keeps (λ p, trackers p ≠ []) (runListener l).
Proof.
  destruct l; keeps_auto; simpl; tracker_goal.
Qed.

Lemma keeps_runTask_tracker t :
  keeps (λ p, trackers p ≠ []) (runTask t).
Proof.
  destruct t; keeps_auto; simpl; tracker_goal.
Qed.

Lemma step_keeps_tracker p ev :
  trackers p ≠ [] → trackers (step container p ev) ≠ [].
Proof.
  intros Hp. destruct ev as [how id|k|]; simpl.
  - destruct (receives container how p id); [|done].
    apply (dispatchClick_keeps (λ p, trackers p ≠ [])); [|done].
    apply keeps_runListener_tracker.
  - destruct (timers p !! k) as [[d t]|]; [|done].
    by apply (keeps_exec (λ p, trackers p ≠ []));
      [apply keeps_runTask_tracker|].
  - apply (keeps_exec (λ p, trackers p ≠ [])); [|done].
    keeps_auto; simpl; tracker_goal.
Qed.

Lemma run_beforeTracker evs p :
  beforeTracker p ∨ trackers p ≠ [] →
  beforeTracker (run container evs p) ∨ trackers (run container evs p) ≠ [].
Proof.
  unfold run. revert p.
  induction evs as [|ev evs IH]; intros p Hp; simpl; [done|].
  apply IH. destruct Hp as [Hp|Hp].
  - destruct (step_beforeTracker p ev Hp) as [?|(t & -> & _)]; [by left|by right].
  - right. by apply step_keeps_tracker.
Qed.

End Steps.
(** ** The page after loading *)

Lemma wp_getElementById id Q E p :
  (∀ r, r = None ∨ (r = Some id ∧ is_Some (document p !! id)) → Q r p) →
  wp (getElementById id) Q E p.
Proof.
  intros HQ. unfold getElementById. apply wp_bind, wp_get. cbv beta.
  apply wp_ret. destruct (document p !! id) eqn:He; apply HQ; eauto.
Qed.

(** Registering a listener of the gate on its control. *)
Lemma gateStage_addGate ts p id e l :
  (l = OnYes ∧ id = "btnYes") ∨ (l = OnNo ∧ id = "btnNo") →
  gateStage ts p → document p !! id = Some e →
  gateStage ts (set_document (<[id := addEventListener l e]> (document p)) p).
Proof.
  intros Hl (Hts & ? & ? & ? & Hlok & ? & ?) He.
  split_and!; [done..| |done|done].
  intros x e'. simpl. rewrite Hts.
  destruct (decide (id = x)) as [<-|Hne].
  - rewrite lookup_insert_eq. intros [= <-] _. right. unfold addEventListener.
    destruct (Hlok id e He) as [Hnil|(l0 & Hl0 & Hok)]; [done| |].
    + rewrite Hnil. simpl. exists l. split; [done|].
      by destruct Hl as [[-> ->]|[-> ->]].
    + rewrite Hl0. rewrite Hts in Hok. exists l0.
      destruct l0 as [| |this y]; simpl in Hok.
      * destruct Hl as [[-> _]|[_ ->]]; [|done].
        by rewrite bool_decide_eq_true_2 by apply list_elem_of_here.
      * destruct Hl as [[_ ->]|[-> _]]; [done|].
        by rewrite bool_decide_eq_true_2 by apply list_elem_of_here.
      * by destruct Hok as (_ & _ & _ & t & ? & _).
  - rewrite lookup_insert_ne by done. intros He' Hskip.
    rewrite <- Hts. by apply Hlok.
Qed.

Section Loaded.
Context `{Json}.

(** Loading the page clears the stored progress, builds the intro handler
    and wires the gate; no tracker exists yet. *)
Lemma pageLoad_gateUp env : gateUp (pageLoad env).
Proof.
  unfold pageLoad, main_script, initPage. apply wp_exec.
  apply wp_bind.
  apply (wp_seq _ _ (λ _, gateUp)).
  { apply wp_try_catch. unfold localStorage_removeItem.
    apply wp_bind, wp_get. cbv beta.
    destruct (st_enabled (localStorage (blankPage env))) eqn:Hen.
    - apply wp_modify. split_and!; try done.
      + unfold storedProgress. simpl. apply lookup_delete_eq.
      + intros x e. simpl. rewrite lookup_fmap.
        intros (m & _ & ->)%fmap_Some _. by left.
    - apply wp_throw. unfold console_warn, console_log. apply wp_modify.
      split_and!; try done.
      + unfold storedProgress. simpl. simpl in Hen. by rewrite Hen.
      + intros x e. simpl. rewrite lookup_fmap.
        intros (m & _ & ->)%fmap_Some _. by left. }
  generalize (blankPage env). clear env. intros _ _ p Hp.
  apply wp_bind, wp_modify.
  match goal with |- wp _ _ _ ?q => set (p1 := q) end.
  assert (gateUp p1) as Hp1 by (by apply (gateStage_ext _ p)).
  clearbody p1. clear p Hp.
  apply (wp_seq _ _ (λ _, gateUp)).
  { unfold new_IntroHandler.
    apply wp_bind, wp_getElementById. intros yes Hyes.
    apply wp_bind, wp_getElementById. intros no Hno.
    apply wp_bind, wp_getElementById. intros section Hsection.
    apply wp_bind, wp_getElementById. intros main Hmain.
    apply wp_bind, wp_modify.
    match goal with |- wp _ _ _ ?q => set (p2 := q) end.
    assert (gateUp p2) as Hp2.
    { destruct Hp1 as (? & ? & ? & ? & ? & ? & ?). split_and!; try done.
      intros h [= <-]. simpl. destruct Hsection as [->|[-> _]]; auto. }
    unfold initIntro. eapply wp_bind, wp_intro; [done|].
    simpl. clearbody p2.
    destruct Hyes as [->|[-> Hyes]]; simpl; [done|].
    destruct Hno as [->|[-> Hno]]; simpl; [done|].
    apply wp_bind, wp_update; [|done]. intros id e [= <-] He.
    apply wp_update; [|by apply gateStage_addGate; auto].
    intros id e' [= <-] He'.
    apply gateStage_addGate; [auto| |done].
    apply gateStage_addGate; auto. }
  intros _ p2 Hp2. unfold setupSmoothScroll. apply wp_ret.
  unfold penguins_script, initPenguinSystem.
  apply wp_bind, wp_modify, wp_bind, wp_ret, wp_bind, wp_get, wp_modify.
  destruct Hp2 as (? & ? & ? & ? & ? & ? & ?). by split_and!.
Qed.

Lemma sessionInv_reachable env evs :
  gateNested (env_container env) → sessionInv (session env evs).
Proof. intros Hnest. apply sessionInv_run; [done|]. left. apply pageLoad_gateUp. Qed.

Lemma beforeTracker_reachable env evs :
  trackers (session env evs) = [] → beforeTracker (session env evs).
Proof.
  intros Hts.
  destruct (run_beforeTracker (env_container env) evs (pageLoad env)) as [?|?];
    [|done|done].
  left. exists []. split; [apply pageLoad_gateUp|constructor].
Qed.

End Loaded.
(** ** Sessions *)

Section Sessions.
Context `{Json}.

Lemma pageLoad_localStorage env :
  localStorage (pageLoad env) =
  if st_enabled (env_storage env)
  then {| st_enabled := true; st_limit := st_limit (env_storage env);
          st_items := delete "penguinsFound" (st_items (env_storage env)) |}
  else env_storage env.
Proof.
  unfold pageLoad, main_script, initPage.
  set (s := if st_enabled (env_storage env) then _ else _).
  apply (exec_bind_keeps (λ p, localStorage p = s)).
  - apply (exec_bind_keeps (λ p, localStorage p = s)).
    + unfold s, exec, try_catch, localStorage_removeItem, mbind, Js_bind, get.
      simpl. by destruct (st_enabled (env_storage env)) eqn:Hen.
    + intros _. keeps_auto; done.
  - intros _. keeps_auto; done.
Qed.

Lemma fresh_incomplete t :
  trackerOk t → foundPenguins t = [] → isComplete t = false.
Proof. intros [Hids _] Hf. unfold isComplete. by rewrite Hf, Hids. Qed.

Lemma trackerActive_signals t p :
  trackerActive t p →
  trackers p = [t] ∧ completionSignals p = (if isComplete t then 1 else 0).
Proof. by intros (_ & ? & _ & _ & _ & ? & _). Qed.

(** C9. Loading the page removes the progress entry before any tracker
    exists: whatever the store held, the loaded page has no tracker and no
    readable entry, and a store that can be accessed has lost the entry
    (one that cannot be accessed is left alone, and is as unreadable for
    the tracker). Nothing writes the entry until a tracker is constructed:
    as long as the session has no tracker, the entry stays absent and
    [loadProgress] returns the empty set, so the tracker that the next event
    may construct starts from the empty set. *)
Theorem progress_cleared_on_load (env : Env) (evs : list Event) :
  trackers (pageLoad env) = [] ∧
  storedProgress (pageLoad env) = None ∧
  (st_enabled (env_storage env) = true →
     st_items (localStorage (pageLoad env)) =
       delete "penguinsFound" (st_items (env_storage env))) ∧
  (st_enabled (env_storage env) = false →
     localStorage (pageLoad env) = env_storage env) ∧
  (trackers (session env evs) = [] →
     storedProgress (session env evs) = None ∧
     outcome loadProgress (session env evs) = Normal JsSet.empty ∧
     ∀ ev, trackers (step (env_container env) (session env evs) ev) = [] ∨
           ∃ t, trackers (step (env_container env) (session env evs) ev) = [t] ∧
                foundPenguins t = JsSet.empty).
Proof.
  pose proof (pageLoad_gateUp env) as (Hts & _ & Hst & _).
  split_and!; [done|done|..].
  - intros Hen. by rewrite pageLoad_localStorage, Hen.
  - intros Hen. by rewrite pageLoad_localStorage, Hen.
  - intros Hnone. set (p := session env evs) in *.
    pose proof (beforeTracker_reachable env evs Hnone) as Hp. fold p in Hp.
    assert (storedProgress p = None) as Hstored
      by (destruct Hp as (ts & Hp & _); apply Hp).
    split_and!; [done|by rewrite loadProgress_returns, loaded_None|].
    intros ev.
    destruct (step_beforeTracker (env_container env) p ev Hp)
      as [(ts & Hq & _)|?]; [left; apply Hq|by right].
Qed.

(** In a session the signal is logged at most once: exactly when the set
    is complete, and by the click on the last penguin not yet found. *)
Lemma signalled_once (env : Env) (evs : list Event) (ev : Event) :
  gateNested (env_container env) →
  let p := session env evs in
  let p' := step (env_container env) p ev in
  (completionSignals p = 0 ∨ completionSignals p = 1) ∧
  (completionSignals p = 1 ↔ ∃ t, trackers p = [t] ∧ isComplete t = true) ∧
  (completionSignals p ≤ completionSignals p')%nat ∧
  (completionSignals p = 0 → completionSignals p' = 1 →
     ∃ how id t t',
       ev = Activate how id ∧ id ∈ universe ∧
       trackers p = [t] ∧ (JStr id ∉ foundPenguins t) ∧
       trackers p' = [t'] ∧
       foundPenguins t' = foundPenguins t ++ [JStr id] ∧
       isComplete t' = true).
Proof.
  intros Hnest p p'. unfold p'.
  destruct (sessionInv_reachable env evs Hnest) as [Hp|[Hp|[t Hp]]]; fold p in Hp.
  - pose proof Hp as (Hts & _ & _ & Hsig & _).
    assert (completionSignals (step (env_container env) p ev) = 0) as Hsig'
      by (destruct (step_gateUp (env_container env) p ev Hp) as [Hq|[Hq _]]; apply Hq).
    rewrite Hsig, Hsig', Hts. split_and!; [by left| |done|done].
    split; [done|]. by intros (t & ? & _).
  - pose proof Hp as ((Hts & _ & _ & Hsig & _) & _).
    assert (completionSignals (step (env_container env) p ev) = 0) as Hsig'.
    { destruct (step_pending (env_container env) p ev Hnest Hp) as [->|(t & Ht & Hf)]; [done|].
      pose proof (fresh_incomplete t (proj1 Ht) Hf) as Hinc.
      apply trackerActive_signals in Ht as [_ ->]. by rewrite Hinc. }
    rewrite Hsig, Hsig', Hts. split_and!; [by left| |done|done].
    split; [done|]. by intros (t & ? & _).
  - pose proof (trackerActive_signals t p Hp) as [Hts Hsig].
    rewrite Hsig, Hts. split_and!.
    + destruct (isComplete t); auto.
    + split.
      * intros Hone. exists t. split; [done|]. by destruct (isComplete t).
      * intros (t0 & [= <-] & ->). done.
    + destruct (step_active (env_container env) t p ev Hnest Hp)
        as [Hq|(how & id & t' & -> & Hid & Hnotin & Hfound & Hq)].
      * apply trackerActive_signals in Hq as [_ ->]. done.
      * destruct (trackerOk_room t id (proj1 Hp) Hid Hnotin) as (-> & _). lia.
    + intros Hzero Hone.
      destruct (step_active (env_container env) t p ev Hnest Hp)
        as [Hq|(how & id & t' & -> & Hid & Hnotin & Hfound & Hq)].
      * apply trackerActive_signals in Hq as [_ Hq]. congruence.
      * apply trackerActive_signals in Hq as [Hts' Hsig'].
        exists how, id, t, t'. split_and!; try done.
        rewrite Hsig' in Hone. by destruct (isComplete t').
Qed.

(** C2, amended. Called with an id that is already in the set, the click
    handler leaves the set and the count as they are. And in a session a
    click on the element of a penguin that is already found does nothing at
    all: the page stays as it is. *)
Theorem found_penguin_click_is_inert (env : Env) (evs : list Event)
    (found : JsSet.t) (id : string) :
  gateNested (env_container env) →
  foundPenguins <$> trackers (session env evs) = [found] →
  JsSet.has found (JStr id) = true →
  (∀ how, step (env_container env) (session env evs) (Activate how id) =
          session env evs) ∧
  heapView (trackers (exec (handlePenguinClick 0 id) (session env evs))) =
    heapView (trackers (session env evs)) ∧
  (currentCount <$> trackers (exec (handlePenguinClick 0 id) (session env evs))) =
    [JsSet.size found].
Proof.
  set (p := session env evs). intros Hnest Hfound Hhas.
  assert (∃ t, trackerActive t p ∧ foundPenguins t = found) as (t & Hp & <-).
  { destruct (sessionInv_reachable env evs Hnest) as [Hp|[Hp|[t Hp]]]; fold p in Hp.
    - destruct Hp as (Hts & _). by rewrite Hts in Hfound.
    - destruct Hp as ((Hts & _) & _). by rewrite Hts in Hfound.
    - exists t. split; [done|].
      apply trackerActive_signals in Hp as [Hts _]. rewrite Hts in Hfound.
      by injection Hfound. }
  pose proof Hp as [Htok (Hts & _ & _ & Hlok & _)].
  apply has_JStr in Hhas.
  assert (heapView (trackers (exec (handlePenguinClick 0 id) p)) =
          heapView (trackers p)) as Hheap.
  { rewrite handlePenguinClick_heap, Hts. simpl. unfold JsSet.add.
    by rewrite (proj2 (has_JStr _ _) Hhas). }
  split_and!; [|done|].
  - intros how. simpl. destruct (receives (env_container env) how p id); [|done].
    destruct (document p !! id) as [e|] eqn:He;
      [|unfold dispatchClick; by rewrite He].
    destruct (Hlok id e He) as [Hnil|(l & Hl & Hok)]; [done| |].
    { by rewrite (dispatchClick_none id p e). }
    rewrite Hts in Hok. destruct Htok as (_ & ids & Hids & _ & Hsub).
    assert (id ∈ universe) as Hid.
    { rewrite Hids in Hhas. apply list_elem_of_fmap in Hhas as (x & [= ->] & Hx).
      by apply Hsub. }
    destruct (universe_not_gate id Hid) as (_ & ? & ?).
    destruct l as [| |this x]; simpl in Hok; [done..|].
    by destruct Hok as (_ & _ & _ & t0 & [= <-] & _ & ?).
  - apply (f_equal (fmap (λ v, JsSet.size v.2))) in Hheap.
    unfold heapView in Hheap. rewrite <- !list_fmap_compose in Hheap.
    unfold currentCount. etrans; [exact Hheap|]. by rewrite Hts.
Qed.

(** C3, amended. In a session only the ids of the universe reach the click
    handler: there is at most one tracker, its set holds distinct ids of the
    universe, and a penguin listener sits on the element whose id it
    passes to the handler, an id of the universe that is not yet in the
    set. *)
Theorem found_within_universe (env : Env) (evs : list Event) :
  gateNested (env_container env) →
  let p := session env evs in
  (length (trackers p) ≤ 1)%nat ∧
  Forall (λ t, penguinIds t = universe ∧
               ∃ ids, foundPenguins t = JStr <$> ids ∧ NoDup ids ∧
                      ids ⊆ universe ∧ currentCount t = length ids)
         (trackers p) ∧
  (∀ id e this x,
     document p !! id = Some e → OnPenguin this x ∈ clickListeners e →
     x = id ∧ x ∈ universe ∧
     ∃ t, trackers p !! this = Some t ∧ JStr x ∉ foundPenguins t).
Proof.
  intros Hnest p.
  assert (listenersOk None p ∧
          (trackers p = [] ∨ ∃ t, trackers p = [t] ∧ trackerOk t))
    as [Hlok Hts].
  { destruct (sessionInv_reachable env evs Hnest) as [Hp|[Hp|[t Hp]]]; fold p in Hp.
    - split; [apply Hp|left; apply Hp].
    - split; [apply Hp|left; apply Hp].
    - split; [apply Hp|right]. exists t. split; [apply Hp|apply Hp]. }
  split_and!.
  - destruct Hts as [->|(t & -> & _)]; simpl; lia.
  - destruct Hts as [->|(t & -> & Hids & ids & Hf & Hnd & Hsub)]; [constructor|].
    apply Forall_singleton. split; [done|]. exists ids. split_and!; [done..|].
    unfold currentCount, JsSet.size. by rewrite Hf, length_fmap.
  - intros id e this x He Hin.
    destruct (Hlok id e He) as [Hnil|(l & Hl & Hok)]; [done| |].
    { rewrite Hnil in Hin. by apply elem_of_nil in Hin. }
    rewrite Hl in Hin. apply list_elem_of_singleton in Hin as <-.
    destruct Hok as (-> & -> & Hid & t & Ht & _ & Hnotin).
    split_and!; [done..|]. exists t. by rewrite Ht.
Qed.

(** C4, amended. The completion test compares sizes: after any sequence of
    calls of [handlePenguinClick] on the freshly activated tracker it holds
    exactly when the sequence names five distinct ids, of the universe or
    not. For a sequence of ids of the universe this is the case exactly
    when each of the five ids is among them, so the test fails for every
    proper subset. In a session (markup with the gate's controls inside
    the intro section) only ids of the universe reach the handler, and the
    test holds for the tracker exactly when each of the five ids is in its
    set. *)
Theorem isComplete_iff_all_found (env : Env) (ids : list string) (evs : list Event) :
  (∃ t, trackers (discover 0 ids (activated env)) = [t] ∧
        (isComplete t = true ↔ length (remove_dups ids) = length universe) ∧
        (Forall (λ id, id ∈ universe) ids →
         (isComplete t = true ↔ ∀ id, id ∈ universe → id ∈ ids))) ∧
  (gateNested (env_container env) →
   ∀ t, trackers (session env evs) = [t] →
        (isComplete t = true ↔ ∀ id, id ∈ universe → JStr id ∈ foundPenguins t)).
Proof.
  split.
  - destruct (heapView_singleton _ _ _ (discover_activated env ids))
      as (t & Ht & Hids & Hfound).
    exists t. split_and!; [done| |].
    + unfold isComplete, JsSet.size. rewrite bool_decide_eq_true.
      by rewrite Hids, Hfound, length_fmap, distinct_length.
    + intros Hvalid. rewrite Forall_forall in Hvalid.
      rewrite (complete_iff_all t (distinct ids) Hids Hfound (distinct_NoDup ids)).
      * split; intros Hall id Hid; [apply elem_of_distinct|apply elem_of_distinct]; auto.
      * intros id Hid. apply Hvalid. by apply elem_of_distinct.
  - intros Hnest t Ht.
    assert (trackerOk t) as (Hids & found & Hfound & Hnd & Hsub).
    { destruct (sessionInv_reachable env evs Hnest) as [Hp|[Hp|[t' Hp]]].
      - assert (trackers (session env evs) = []) as Hnil by apply Hp.
        by rewrite Hnil in Ht.
      - assert (trackers (session env evs) = []) as Hnil by apply Hp.
        by rewrite Hnil in Ht.
      - destruct (trackerActive_signals _ _ Hp) as [Ht' _].
        rewrite Ht' in Ht. injection Ht as <-. apply Hp. }
    rewrite (complete_iff_all t found Hids Hfound Hnd) by (intros id; apply Hsub).
    rewrite Hfound. split; intros Hall id Hid.
    + apply list_elem_of_fmap. exists id. split; [done|by apply Hall].
    + apply Hall in Hid. apply list_elem_of_fmap in Hid as (y & [= ->] & Hy). done.
Qed.

End Sessions.
(** ** Sessions on the demo page *)

Lemma isComplete_iff_all_found_witness :
  (∃ t, trackers (@discover StringArrayJson.json 0 universe
                    (@activated StringArrayJson.json demoEnv)) = [t] ∧
        isComplete t = true) ∧
  (∀ t, trackers (@session StringArrayJson.json demoEnv
                    [Activate Pointer "btnYes"; TimerFires 0;
                     Activate Pointer "penguin4"]) = [t] →
        (isComplete t = true ↔ ∀ id, id ∈ universe → JStr id ∈ foundPenguins t)).
Proof.
  destruct (@isComplete_iff_all_found StringArrayJson.json demoEnv universe
              [Activate Pointer "btnYes"; TimerFires 0; Activate Pointer "penguin4"])
    as [(t & Ht & _ & Hvalid) Hsession].
  split.
  - exists t. split; [exact Ht|].
    apply Hvalid; [apply Forall_forall; auto|auto].
  - apply Hsession. split; reflexivity.
Defined.

Lemma found_penguin_click_is_inert_witness :
  let p := demoSession [Activate Pointer "btnYes"; TimerFires 0;
                        Activate Pointer "penguin2"] in
  (∀ how, @step StringArrayJson.json (env_container demoEnv) p
            (Activate how "penguin2") = p) ∧
  heapView (trackers (exec (demoClick "penguin2") p)) = heapView (trackers p) ∧
  (currentCount <$> trackers (exec (demoClick "penguin2") p)) = [1].
Proof.
  intros p.
  apply (@found_penguin_click_is_inert StringArrayJson.json demoEnv
           [Activate Pointer "btnYes"; TimerFires 0; Activate Pointer "penguin2"]
           [JStr "penguin2"] "penguin2").
  - by vm_compute.
  - by vm_compute.
  - reflexivity.
Defined.

Lemma found_within_universe_witness :
  let p := demoSession [Activate Pointer "btnYes"; TimerFires 0;
                        Activate Pointer "penguin5"; Activate Pointer "penguin1"] in
  (length (trackers p) ≤ 1)%nat ∧
  Forall (λ t, penguinIds t = universe ∧
               ∃ ids, foundPenguins t = JStr <$> ids ∧ NoDup ids ∧
                      ids ⊆ universe ∧ currentCount t = length ids)
         (trackers p) ∧
  (∀ id e this x,
     document p !! id = Some e → OnPenguin this x ∈ clickListeners e →
     x = id ∧ x ∈ universe ∧
     ∃ t, trackers p !! this = Some t ∧ JStr x ∉ foundPenguins t).
Proof.
  apply (@found_within_universe StringArrayJson.json demoEnv
           [Activate Pointer "btnYes"; TimerFires 0;
            Activate Pointer "penguin5"; Activate Pointer "penguin1"]).
  by vm_compute.
Defined.

(** On the demo page: the store holds the progress of an earlier session;
    the load removes it, and the tracker constructed after the gate was
    accepted starts with nothing found. *)
Example demo_store_cleared :
  storedProgress (blankPage demoEnv) =
    Some (StringArrayJson.stringify (JArr [JStr "penguin3"])) ∧
  storedProgress (demoSession []) = None ∧
  heapView (trackers (demoSession [Activate Pointer "btnYes"])) = [] ∧
  heapView (trackers (demoSession [Activate Pointer "btnYes"; TimerFires 0])) =
    [(universe, [])].
Proof. by vm_compute. Qed.

(** On the demo page: all five penguins are clicked, each of them twice,
    the gate's controls are tried again and the timers expire. Completion
    is signalled once, by the click on the fifth penguin. *)
Example demo_session_completes :
  let found4 := [Activate Pointer "btnYes"; TimerFires 0] ++
                (Activate Pointer <$> ["penguin4"; "penguin1"; "penguin5"; "penguin2"]) in
  let again := (Activate Pointer <$> universe ++ universe) ++
               [Activate Keyboard "btnNo"; Activate Keyboard "btnYes";
                TimerFires 0; TimerFires 0; ConsoleReset; TimerFires 3] in
  completionSignals (demoSession found4) = 0 ∧
  completionSignals (demoSession (found4 ++ [Activate Pointer "penguin3"])) = 1 ∧
  completionSignals (demoSession (found4 ++ [Activate Pointer "penguin3"] ++ again)) = 1 ∧
  heapView (trackers (demoSession (found4 ++ [Activate Pointer "penguin3"] ++ again))) =
    [(universe, JStr <$> ["penguin4"; "penguin1"; "penguin5"; "penguin2"; "penguin3"])] ∧
  timers (demoSession (found4 ++ [Activate Pointer "penguin3"])) =
    replicate 5 (2000, TaskRemove FoundNotification) ++ [(300, TaskReveal)].
Proof. by vm_compute. Qed.

(** Why the nesting matters. On a markup that leaves the accept control in
    reach after the intro section is hidden, accepting twice constructs two
    trackers, each with a listener on every penguin: completion is then
    signalled once by each, and a tracker constructed after a penguin was
    found loads that progress from the store. *)
Example flat_markup_activates_twice :
  let twice := @session StringArrayJson.json flatEnv
                 ([Activate Pointer "btnYes"; Activate Pointer "btnYes";
                   TimerFires 0; TimerFires 0] ++ (Activate Pointer <$> universe)) in
  let late := @session StringArrayJson.json flatEnv
                [Activate Pointer "btnYes"; TimerFires 0; Activate Pointer "penguin1";
                 Activate Pointer "btnYes"; TimerFires 1] in
  length (trackers twice) = 2 ∧ completionSignals twice = 2 ∧
  heapView (trackers late) =
    [(universe, [JStr "penguin1"]); (universe, [JStr "penguin1"])].
Proof. by vm_compute. Qed.

(** ** The JSON instance reads back what it writes *)

Module StringArrayJsonFacts.
Import StringArrayJson.

Lemma append_nil (b : string) : "" +:+ b = b.
Proof. reflexivity. Qed.
Lemma append_cons x (a b : string) : String x a +:+ b = String x (a +:+ b).
Proof. reflexivity. Qed.

Lemma append_assoc (a b c : string) : (a +:+ b) +:+ c = a +:+ (b +:+ c).
Proof.
  induction a as [|x a IH]; [done|]. rewrite !append_cons. by f_equal.
Qed.

Lemma length_append (a b : string) :
  String.length (a +:+ b) = (String.length a + String.length b)%nat.
Proof.
  induction a as [|x a IH]; [done|]. rewrite append_cons. simpl. by f_equal.
Qed.

(** A string literal is read back up to its closing quote. *)
Lemma parse_chars_escape (s rest : string) :
  parse_chars (escape s +:+ String dquote rest) = Some (s, rest).
Proof.
  induction s as [|c s IH]; cbn [escape].
  - rewrite append_nil. cbn [parse_chars]. by rewrite bool_decide_eq_true_2.
  - case_bool_decide as Hc; rewrite !append_cons; cbn [parse_chars].
    + rewrite bool_decide_eq_false_2 by done.
      rewrite bool_decide_eq_true_2 by done.
      rewrite bool_decide_eq_true_2 by done.
      by rewrite IH.
    + rewrite bool_decide_eq_false_2 by (intros ->; apply Hc; by left).
      rewrite bool_decide_eq_false_2 by (intros ->; apply Hc; by right).
      by rewrite IH.
Qed.

Lemma stringify_items_cons (x : string) (l : list string) :
  stringify_items (JStr <$> x :: l) +:+ "]" = quote x +:+ rest_items l.
Proof.
  revert x. induction l as [|y l IH]; intros x; [done|].
  change (stringify_items (JStr <$> x :: y :: l))
    with (quote x +:+ "," +:+ stringify_items (JStr <$> y :: l)).
  rewrite !append_assoc, IH. done.
Qed.

Lemma rest_items_cons (x : string) (l : list string) :
  rest_items (x :: l) =
  String "," (String dquote (escape x +:+ String dquote (rest_items l))).
Proof.
  unfold rest_items. cbn [foldr]. unfold quote.
  by rewrite !append_cons, append_nil, append_assoc, append_cons, append_nil.
Qed.

Lemma rest_items_length (l : list string) :
  (length l < String.length (rest_items l))%nat.
Proof.
  induction l as [|x l IH]; [simpl; lia|].
  rewrite rest_items_cons. cbn [String.length length].
  rewrite length_append. cbn [String.length]. lia.
Qed.

Lemma parse_more_rest_items (fuel : nat) (l : list string) :
  (length l < fuel)%nat → parse_more fuel (rest_items l) = Some (JStr <$> l).
Proof.
  revert fuel. induction l as [|x l IH]; intros fuel Hfuel;
    (destruct fuel as [|fuel]; [simpl in Hfuel; lia|]); [done|].
  simpl in Hfuel. rewrite rest_items_cons. cbn [parse_more].
  rewrite bool_decide_eq_true_2 by done.
  rewrite parse_chars_escape. simpl. rewrite IH by lia. done.
Qed.

Lemma parse_stringify (ids : list string) :
  parse (stringify (JArr (JStr <$> ids))) = Some (JArr (JStr <$> ids)).
Proof.
  destruct ids as [|x l]; [done|].
  unfold stringify. rewrite stringify_items_cons. unfold quote.
  rewrite !append_cons, append_nil, append_assoc, append_cons, append_nil.
  cbn [parse]. rewrite bool_decide_eq_true_2 by done.
  rewrite parse_chars_escape. simpl.
  rewrite parse_more_rest_items by apply rest_items_length. done.
Qed.

(** The instance satisfies the law that the round trip of the tracker
    relies on, for every list of strings. *)
Lemma json_roundtrips_holds (ids : list string) : @json_roundtrips json ids.
Proof. split; [done|apply parse_stringify]. Qed.

End StringArrayJsonFacts.

(** ** Saving and resetting *)

Section SaveReset.
Context `{Json}.

(** What [saveProgress] does, by the state of the store. *)
Lemma saveProgress_best_effort (p : Page) (this : nat) :
  outcome (saveProgress this) p = Normal tt ∧
  trackers (exec (saveProgress this) p) = trackers p ∧
  (∀ t, trackers p !! this = Some t →
     if st_enabled (localStorage p) &&
        st_fits (localStorage p) "penguinsFound"
                (JSON_stringify (JsSet.to_array (foundPenguins t)))
     then storedProgress (exec (saveProgress this) p) =
            Some (JSON_stringify (JsSet.to_array (foundPenguins t))) ∧
          console (exec (saveProgress this) p) = console p
     else localStorage (exec (saveProgress this) p) = localStorage p ∧
          ∃ e, console (exec (saveProgress this) p) =
                 console p ++ [WarnSaveFailed e]).
Proof.
  unfold saveProgress, outcome, exec, try_catch, tracker, localStorage_setItem,
    console_warn, console_log, storedProgress, mbind, Js_bind, get, modify, throw.
  simpl. destruct (trackers p !! this) as [t|] eqn:Ht; simpl;
    [|split_and!; [done..|]; by intros t [=]].
  destruct (st_enabled (localStorage p)) eqn:Hen; simpl;
    [|split_and!; [done..|]; intros t' _; eauto].
  destruct (st_fits (localStorage p) "penguinsFound" _) eqn:Hq; simpl;
    [|split_and!; [done..|]; intros t' [= <-]; rewrite Hq; eauto].
  split_and!; [done..|]. intros t' [= <-]. rewrite Hq. simpl.
  split; [|done]. apply lookup_insert_eq.
Qed.

(** X1. Saving is best effort: [saveProgress] completes normally whatever the
    store does. With a store that is enabled and has room for the text of
    the set, the entry then holds the set; with a store that is disabled
    or full the store is left as it was and a warning is logged. The
    tracker is not touched either way. *)
Theorem saveProgress_never_throws (p : Page) (this : nat) :
  outcome (saveProgress this) p = Normal tt ∧
  trackers (exec (saveProgress this) p) = trackers p ∧
  (∀ t, trackers p !! this = Some t →
     if st_enabled (localStorage p) &&
        st_fits (localStorage p) "penguinsFound"
                (JSON_stringify (JsSet.to_array (foundPenguins t)))
     then storedProgress (exec (saveProgress this) p) =
            Some (JSON_stringify (JsSet.to_array (foundPenguins t))) ∧
          console (exec (saveProgress this) p) = console p
     else localStorage (exec (saveProgress this) p) = localStorage p ∧
          ∃ e, console (exec (saveProgress this) p) =
                 console p ++ [WarnSaveFailed e]).
Proof. apply saveProgress_best_effort. Qed.

(** X2. [reset] empties the set of its tracker, saves the empty set and asks
    for a reload: the count is then 0 and the tracker incomplete. *)
Theorem reset_clears (p : Page) (this : nat) (t : PenguinTracker) :
  trackers p !! this = Some t →
  outcome (reset this) p = Normal tt ∧
  reloading (exec (reset this) p) = true ∧
  trackers (exec (reset this) p) = <[this := set_foundPenguins [] t]> (trackers p) ∧
  currentCount (set_foundPenguins [] t) = 0 ∧
  (penguinIds t = universe → isComplete (set_foundPenguins [] t) = false) ∧
  (st_enabled (localStorage p) = true →
   st_fits (localStorage p) "penguinsFound" (JSON_stringify (JArr [])) = true →
     storedProgress (exec (reset this) p) = Some (JSON_stringify (JArr []))).
Proof.
  intros Ht.
  pose (p1 := set_trackers
               (alter (λ t, set_foundPenguins (JsSet.clear (foundPenguins t)) t)
                      this (trackers p)) p).
  assert (trackers p1 = <[this := set_foundPenguins [] t]> (trackers p)) as Hts1.
  { unfold p1. simpl. apply list_eq. intros i.
    destruct (decide (i = this)) as [->|Hne].
    - rewrite list_lookup_alter, decide_True, Ht by done.
      by rewrite list_lookup_insert_eq by (by eapply lookup_lt_Some).
    - by rewrite list_lookup_alter_ne, list_lookup_insert_ne. }
  assert (trackers p1 !! this = Some (set_foundPenguins [] t)) as Ht1.
  { rewrite Hts1. apply list_lookup_insert_eq. by eapply lookup_lt_Some. }
  destruct (saveProgress_best_effort p1 this) as (Hout & Hsame & Hstore).
  specialize (Hstore _ Ht1).
  assert (outcome (reset this) p = Normal tt ∧
          exec (reset this) p = set_reloading true (exec (saveProgress this) p1))
    as [Hreset Hexec].
  { unfold reset, update_tracker, outcome, exec, mbind, Js_bind, modify in *.
    fold p1. destruct (saveProgress this p1) as [[[]|e] p2]; simpl in *; done. }
  rewrite Hexec. split_and!; [done|done| |done| |].
  - simpl. by rewrite Hsame.
  - intros Hids. unfold isComplete. simpl. by rewrite Hids.
  - intros Hen Hq. change (localStorage p1) with (localStorage p) in Hstore.
    unfold JsSet.to_array in Hstore. simpl in Hstore.
    rewrite Hen, Hq in Hstore. simpl in Hstore. apply Hstore.
Qed.

End SaveReset.

Lemma reset_clears_witness :
  let t := {| penguinIds := universe; penguinHandlers := ∅;
              foundPenguins := JStr <$> ["penguin2"; "penguin4"] |} in
  let p := set_trackers [t] (demoSession []) in
  outcome (@reset StringArrayJson.json 0) p = Normal tt ∧
  reloading (exec (@reset StringArrayJson.json 0) p) = true ∧
  trackers (exec (@reset StringArrayJson.json 0) p) =
    <[0 := set_foundPenguins [] t]> (trackers p) ∧
  currentCount (set_foundPenguins [] t) = 0 ∧
  (penguinIds t = universe → isComplete (set_foundPenguins [] t) = false) ∧
  (st_enabled (localStorage p) = true →
   st_fits (localStorage p) "penguinsFound"
           (StringArrayJson.stringify (JArr [])) = true →
     storedProgress (exec (@reset StringArrayJson.json 0) p) =
       Some (StringArrayJson.stringify (JArr []))).
Proof.
  intros t p. apply (@reset_clears StringArrayJson.json p 0 t). reflexivity.
Defined.

(** ** Overlays are removed by their timers *)

Lemma filter_delete_length {A} (P : A → Prop) `{∀ x, Decision (P x)}
    (l : list A) (i : nat) (x : A) :
  l !! i = Some x →
  length (filter P l) =
  (length (filter P (delete i l)) + (if decide (P x) then 1 else 0))%nat.
Proof.
  intros Hi. rewrite <- (take_drop_middle l i x Hi) at 1.
  rewrite delete_take_drop, !filter_app, filter_cons, !length_app.
  destruct (decide (P x)); simpl; lia.
Qed.

Lemma filter_none {A} (P : A → Prop) `{∀ x, Decision (P x)} (l : list A) :
  Forall (λ x, ¬ P x) l → filter P l = [].
Proof.
  induction 1 as [|x l Hx _ IH]; [done|]. by rewrite filter_cons_False.
Qed.

Lemma overlaysTimed_ext p q :
  overlays q = overlays p → timers q = timers p →
  overlaysTimed p → overlaysTimed q.
Proof. unfold overlaysTimed, shown, removals. by intros -> ->. Qed.

(** A timer that removes no overlay comes or goes. *)
Lemma overlaysTimed_timer p d t :
  (∀ o, t ≠ TaskRemove o) → overlaysTimed p →
  overlaysTimed (set_timers (timers p ++ [(d, t)]) p).
Proof.
  intros Ht Hp o. specialize (Hp o). unfold shown, removals in *. simpl.
  rewrite filter_app, filter_cons_False by apply Ht.
  by rewrite filter_nil, app_nil_r.
Qed.

Lemma overlaysTimed_timer_gone p k d t :
  timers p !! k = Some (d, t) → (∀ o, t ≠ TaskRemove o) → overlaysTimed p →
  overlaysTimed (set_timers (delete k (timers p)) p).
Proof.
  intros Hk Ht Hp o. specialize (Hp o). unfold shown, removals in *. simpl.
  pose proof (filter_delete_length (λ x : nat * Task, x.2 = TaskRemove o)
                (timers p) k _ Hk) as Hlen.
  rewrite decide_False in Hlen by apply Ht. lia.
Qed.

(** An overlay comes with its timer. *)
Lemma overlaysTimed_show p q o d :
  overlays q = overlays p ++ [o] → timers q = timers p ++ [(d, TaskRemove o)] →
  overlaysTimed p → overlaysTimed q.
Proof.
  intros Ho Ht Hp o'. specialize (Hp o'). unfold shown, removals in *.
  rewrite Ho, Ht, !filter_app, !length_app, Hp. f_equal.
  rewrite !filter_cons, !filter_nil. simpl.
  destruct (decide (o = o')) as [->|Hne].
  - by rewrite decide_True.
  - by rewrite decide_False by congruence.
Qed.

(** The timer goes with an overlay. *)
Lemma overlaysTimed_remove p k d o :
  timers p !! k = Some (d, TaskRemove o) → overlaysTimed p →
  (1 ≤ shown o p)%nat ∧
  ∀ q, q = set_overlays
             (match list_find (λ x, x = o) (overlays p) with
              | Some (i, _) => delete i (overlays p)
              | None => overlays p
              end) (set_timers (delete k (timers p)) p) →
       overlaysTimed q ∧ shown o q = (shown o p - 1)%nat.
Proof.
  intros Hk Hp.
  assert (1 ≤ shown o p)%nat as Hone.
  { rewrite Hp. unfold removals.
    rewrite (filter_delete_length _ (timers p) k _ Hk).
    rewrite decide_True by done. lia. }
  split; [done|]. intros q ->.
  destruct (list_find (λ x, x = o) (overlays p)) as [[i y]|] eqn:Hfind.
  - apply list_find_Some in Hfind as (Hi & -> & _).
    assert (∀ o', shown o' (set_overlays (delete i (overlays p))
                              (set_timers (delete k (timers p)) p)) =
                  (shown o' p - (if decide (o = o') then 1 else 0))%nat) as Hshown.
    { intros o'. unfold shown. simpl.
      rewrite (filter_delete_length (λ x, x = o') (overlays p) i _ Hi).
      destruct (decide (o = o')); lia. }
    split; [|rewrite Hshown, decide_True by done; done].
    intros o'. rewrite Hshown. unfold removals. simpl.
    pose proof (filter_delete_length (λ x : nat * Task, x.2 = TaskRemove o')
                  (timers p) k _ Hk) as Hlen. simpl in Hlen.
    specialize (Hp o'). unfold removals in Hp. rewrite Hp, Hlen.
    destruct (decide (o = o')) as [->|Hne].
    + rewrite decide_True by done. lia.
    + rewrite decide_False by congruence. lia.
  - apply list_find_None in Hfind. exfalso.
    assert (shown o p = 0)%nat; [|lia].
    unfold shown. by rewrite filter_none.
Qed.

Section Overlays.
Context `{Json}.

Lemma showPenguinFoundFeedback_timed : keeps overlaysTimed showPenguinFoundFeedback.
Proof.
  intros p Hp. unfold showPenguinFoundFeedback, getElementById, setTimeout.
  repeat wp_step; simpl.
  all: by eapply (overlaysTimed_show p _ FoundNotification 2000).
Qed.

Lemma showCompletionCelebration_timed : keeps overlaysTimed showCompletionCelebration.
Proof.
  intros p Hp. unfold showCompletionCelebration, getElementById, setTimeout.
  repeat wp_step; simpl.
  all: by eapply (overlaysTimed_show p _ CelebrationOverlay 1000).
Qed.

(** The scripts other than the two that show an overlay touch neither
    overlays nor removal timers. *)
Ltac timed_auto :=
  repeat first [ apply showPenguinFoundFeedback_timed
               | apply showCompletionCelebration_timed
               | keeps_step ];
  first [ done
        | by apply overlaysTimed_timer
        | by eapply overlaysTimed_ext; [| |eassumption] ].

Lemma runListener_timed l : keeps overlaysTimed (runListener l).
Proof. destruct l; timed_auto. Qed.

Lemma activation_timed : keeps overlaysTimed activation.
Proof. timed_auto. Qed.

Lemma reveal_timed : keeps overlaysTimed (runTask TaskReveal).
Proof. simpl. timed_auto. Qed.

Lemma console_reset_timed : keeps overlaysTimed console_reset.
Proof. timed_auto. Qed.

Lemma step_timed container p ev :
  overlaysTimed p → overlaysTimed (step container p ev).
Proof.
  intros Hp. destruct ev as [how id|k|]; simpl.
  - destruct (receives container how p id); [|done].
    apply (dispatchClick_keeps overlaysTimed); [|done]. apply runListener_timed.
  - destruct (timers p !! k) as [[d t]|] eqn:Hk; [|done].
    destruct t as [| |o|].
    + apply keeps_exec; [apply activation_timed|].
      by eapply overlaysTimed_timer_gone.
    + apply keeps_exec; [apply reveal_timed|].
      by eapply overlaysTimed_timer_gone.
    + destruct (overlaysTimed_remove p k d o Hk Hp) as [_ Hq].
      by apply (Hq _ eq_refl).
    + by eapply overlaysTimed_timer_gone.
  - by apply keeps_exec; [apply console_reset_timed|].
Qed.

Lemma pageLoad_timed env : overlaysTimed (pageLoad env).
Proof.
  unfold pageLoad, main_script. apply keeps_exec; [|done]. timed_auto.
Qed.

(** X3. In every session each notification and each celebration overlay on
    the page has its removal pending: the overlays of a kind are as many
    as the timers that remove one. A removal timer that fires finds its
    overlay and takes it away. *)
Theorem overlays_have_timers (env : Env) (evs : list Event) (o : Overlay) :
  shown o (session env evs) = removals o (session env evs) ∧
  ∀ k d, timers (session env evs) !! k = Some (d, TaskRemove o) →
    (1 ≤ shown o (session env evs))%nat ∧
    shown o (step (env_container env) (session env evs) (TimerFires k)) =
      (shown o (session env evs) - 1)%nat.
Proof.
  assert (overlaysTimed (session env evs)) as Hp.
  { unfold session, run. generalize (pageLoad_timed env). generalize (pageLoad env).
    induction evs as [|ev evs IH]; intros p Hp; simpl; [done|].
    by apply IH, step_timed. }
  split; [apply Hp|]. intros k d Hk.
  destruct (overlaysTimed_remove _ k d o Hk Hp) as [Hone Hq].
  split; [done|]. simpl. rewrite Hk. by apply (Hq _ eq_refl).
Qed.

End Overlays.

(** ** The secret section is revealed only after completion *)

Lemma classList_add_elem c c' e :
  c' ∈ classList (classList_add c e) ↔ c' ∈ classList e ∨ c' = c.
Proof.
  unfold classList_add. case_bool_decide as Hc; simpl.
  - split; [auto|]. by intros [?| ->].
  - by rewrite elem_of_app, list_elem_of_singleton.
Qed.

Lemma keepsUnrevealed_classList_add c :
  c ≠ "revealed" → keepsUnrevealed (classList_add c).
Proof. intros Hc e [?|?]%classList_add_elem; [done|]. by subst. Qed.
Lemma keepsUnrevealed_classList_remove c : keepsUnrevealed (classList_remove c).
Proof. intros e. unfold classList_remove. simpl. by intros [_ ?]%list_elem_of_filter. Qed.
Lemma keepsUnrevealed_same f :
  (∀ e, classList (f e) = classList e) → keepsUnrevealed f.
Proof. intros Hf e. by rewrite Hf. Qed.

Lemma addEventListener_classList l e :
  classList (addEventListener l e) = classList e.
Proof. unfold addEventListener. by case_bool_decide. Qed.

Ltac keepsUnrevealed_tac :=
  first [ apply keepsUnrevealed_classList_add; done
        | apply keepsUnrevealed_classList_remove
        | apply keepsUnrevealed_same; first [done | apply addEventListener_classList] ].

Lemma revealed_update p id e f :
  keepsUnrevealed f → document p !! id = Some e →
  revealed (set_document (<[id := f e]> (document p)) p) → revealed p.
Proof.
  intros Hf He (e' & He' & Hin). simpl in He'.
  destruct (decide (id = "secretSection")) as [->|Hne].
  - rewrite lookup_insert_eq in He'. injection He' as <-. exists e. auto.
  - rewrite lookup_insert_ne in He' by done. by exists e'.
Qed.

Lemma revealed_sheet p id text :
  revealed (set_document (<[id := styleSheet text]> (document p)) p) → revealed p.
Proof.
  intros (e' & He' & Hin). simpl in He'.
  destruct (decide (id = "secretSection")) as [->|Hne].
  - rewrite lookup_insert_eq in He'. injection He' as <-. by apply elem_of_nil in Hin.
  - rewrite lookup_insert_ne in He' by done. by exists e'.
Qed.

Lemma revealed_ext p q : document q = document p → revealed q → revealed p.
Proof. unfold revealed. by intros ->. Qed.

Lemma signals_log p l :
  (completionSignals p ≤ completionSignals (set_console (console p ++ [l]) p))%nat.
Proof.
  unfold completionSignals. simpl. rewrite filter_app, length_app. lia.
Qed.

Lemma revealGuarded_intro p q :
  (revealed q → revealed p) → (revealPending q → revealPending p) →
  (completionSignals p ≤ completionSignals q)%nat →
  revealGuarded p → revealGuarded q.
Proof. intros Hr Ht Hs Hp [?|?]; (etrans; [apply Hp|done]); auto. Qed.

Lemma revealPending_other p d t :
  t ≠ TaskReveal → revealPending (set_timers (timers p ++ [(d, t)]) p) →
  revealPending p.
Proof.
  intros Ht [d' Hin]. simpl in Hin.
  apply elem_of_app in Hin as [?|Hin%list_elem_of_singleton]; [by exists d'|].
  congruence.
Qed.

Lemma revealPending_gone p k :
  revealPending (set_timers (delete k (timers p)) p) → revealPending p.
Proof.
  intros [d Hin]. exists d. simpl in Hin. by eapply list_elem_of_delete_inv.
Qed.

Section Reveal.
Context `{Json}.

(** The completion check signals before it schedules the reveal. *)
Lemma checkForCompletion_guarded this : keeps revealGuarded (checkForCompletion this).
Proof.
  intros p Hp. unfold checkForCompletion, tracker, console_log, allPenguinsFound,
    setTimeout.
  repeat wp_step; simpl; try done.
  - intros _. unfold completionSignals. simpl.
    rewrite !filter_app, !length_app. simpl. lia.
  - revert Hp. apply revealGuarded_intro; [done|done|apply signals_log].
Qed.

Ltac guarded_goal :=
  match goal with
  | Hp : revealGuarded ?p |- revealGuarded _ =>
      revert Hp; apply revealGuarded_intro;
      [ first [ done
              | by apply revealed_update; [keepsUnrevealed_tac|]
              | apply revealed_sheet ]
      | first [ done | by apply revealPending_other ]
      | first [ done | apply signals_log ] ]
  end.

Ltac guarded_auto :=
  repeat first [ apply checkForCompletion_guarded | keeps_step ];
  first [ done | guarded_goal ].

Lemma handleNo_guarded : keeps revealGuarded handleNo.
Proof. guarded_auto. Qed.
Lemma handleYes_guarded : keeps revealGuarded handleYes.
Proof. guarded_auto. Qed.
Lemma handlePenguinClick_guarded this id :
  keeps revealGuarded (handlePenguinClick this id).
Proof. guarded_auto. Qed.

Lemma runListener_guarded l : keeps revealGuarded (runListener l).
Proof.
  destruct l; [apply handleYes_guarded|apply handleNo_guarded
              |apply handlePenguinClick_guarded].
Qed.

Lemma revealed_visible p :
  revealed (set_document
    ((λ e, if bool_decide ("penguin-container" ∈ classList e)
           then classList_add "visible" e else e) <$> document p) p) →
  revealed p.
Proof.
  intros (e' & He' & Hin). simpl in He'. rewrite lookup_fmap in He'.
  apply fmap_Some in He' as (e & He & ->). exists e. split; [done|].
  case_bool_decide; [|done].
  by apply (keepsUnrevealed_classList_add "visible").
Qed.

Lemma activation_guarded : keeps revealGuarded activation.
Proof.
  repeat keeps_step; first [ done | guarded_goal | idtac ].
  match goal with Hp : revealGuarded _ |- _ => revert Hp end.
  apply revealGuarded_intro; [apply revealed_visible|done|done].
Qed.

Lemma console_reset_guarded : keeps revealGuarded console_reset.
Proof. guarded_auto. Qed.

(** Once signalled, always signalled: the console only grows. *)
Lemma runTask_signalled t :
  keeps (λ p, 1 ≤ completionSignals p)%nat (runTask t).
Proof.
  destruct t; keeps_auto; try done.
  all: try (etrans; [eassumption|apply signals_log]).
Qed.

Lemma step_guarded container p ev :
  revealGuarded p → revealGuarded (step container p ev).
Proof.
  intros Hp. destruct ev as [how id|k|]; simpl.
  - destruct (receives container how p id); [|done].
    apply (dispatchClick_keeps revealGuarded); [|done]. apply runListener_guarded.
  - destruct (timers p !! k) as [[d t]|] eqn:Hk; [|done].
    set (q := set_timers (delete k (timers p)) p).
    assert (revealGuarded q) as Hq.
    { revert Hp. apply revealGuarded_intro; [done|apply revealPending_gone|done]. }
    destruct t as [| |o|]; simpl.
    + by apply keeps_exec; [apply activation_guarded|].
    + intros _.
      apply (keeps_exec (λ p, 1 ≤ completionSignals p)%nat);
        [apply (runTask_signalled TaskReveal)|].
      apply Hp. right. exists d. by eapply list_elem_of_lookup_2.
    + revert Hq. by apply revealGuarded_intro.
    + done.
  - by apply keeps_exec; [apply console_reset_guarded|].
Qed.

Lemma pageLoad_guarded env :
  (∀ m, env_markup env !! "secretSection" = Some m → "revealed" ∉ m_classList m) →
  revealGuarded (pageLoad env).
Proof.
  intros Hm.
  assert (¬ revealed (pageLoad env) ∧ ¬ revealPending (pageLoad env)) as [Hr Ht].
  { unfold pageLoad, main_script.
    apply (keeps_exec (λ p, ¬ revealed p ∧ ¬ revealPending p)).
    - keeps_auto; try done.
      all: match goal with Hp : _ ∧ _ |- _ => destruct Hp as [Hr Ht] end.
      all: split; [|done]; intros Hq; apply Hr; revert Hq;
        first [ done | by apply revealed_update; [keepsUnrevealed_tac|] ].
    - split.
      + intros (e & He & Hin). simpl in He. rewrite lookup_fmap in He.
        apply fmap_Some in He as (m & He & ->). by apply (Hm m).
      + intros [d Hin]. by apply elem_of_nil in Hin. }
  intros [?|?]; done.
Qed.

(** X4. The secret section is revealed only after completion was
    signalled: unless the markup already carries the class, in no session
    does the secret section have the class [revealed], or a reveal wait on
    a timer, before the completion signal was given. *)
Theorem reveal_only_after_completion (env : Env) (evs : list Event) :
  (∀ m, env_markup env !! "secretSection" = Some m → "revealed" ∉ m_classList m) →
  revealed (session env evs) ∨ revealPending (session env evs) →
  (1 ≤ completionSignals (session env evs))%nat.
Proof.
  intros Hm.
  change (revealGuarded (session env evs)).
  unfold session, run. generalize (pageLoad_guarded env Hm). generalize (pageLoad env).
  induction evs as [|ev evs IH]; intros p Hp; simpl; [done|].
  by apply IH, step_guarded.
Qed.

End Reveal.

(** ** Accepting needs the intro section and the main content *)

Lemma gateBroken_ext p q : introHandler q = introHandler p → gateBroken p → gateBroken q.
Proof. unfold gateBroken. by intros ->. Qed.

Lemma gateBroken_intro p f :
  (∀ h, introSection (f h) = introSection h ∧ mainContent (f h) = mainContent h) →
  gateBroken p → gateBroken (set_introHandler (f <$> introHandler p) p).
Proof.
  intros Hf (h & Hh & Hb). exists (f h). simpl. rewrite Hh. split; [done|].
  destruct (Hf h) as [-> ->]. done.
Qed.

Section Broken.
Context `{Json}.

Lemma handleNo_broken : keeps gateBroken handleNo.
Proof.
  keeps_auto; first [ by apply gateBroken_intro | by eapply gateBroken_ext; [|eassumption] | done ].
Qed.

(** [handleYes] without one of its elements: the [TypeError] comes before
    the timer is set. *)
Lemma handleYes_broken ts p :
  gateStage ts p → gateBroken p →
  wp handleYes (λ _ _, False)
     (λ e p', e = TypeError ∧ gateStage ts p' ∧ gateBroken p') p.
Proof.
  intros Hp Hb. pose proof Hb as (h & Hh & Hnone).
  unfold handleYes. eapply wp_bind, wp_intro; [done|].
  apply wp_bind, wp_update; [|done]. intros id e Hid He.
  match goal with |- wp _ _ _ ?q => set (p1 := q) end.
  assert (gateStage ts p1 ∧ gateBroken p1) as [Hp1 Hb1]
    by (split; [by apply gateStage_update|done]).
  clearbody p1.
  apply wp_bind, wp_update; [|done]. intros id1 e1 Hid1 He1.
  match goal with |- wp _ _ _ ?q => set (p2 := q) end.
  assert (gateStage ts p2 ∧ gateBroken p2) as [Hp2 Hb2]
    by (split; [by apply gateStage_update|done]).
  clearbody p2.
  apply wp_bind, wp_update; [|done]. intros id2 e2 Hid2 He2.
  match goal with |- wp _ _ _ ?q => set (p3 := q) end.
  assert (gateStage ts p3 ∧ gateBroken p3) as [Hp3 Hb3]
    by (split; [by apply gateStage_update|done]).
  clearbody p3.
  apply wp_bind, wp_modify.
  match goal with |- wp _ _ _ ?q => set (p4 := q) end.
  assert (gateStage ts p4 ∧ gateBroken p4) as [Hp4 Hb4]
    by (split; [by apply (gateStage_ext _ p3)|done]).
  clearbody p4.
  destruct Hnone as [Hnone|Hnone]; [congruence|]. rewrite Hnone.
  apply wp_bind. unfold update, deref. by apply wp_bind, wp_throw.
Qed.

Lemma step_broken container p ev :
  gateUp p → gateBroken p →
  gateUp (step container p ev) ∧ gateBroken (step container p ev).
Proof.
  intros Hp Hb. pose proof Hp as (Hts & Htm & _ & _ & Hlok & Hwin & _).
  destruct ev as [how id|k|]; simpl.
  - destruct (receives container how p id); [|done].
    destruct (document p !! id) as [e|] eqn:He;
      [|unfold dispatchClick; by rewrite He].
    destruct (Hlok id e He) as [Hnil|(l & Hl & Hok)]; [done| |].
    { by rewrite (dispatchClick_none id p e). }
    rewrite (dispatchClick_one id p e l) by done.
    destruct l as [| |this x]; simpl.
    + pose proof (handleYes_broken [] p Hp Hb) as Hwp.
      unfold wp, exec in *. destruct (handleYes p) as [[[]|err] p']; [done|].
      by destruct Hwp as (_ & ? & ?).
    + split.
      * by apply keeps_exec; [apply handleNo_gateStage|].
      * by apply keeps_exec; [apply handleNo_broken|].
    + rewrite Hts in Hok. by destruct Hok as (_ & _ & _ & t & ? & _).
  - by rewrite Htm.
  - by rewrite exec_console_reset.
Qed.

Lemma wp_getElementById_eq id Q E p :
  Q (match document p !! id with Some _ => Some id | None => None end) p →
  wp (getElementById id) Q E p.
Proof.
  intros HQ. unfold getElementById. by apply wp_bind, wp_get, wp_ret.
Qed.

Lemma initIntro_broken : keeps gateBroken initIntro.
Proof. keeps_auto; first [ by eapply gateBroken_ext; [|eassumption] | done ]. Qed.

Lemma pageLoad_broken env :
  env_markup env !! "introSection" = None ∨ env_markup env !! "mainContent" = None →
  gateBroken (pageLoad env).
Proof.
  intros Hm.
  set (J := λ p : Page, document p !! "introSection" = None ∨
                        document p !! "mainContent" = None).
  assert (J (blankPage env)) as Hblank.
  { unfold J. simpl. rewrite !lookup_fmap. by destruct Hm as [-> | ->]; [left|right]. }
  unfold pageLoad, main_script, initPage. apply wp_exec, wp_bind.
  apply (wp_seq _ _ (λ _, J)).
  { unfold localStorage_removeItem, console_warn, console_log.
    repeat wp_step; done. }
  intros _ p Hp. apply wp_bind, wp_modify. unfold new_IntroHandler.
  apply wp_bind, wp_bind, wp_getElementById_eq.
  apply wp_bind, wp_getElementById_eq.
  apply wp_bind, wp_getElementById_eq.
  apply wp_bind, wp_getElementById_eq.
  apply wp_bind, wp_modify. simpl.
  match goal with |- wp _ _ _ ?q => set (p2 := q) end.
  assert (gateBroken p2) as Hp2.
  { eexists. split; [done|]. simpl. by destruct Hp as [-> | ->]; [left|right]. }
  clearbody p2.
  apply (wp_keeps gateBroken); [apply initIntro_broken|done| |done].
  intros _ p3 Hp3. unfold setupSmoothScroll. apply wp_ret.
  apply (wp_keeps gateBroken); [|done|done|done].
  keeps_auto; first [ by eapply gateBroken_ext; [|eassumption] | done ].
Qed.

(** X5. Accepting needs the intro section and the main content. If the
    markup lacks one of them, [handleYes] throws a [TypeError] before it
    sets its timer, whenever it is called: in no session is a timer
    pending or a tracker constructed, so the penguins are never wired. *)
Theorem broken_gate_never_activates (env : Env) (evs : list Event) :
  env_markup env !! "introSection" = None ∨ env_markup env !! "mainContent" = None →
  outcome handleYes (session env evs) = Throw TypeError ∧
  timers (session env evs) = [] ∧
  trackers (session env evs) = [] ∧
  ∀ id e l, document (session env evs) !! id = Some e → l ∈ clickListeners e →
            l = OnYes ∨ l = OnNo.
Proof.
  intros Hm.
  assert (gateUp (session env evs) ∧ gateBroken (session env evs)) as [Hp Hb].
  { unfold session, run.
    generalize (conj (pageLoad_gateUp env) (pageLoad_broken env Hm)).
    generalize (pageLoad env).
    induction evs as [|ev evs IH]; intros p [Hp Hb]; simpl; [done|].
    by apply IH, step_broken. }
  split_and!; [|apply Hp|apply Hp|].
  - pose proof (handleYes_broken [] _ Hp Hb) as Hwp.
    unfold wp, outcome in *.
    destruct (handleYes (session env evs)) as [[[]|err] p']; [done|].
    by destruct Hwp as (-> & _).
  - intros id e l He Hin. destruct Hp as (Hts & _ & _ & _ & Hlok & _).
    destruct (Hlok id e He) as [Hnil|(l' & Hl & Hok)]; [done| |].
    { rewrite Hnil in Hin. by apply elem_of_nil in Hin. }
    rewrite Hl in Hin. apply list_elem_of_singleton in Hin as ->.
    rewrite Hts in Hok. destruct l' as [| |this x]; auto.
    by destruct Hok as (_ & _ & _ & t & ? & _).
Qed.

End Broken.

(** ** The wiring of the gate *)

Lemma wp_update_present id f Q E p e :
  document p !! id = Some e →
  Q tt (set_document (<[id := f e]> (document p)) p) →
  wp (update (Some id) f) Q E p.
Proof.
  intros He HQ. unfold update, deref. apply wp_bind, wp_bind, wp_get. cbv beta.
  rewrite He. by apply wp_ret, wp_modify.
Qed.

Section Wiring.
Context `{Json}.

Lemma pageLoad_document env id :
  document (pageLoad env) !! id =
  (λ m, {| classList := m_classList m; textContent := m_textContent m;
           style := m_style m; clickListeners := loadedListeners env id |})
    <$> env_markup env !! id.
Proof.
  set (F := λ (ls : string → list Listener) (x : string),
         (λ m, {| classList := m_classList m; textContent := m_textContent m;
                  style := m_style m; clickListeners := ls x |})
           <$> env_markup env !! x).
  set (J := λ ls (p : Page), ∀ x, document p !! x = F ls x).
  assert (J (λ _, []) (blankPage env)) as Hblank.
  { intros x. unfold F. simpl. by rewrite lookup_fmap. }
  revert id. change (J (loadedListeners env) (pageLoad env)).
  unfold pageLoad, main_script, initPage. apply wp_exec, wp_bind.
  apply (wp_seq _ _ (λ _, J (λ _, []))).
  { unfold localStorage_removeItem, console_warn, console_log.
    repeat wp_step; done. }
  intros _ p Hp. apply wp_bind, wp_modify. unfold new_IntroHandler.
  apply wp_bind, wp_bind, wp_getElementById_eq.
  apply wp_bind, wp_getElementById_eq.
  apply wp_bind, wp_getElementById_eq.
  apply wp_bind, wp_getElementById_eq.
  apply wp_bind, wp_modify. simpl.
  rewrite !Hp. unfold F at 1 2 3 4.
  apply (wp_mono initIntro (λ _, J (loadedListeners env)) _
                            (λ _, J (loadedListeners env))); [| |done].
  2: { intros [] p3 Hp3. unfold setupSmoothScroll. apply wp_ret.
       apply (wp_keeps (J (loadedListeners env))); [|done|done|done].
       keeps_auto; done. }
  unfold initIntro. eapply wp_bind, wp_intro; [done|]. simpl.
  unfold loadedListeners, gateWired.
  destruct (env_markup env !! "btnYes") as [my|] eqn:Hy; simpl.
  2: { apply wp_ret. exact Hp. }
  destruct (env_markup env !! "btnNo") as [mn|] eqn:Hn; simpl.
  2: { apply wp_ret. exact Hp. }
  eapply wp_bind, wp_update_present.
  { simpl. rewrite Hp. unfold F. by rewrite Hy. }
  eapply wp_update_present.
  { simpl. rewrite lookup_insert_ne by done. rewrite Hp. unfold F. by rewrite Hn. }
  intros x. simpl.
  destruct (decide (x = "btnNo")) as [->|Hxn].
  { rewrite lookup_insert_eq. unfold F. by rewrite Hn. }
  rewrite lookup_insert_ne by done.
  destruct (decide (x = "btnYes")) as [->|Hxy].
  { rewrite lookup_insert_eq. unfold F. by rewrite Hy. }
  rewrite lookup_insert_ne by done. rewrite Hp. unfold F.
  by rewrite !bool_decide_eq_false_2.
Qed.

(** X6. Loading the page leaves the elements of the markup as they are and
    wires the gate: the accept control gets [handleYes] and the decline
    control [handleNo] if both are in the markup; if one of them is
    missing, no element gets a listener. *)
Theorem load_wires_the_gate (env : Env) (id : string) :
  document (pageLoad env) !! id =
  (λ m, {| classList := m_classList m; textContent := m_textContent m;
           style := m_style m; clickListeners := loadedListeners env id |})
    <$> env_markup env !! id.
Proof. apply pageLoad_document. Qed.

Lemma step_inert container env ev :
  gateWired env = false → step container (pageLoad env) ev = pageLoad env.
Proof.
  intros Hw. destruct ev as [how id|k|]; simpl.
  - destruct (receives container how (pageLoad env) id); [|done].
    destruct (document (pageLoad env) !! id) as [e|] eqn:He;
      [|unfold dispatchClick; by rewrite He].
    apply (dispatchClick_none id _ e He).
    rewrite pageLoad_document in He.
    apply fmap_Some in He as (m & _ & ->). simpl.
    unfold loadedListeners. by rewrite Hw.
  - by destruct (pageLoad_gateUp env) as (_ & -> & _).
  - apply exec_console_reset, pageLoad_gateUp.
Qed.

(** X7. With one control of the gate missing from the markup the page is
    inert: no click, timer or console command changes anything, in
    particular the control that is there does nothing. *)
Theorem unwired_gate_is_inert (env : Env) (evs : list Event) :
  gateWired env = false → session env evs = pageLoad env.
Proof.
  intros Hw. unfold session, run.
  induction evs as [|ev evs IH]; simpl; [done|].
  by rewrite step_inert.
Qed.

End Wiring.

(** ** What a click on a penguin does *)

Lemma universe_not_display x :
  x ∈ universe →
  x ≠ "penguinCount" ∧ x ≠ "penguinCounter" ∧ x ≠ "penguinFeedbackStyle".
Proof.
  intros Hx. split_and!; intros ->; revert Hx;
    apply (bool_decide_unpack _); by vm_compute.
Qed.

Ltac lookups :=
  repeat first [ rewrite lookup_insert_eq | rewrite lookup_insert_ne by done ].

Section ClickEffect.
Context `{Json}.

(** Saving touches the store and, when it fails, the console. *)
Lemma saveProgress_frame this (Q : Page → Prop) E p :
  (∀ p', document p' = document p → trackers p' = trackers p →
         overlays p' = overlays p → timers p' = timers p →
         completionSignals p' = completionSignals p → introHandler p' = introHandler p →
         Q p') →
  wp (saveProgress this) (λ _, Q) E p.
Proof.
  intros HQ. unfold saveProgress, tracker, localStorage_setItem, console_warn, console_log.
  repeat wp_step; simpl; apply HQ; try done.
  all: unfold completionSignals; simpl; rewrite filter_app, filter_cons_False by done;
    by rewrite filter_nil, app_nil_r.
Qed.

Lemma handlePenguinClick_wp p this id t e :
  id ∈ universe → trackers p !! this = Some t → document p !! id = Some e →
  let found' := JsSet.add (foundPenguins t) (JStr id) in
  let complete := bool_decide (JsSet.size found' = length (penguinIds t)) in
  wp (handlePenguinClick this id)
    (λ _ p',
       trackers p' =
         <[this := {| penguinIds := penguinIds t;
                      penguinHandlers := delete id (penguinHandlers t);
                      foundPenguins := found' |}]> (trackers p) ∧
       document p' !! id =
         Some (classList_add "found"
                 (match penguinHandlers t !! id with
                  | Some l => removeEventListener l
                  | None => λ e, e
                  end (classList_add "penguin-found-animation" e))) ∧
       document p' !! "penguinCount" =
         set_textContent (pretty (JsSet.size found')) <$> document p !! "penguinCount" ∧
       document p' !! "penguinCounter" =
         classList_add "show" <$> document p !! "penguinCounter" ∧
       overlays p' = overlays p ++ [FoundNotification] ∧
       timers p' = timers p ++ (2000, TaskRemove FoundNotification) ::
                     (if complete then [(300, TaskReveal)] else []) ∧
       completionSignals p' =
         (completionSignals p + (if complete then 1 else 0))%nat)
    (λ _ _, False) p.
Proof.
  intros Hid Ht He found' complete.
  destruct (universe_not_display id Hid) as (Hn1 & Hn2 & Hn3).
  assert (this < length (trackers p))%nat as Hthis by (by eapply lookup_lt_Some).
  unfold handlePenguinClick.
  apply wp_bind. unfold update_tracker at 1. apply wp_modify.
  set (t1 := set_foundPenguins found' t).
  match goal with |- wp _ _ _ ?q => set (p1 := q) end.
  assert (trackers p1 = <[this := t1]> (trackers p)) as Hts1.
  { unfold p1. simpl. apply list_eq. intros i.
    destruct (decide (i = this)) as [->|Hne].
    - rewrite list_lookup_alter, decide_True, Ht by done.
      by rewrite list_lookup_insert_eq.
    - by rewrite list_lookup_alter_ne, list_lookup_insert_ne. }
  assert (document p1 = document p ∧ overlays p1 = overlays p ∧
          timers p1 = timers p ∧ completionSignals p1 = completionSignals p)
    as (Hd1 & Ho1 & Htm1 & Hs1) by done.
  clearbody p1.
  apply wp_bind, saveProgress_frame. intros p2 Hd2 Hts2 Ho2 Htm2 Hs2 _.
  rewrite Hd1 in Hd2. rewrite Hts1 in Hts2. rewrite Ho1 in Ho2.
  rewrite Htm1 in Htm2. rewrite Hs1 in Hs2. clear dependent p1.
  assert (trackers p2 !! this = Some t1) as Ht2
    by (rewrite Hts2; by apply list_lookup_insert_eq).
  apply wp_bind, (wp_tracker this t1); [done|].
  apply wp_bind. unfold console_log at 1. apply wp_modify.
  apply wp_bind, getElementById_present; [simpl; rewrite Hd2; eauto|].
  apply wp_bind. unfold createCelebrationEffect, deref.
  apply wp_bind, wp_bind, wp_get. cbv beta. simpl. rewrite Hd2, He.
  apply wp_ret. eapply wp_update_present; [simpl; by rewrite Hd2|].
  set (e1 := classList_add "penguin-found-animation" e).
  apply wp_bind, (wp_tracker this t1); [done|].
  change (penguinHandlers t1) with (penguinHandlers t).
  set (e2 := match penguinHandlers t !! id with
             | Some l => removeEventListener l
             | None => λ e, e
             end e1).
  set (t2 := {| penguinIds := penguinIds t;
                penguinHandlers := delete id (penguinHandlers t);
                foundPenguins := found' |}).
  match goal with |- wp (?m ≫= ?k) ?Q ?E ?q =>
    apply (wp_seq m k (λ _ q',
      trackers q' = <[this := t2]> (trackers p) ∧
      document q' = <[id := e2]> (document p) ∧
      overlays q' = overlays p ∧ timers q' = timers p ∧
      completionSignals q' = completionSignals p)) end.
  { destruct (penguinHandlers t !! id) as [l|] eqn:Hl.
    - apply wp_bind. eapply wp_update_present; [simpl; apply lookup_insert_eq|].
      unfold update_tracker. apply wp_modify. simpl.
      split_and!; try done.
      + rewrite Hts2. apply list_eq. intros i.
        destruct (decide (i = this)) as [->|Hne].
        * rewrite list_lookup_alter, decide_True by done.
          rewrite !list_lookup_insert_eq by (by rewrite ?length_insert). done.
        * by rewrite list_lookup_alter_ne, !list_lookup_insert_ne.
      + by rewrite Hd2, insert_insert_eq.
      + unfold completionSignals in *. simpl. rewrite filter_app, length_app.
        rewrite filter_cons_False by done. simpl. lia.
    - apply wp_ret. simpl. split_and!; try done.
      + rewrite Hts2. unfold t2. by rewrite delete_id.
      + by rewrite Hd2.
      + unfold completionSignals in *. simpl. rewrite filter_app, length_app.
        rewrite filter_cons_False by done. simpl. lia. }
  intros _ p3 (Hts3 & Hd3 & Ho3 & Htm3 & Hs3).
  set (e3 := classList_add "found" e2).
  assert (trackers p3 !! this = Some t2) as Ht3
    by (rewrite Hts3; by apply list_lookup_insert_eq).
  assert (0 < JsSet.size found')%nat as Hpos.
  { unfold found', JsSet.add, JsSet.size.
    destruct (JsSet.has (foundPenguins t) (JStr id)) eqn:Hhas.
    - destruct (foundPenguins t); [done|simpl; lia].
    - rewrite length_app. simpl. lia. }
  apply wp_bind. unfold disablePenguinInteraction.
  eapply wp_update_present; [rewrite Hd3; apply lookup_insert_eq|].
  match goal with |- wp (?m ≫= ?k) ?Q ?E ?q =>
    apply (wp_seq m k (λ _ q',
      trackers q' = <[this := t2]> (trackers p) ∧
      document q' !! id = Some e3 ∧
      document q' !! "penguinCount" =
        set_textContent (pretty (JsSet.size found')) <$> document p !! "penguinCount" ∧
      document q' !! "penguinCounter" =
        classList_add "show" <$> document p !! "penguinCounter" ∧
      overlays q' = overlays p ∧ timers q' = timers p ∧
      completionSignals q' = completionSignals p)) end.
  { unfold updateDisplay. apply wp_bind, (wp_tracker this t2); [done|].
    change (foundPenguins t2) with found'.
    unfold updatePenguinCountDisplay, showPenguinCounter.
    apply wp_bind, wp_bind, wp_getElementById_eq. simpl.
    rewrite Hd3, !lookup_insert_ne by done.
    rewrite insert_insert_eq.
    rewrite bool_decide_eq_true_2 by done.
    destruct (document p !! "penguinCount") as [c|] eqn:Hc; simpl.
    - eapply wp_bind, wp_update_present;
        [simpl; rewrite lookup_insert_ne by done; exact Hc|].
      apply wp_bind, wp_getElementById_eq. simpl.
      rewrite !lookup_insert_ne by done.
      destruct (document p !! "penguinCounter") as [c'|] eqn:Hc'; simpl.
      + eapply wp_update_present;
          [simpl; by rewrite !lookup_insert_ne by done|].
        simpl. lookups. by rewrite ?Hc, ?Hc'.
      + apply wp_ret. simpl. lookups. by rewrite ?Hc, ?Hc'.
    - apply wp_bind, wp_ret, wp_bind, wp_getElementById_eq. simpl.
      rewrite !lookup_insert_ne by done.
      destruct (document p !! "penguinCounter") as [c'|] eqn:Hc'; simpl.
      + eapply wp_update_present; [simpl; by rewrite !lookup_insert_ne by done|].
        simpl. lookups. by rewrite ?Hc, ?Hc'.
      + apply wp_ret. simpl. lookups. by rewrite ?Hc, ?Hc'. }
  intros _ p4 (Hts4 & Hid4 & Hc4 & Hcc4 & Ho4 & Htm4 & Hs4).
  match goal with |- wp (?m ≫= ?k) ?Q ?E ?q =>
    apply (wp_seq m k (λ _ q',
      trackers q' = <[this := t2]> (trackers p) ∧
      document q' !! id = Some e3 ∧
      document q' !! "penguinCount" =
        set_textContent (pretty (JsSet.size found')) <$> document p !! "penguinCount" ∧
      document q' !! "penguinCounter" =
        classList_add "show" <$> document p !! "penguinCounter" ∧
      overlays q' = overlays p ++ [FoundNotification] ∧
      timers q' = timers p ++ [(2000, TaskRemove FoundNotification)] ∧
      completionSignals q' = completionSignals p)) end.
  { unfold showPenguinFoundFeedback, setTimeout.
    apply wp_bind, wp_modify, wp_bind, wp_bind, wp_getElementById_eq. simpl.
    destruct (document p4 !! "penguinFeedbackStyle"); simpl.
    - apply wp_modify. cbv beta.
      split_and!; simpl; rewrite ?Ho4, ?Htm4; done.
    - apply wp_modify. cbv beta.
      split_and!; simpl; lookups; rewrite ?Ho4, ?Htm4; done. }
  intros _ p5 (Hts5 & Hid5 & Hc5 & Hcc5 & Ho5 & Htm5 & Hs5).
  unfold checkForCompletion.
  assert (trackers p5 !! this = Some t2) as Ht5
    by (rewrite Hts5; by apply list_lookup_insert_eq).
  apply wp_bind, (wp_tracker this t2); [done|].
  apply wp_bind. unfold console_log at 1. apply wp_modify.
  apply wp_when. change (foundPenguins t2) with found'.
  change (penguinIds t2) with (penguinIds t). fold complete.
  assert (completionSignals
            (set_console (console p5 ++ [LogChecking (JsSet.size found')
                                           (length (penguinIds t))]) p5) =
          completionSignals p) as Hs6.
  { unfold completionSignals in *. simpl.
    by rewrite filter_app, filter_cons_False, filter_nil, app_nil_r. }
  destruct complete.
  - unfold console_log, allPenguinsFound, setTimeout.
    apply wp_bind, wp_modify, wp_modify. simpl.
    split_and!; try done.
    + rewrite Htm5, <- app_assoc. done.
    + unfold completionSignals in *. simpl in *.
      rewrite filter_app, length_app, Hs6. done.
  - simpl. split_and!; try done. lia.
Qed.

(** X8. A click handled for a penguin of the universe whose element is in
    the document: the call completes normally; the id is in the set and
    the penguin's handler is gone from the tracker; the element has lost
    that listener and carries the classes [penguin-found-animation] and
    [found]; the count element, if there is one, shows the size of the
    set, and the counter, if there is one, is shown; one notification is
    on the page with its removal timer; and completion is signalled, with
    the reveal scheduled, exactly if the set now has as many members as
    there are penguins. *)
Theorem penguin_click_effect (p : Page) (this : nat) (id : string)
    (t : PenguinTracker) (e : Element) :
  id ∈ universe → trackers p !! this = Some t → document p !! id = Some e →
  let p' := exec (handlePenguinClick this id) p in
  let found' := JsSet.add (foundPenguins t) (JStr id) in
  let complete := bool_decide (JsSet.size found' = length (penguinIds t)) in
  outcome (handlePenguinClick this id) p = Normal tt ∧
  trackers p' =
    <[this := {| penguinIds := penguinIds t;
                 penguinHandlers := delete id (penguinHandlers t);
                 foundPenguins := found' |}]> (trackers p) ∧
  document p' !! id =
    Some (classList_add "found"
            (match penguinHandlers t !! id with
             | Some l => removeEventListener l
             | None => λ e, e
             end (classList_add "penguin-found-animation" e))) ∧
  document p' !! "penguinCount" =
    set_textContent (pretty (JsSet.size found')) <$> document p !! "penguinCount" ∧
  document p' !! "penguinCounter" =
    classList_add "show" <$> document p !! "penguinCounter" ∧
  overlays p' = overlays p ++ [FoundNotification] ∧
  timers p' = timers p ++ (2000, TaskRemove FoundNotification) ::
                (if complete then [(300, TaskReveal)] else []) ∧
  completionSignals p' = (completionSignals p + (if complete then 1 else 0))%nat.
Proof.
  intros Hid Ht He p' found' complete.
  destruct (wp_nothrow _ _ _ (handlePenguinClick_wp p this id t e Hid Ht He))
    as ([] & Hout & Hpost).
  split; [done|]. exact Hpost.
Qed.

(** A click handled for an id that has no element ends in a [TypeError]
    after the find was logged; the page apart from the tracker, the store
    and the console is as before. *)
Lemma click_without_element (p : Page) (this : nat) (id : string)
    (t : PenguinTracker) :
  trackers p !! this = Some t → document p !! id = None →
  let p' := exec (handlePenguinClick this id) p in
  outcome (handlePenguinClick this id) p = Throw TypeError ∧
  trackers p' =
    <[this := set_foundPenguins (JsSet.add (foundPenguins t) (JStr id)) t]>
      (trackers p) ∧
  document p' = document p ∧ overlays p' = overlays p ∧ timers p' = timers p ∧
  completionSignals p' = completionSignals p ∧
  last (console p') =
    Some (LogFound id (JsSet.size (JsSet.add (foundPenguins t) (JStr id)))).
Proof.
  intros Ht He p'.
  set (post := λ (err : JsError) (q : Page),
         err = TypeError ∧
         trackers q =
           <[this := set_foundPenguins (JsSet.add (foundPenguins t) (JStr id)) t]>
             (trackers p) ∧
         document q = document p ∧ overlays q = overlays p ∧ timers q = timers p ∧
         completionSignals q = completionSignals p ∧
         last (console q) =
           Some (LogFound id (JsSet.size (JsSet.add (foundPenguins t) (JStr id))))).
  assert (wp (handlePenguinClick this id) (λ _ _, False) post p) as Hwp.
  { assert (this < length (trackers p))%nat as Hthis by (by eapply lookup_lt_Some).
    unfold handlePenguinClick.
    apply wp_bind. unfold update_tracker at 1. apply wp_modify.
    set (t1 := set_foundPenguins (JsSet.add (foundPenguins t) (JStr id)) t).
    match goal with |- wp _ _ _ ?q => set (p1 := q) end.
    assert (trackers p1 = <[this := t1]> (trackers p)) as Hts1.
    { unfold p1. simpl. apply list_eq. intros i.
      destruct (decide (i = this)) as [->|Hne].
      - rewrite list_lookup_alter, decide_True, Ht by done.
        by rewrite list_lookup_insert_eq.
      - by rewrite list_lookup_alter_ne, list_lookup_insert_ne. }
    assert (document p1 = document p ∧ overlays p1 = overlays p ∧
            timers p1 = timers p ∧ completionSignals p1 = completionSignals p)
      as (Hd1 & Ho1 & Htm1 & Hs1) by done.
    clearbody p1.
    apply wp_bind, saveProgress_frame. intros p2 Hd2 Hts2 Ho2 Htm2 Hs2 _.
    assert (trackers p2 !! this = Some t1) as Ht2.
    { rewrite Hts2, Hts1. by apply list_lookup_insert_eq. }
    apply wp_bind, (wp_tracker this t1); [done|].
    apply wp_bind. unfold console_log at 1. apply wp_modify.
    apply wp_bind, wp_getElementById_eq. simpl. rewrite Hd2, Hd1, He.
    apply wp_bind. unfold createCelebrationEffect, deref.
    apply wp_bind, wp_throw. unfold post. simpl.
    split_and!; try (unfold t1 in *; congruence).
    - unfold completionSignals in *. simpl.
      rewrite filter_app, filter_cons_False, filter_nil, app_nil_r by done.
      congruence.
    - by rewrite last_snoc. }
  unfold wp, outcome, p', exec in *.
  destruct (handlePenguinClick this id p) as [[[]|err] q]; [done|].
  by destruct Hwp as (-> & ?).
Qed.

End ClickEffect.

(** ** The added properties on the demo page *)

Lemma reveal_only_after_completion_witness :
  let p := @session StringArrayJson.json demoEnv
             [Activate Pointer "btnYes"; TimerFires 0;
              Activate Pointer "penguin4"; Activate Pointer "penguin1";
              Activate Pointer "penguin5"; Activate Pointer "penguin2";
              Activate Pointer "penguin3"; TimerFires 5] in
  revealed p ∧ (1 ≤ completionSignals p)%nat.
Proof.
  intros p.
  assert (revealed p) as Hr.
  { eexists. split; [vm_compute; reflexivity|].
    apply (bool_decide_unpack _). vm_compute. exact I. }
  split; [exact Hr|].
  apply (@reveal_only_after_completion StringArrayJson.json demoEnv
           [Activate Pointer "btnYes"; TimerFires 0;
            Activate Pointer "penguin4"; Activate Pointer "penguin1";
            Activate Pointer "penguin5"; Activate Pointer "penguin2";
            Activate Pointer "penguin3"; TimerFires 5]).
  - intros m Hm. apply (bool_decide_unpack _).
    destruct (env_markup demoEnv !! "secretSection") as [m'|] eqn:Hm';
      [|discriminate].
    injection Hm as <-. vm_compute in Hm'. injection Hm' as <-.
    vm_compute. exact I.
  - left. exact Hr.
Defined.

Lemma broken_gate_never_activates_witness :
  let p := @session StringArrayJson.json brokenEnv
             [Activate Pointer "btnYes"; TimerFires 0; Activate Pointer "penguin1"] in
  outcome handleYes p = Throw TypeError ∧
  timers p = [] ∧ trackers p = [].
Proof.
  intros p.
  destruct (@broken_gate_never_activates StringArrayJson.json brokenEnv
              [Activate Pointer "btnYes"; TimerFires 0; Activate Pointer "penguin1"])
    as (Hout & Htm & Hts & _).
  - right. by vm_compute.
  - by split_and!.
Defined.

Lemma unwired_gate_is_inert_witness :
  @session StringArrayJson.json loneYesEnv
    [Activate Pointer "btnYes"; TimerFires 0; Activate Pointer "penguin1"] =
  @pageLoad StringArrayJson.json loneYesEnv.
Proof.
  apply (@unwired_gate_is_inert StringArrayJson.json loneYesEnv).
  by vm_compute.
Defined.

Lemma penguin_click_effect_witness :
  let t := {| penguinIds := universe; penguinHandlers := ∅;
              foundPenguins :=
                JStr <$> ["penguin1"; "penguin2"; "penguin3"; "penguin4"] |} in
  let p := set_trackers [t] (@pageLoad StringArrayJson.json demoEnv) in
  outcome (demoClick "penguin5") p = Normal tt ∧
  timers (exec (demoClick "penguin5") p) =
    [(2000, TaskRemove FoundNotification); (300, TaskReveal)] ∧
  completionSignals (exec (demoClick "penguin5") p) = 1%nat.
Proof.
  intros t p.
  destruct (@penguin_click_effect StringArrayJson.json p 0 "penguin5" t
              {| classList := []; textContent := ""; style := ∅;
                 clickListeners := [] |})
    as (Hout & _ & _ & _ & _ & _ & Htm & Hs).
  - apply (bool_decide_unpack _). by vm_compute.
  - reflexivity.
  - by vm_compute.
  - split; [exact Hout|]. split; [exact Htm|exact Hs].
Defined.

(** ** The thresholds of the scale *)

Lemma ltb_add_three_tenths (c x : float) mc ec :
  Prim2SF c = S754_finite false mc ec → scaleOk x →
  (c <? x)%float = true → (c <? x + three_tenths)%float = true.
Proof.
  unfold scaleOk. intros Hc Hx.
  rewrite !ltb_spec, add_spec, Binary64.three_tenths_spec, Hc.
  pose proof (Prim2SF_valid x) as Hvalid.
  destruct (Prim2SF x) as [s|[|]| |[|] mx ex]; try contradiction.
  - done.
  - pose proof (Binary64.add_three_tenths_mono mx ex Hvalid Hx) as Hadd.
    unfold SF64add, prec, emax.
    destruct (SFadd 53 1024 (S754_finite false mx ex)
                (S754_finite false 5404319552844595 (-54)))
      as [s|[|]| |[|] m' e']; try contradiction; [done|].
    unfold SFltb, SFcompare.
    change (Pos.compare_cont Eq mc mx) with (Pos.compare mc mx).
    change (Pos.compare_cont Eq mc m') with (Pos.compare mc m').
    destruct (Z.compare_spec ec ex) as [->|Hlt|Hgt]; [|intros _|done].
    + destruct (Pos.compare_spec mc mx) as [?|Hm|?]; [done| |done]. intros _.
      destruct Hadd as [Hlt|[-> Hle]].
      * apply Z.compare_lt_iff in Hlt. by rewrite Hlt.
      * rewrite Z.compare_refl.
        destruct (Pos.compare_spec mc m') as [->|?|Hgt]; [lia|done|lia].
    + destruct Hadd as [Hlt'|[-> Hle]].
      * assert (ec < e')%Z as Hlt'' by lia.
        apply Z.compare_lt_iff in Hlt''. by rewrite Hlt''.
      * apply Z.compare_lt_iff in Hlt. by rewrite Hlt.
Qed.

Lemma scaleAfter_ok n : scaleOk (scaleAfter n).
Proof.
  induction n as [|n IH]; [apply Binary64.scale_one|].
  by apply Binary64.add_three_tenths.
Qed.

Lemma scaleAfter_above (c : float) mc ec n0 n :
  Prim2SF c = S754_finite false mc ec →
  (c <? scaleAfter n0)%float = true → (n0 ≤ n)%nat →
  (c <? scaleAfter n)%float = true.
Proof.
  intros Hc H0 Hn. induction Hn as [|n Hn IH]; [done|].
  simpl. eapply ltb_add_three_tenths; [done|apply scaleAfter_ok|done].
Qed.

Lemma scaleAfter_below (c : float) n0 n :
  forallb (λ k, negb (c <? scaleAfter k)%float) (seq 0 n0) = true →
  (n < n0)%nat → (c <? scaleAfter n)%float = false.
Proof.
  intros Hall Hn. rewrite forallb_forall in Hall.
  apply negb_true_iff, Hall, in_seq. lia.
Qed.

Lemma scale_passes_4 n : (4 <? scaleAfter n)%float = bool_decide (11 ≤ n)%nat.
Proof.
  destruct (decide (11 ≤ n)%nat) as [Hn|Hn].
  - rewrite bool_decide_eq_true_2 by done.
    by apply (scaleAfter_above 4 4503599627370496 (-50) 11).
  - rewrite bool_decide_eq_false_2 by done.
    apply (scaleAfter_below 4 11); [by vm_compute|lia].
Qed.

Lemma scale_passes_10 n : (10 <? scaleAfter n)%float = bool_decide (30 ≤ n)%nat.
Proof.
  destruct (decide (30 ≤ n)%nat) as [Hn|Hn].
  - rewrite bool_decide_eq_true_2 by done.
    by apply (scaleAfter_above 10 5629499534213120 (-49) 30).
  - rewrite bool_decide_eq_false_2 by done.
    apply (scaleAfter_below 10 30); [by vm_compute|lia].
Qed.

(** ** The stages of the decline control *)

Section Decline.
Context `{Json}.

Lemma gate_update_yes h eY eN f (Q : unit → Page → Prop) E p :
  gatePage h eY eN p →
  (∀ p', gatePage h (f eY) eN p' → Q tt p') →
  wp (update (Some "btnYes") f) Q E p.
Proof.
  intros (Hh & Hy & Hn) HQ. eapply wp_update_present; [exact Hy|].
  apply HQ. split_and!; simpl; [done|apply lookup_insert_eq|].
  by rewrite lookup_insert_ne.
Qed.

Lemma gate_update_no h eY eN f (Q : unit → Page → Prop) E p :
  gatePage h eY eN p →
  (∀ p', gatePage h eY (f eN) p' → Q tt p') →
  wp (update (Some "btnNo") f) Q E p.
Proof.
  intros (Hh & Hy & Hn) HQ. eapply wp_update_present; [exact Hn|].
  apply HQ. split_and!; simpl; [done| |apply lookup_insert_eq].
  by rewrite lookup_insert_ne.
Qed.

Lemma gate_update_intro h eY eN f (Q : unit → Page → Prop) E p :
  gatePage h eY eN p →
  (∀ p', gatePage (f h) eY eN p' → Q tt p') →
  wp (update_intro f) Q E p.
Proof.
  intros (Hh & Hy & Hn) HQ. unfold update_intro. apply wp_modify, HQ.
  split_and!; simpl; [by rewrite Hh|done|done].
Qed.

Lemma gate_intro h eY eN (Q : IntroHandler → Page → Prop) E p :
  gatePage h eY eN p → Q h p → wp intro Q E p.
Proof. intros (Hh & _) HQ. by eapply wp_intro. Qed.

Ltac gate_step :=
  lazymatch goal with
  | |- wp (update_intro _) _ _ _ =>
      eapply gate_update_intro; [eassumption|]; intros ? ?
  | |- wp intro _ _ _ => eapply gate_intro; [eassumption|]
  | |- wp (update (Some "btnYes") _) _ _ _ =>
      eapply gate_update_yes; [eassumption|]; intros ? ?
  | |- wp (update (Some "btnNo") _) _ _ _ =>
      eapply gate_update_no; [eassumption|]; intros ? ?
  | |- wp (_ ≫= _) _ _ _ => apply wp_bind
  end.

(** One call of [handleNo], in full: what it leaves of the handler and of
    the two controls. *)
Lemma handleNo_exact h eY eN p :
  btnYes h = Some "btnYes" → btnNo h = Some "btnNo" → gatePage h eY eN p →
  let n' := S (noClickCount h) in
  let s' := (yesScale h + three_tenths)%float in
  let eN1 := if bool_decide (n' ≤ length (noMessages h))%nat
             then set_textContent
                    (text_of (array_get (noMessages h) (n' - 1))) eN
             else eN in
  let eN2 := if (4 <? s')%float
             then style_set "cursor" (CssText "not-allowed")
                    (style_set "pointerEvents" (CssText "none")
                       (style_set "opacity" (CssText "0.3") eN1))
             else eN1 in
  let eY1 := classList_add "growing"
               (style_set "zIndex" (CssText "11")
                  (style_set "transform" (CssScale s') eY)) in
  let eY2 := style_set "transform" (CssScale 1)
               (style_set "margin" (CssText "0")
               (style_set "zIndex" (CssText "9999")
               (style_set "fontSize" (CssText "4rem")
               (style_set "borderRadius" (CssText "0")
               (style_set "height" (CssText "100%")
               (style_set "width" (CssText "100%")
               (style_set "left" (CssText "0")
               (style_set "top" (CssText "0")
               (style_set "position" (CssText "fixed") eY1))))))))) in
  wp handleNo
     (λ _ p', gatePage (set_yesScale s' (set_noClickCount n' h))
                (if (10 <? s')%float then eY2 else eY1)
                (if (10 <? s')%float
                 then style_set "display" (CssText "none") eN2 else eN2) p')
     (λ _ _, False) p.
Proof.
  intros Hyes Hno Hp n' s' eN1 eN2 eY1 eY2. unfold handleNo.
  do 4 gate_step. simpl. rewrite Hno.
  fold n'.
  assert (∀ (Q : unit → Page → Prop) q,
            gatePage (set_noClickCount n' h) eY eN q →
            (∀ q', gatePage (set_noClickCount n' h) eY eN1 q' → Q tt q') →
            wp (when (bool_decide (n' ≤ length (noMessages h))%nat)
                  (update (Some "btnNo")
                     (set_textContent
                        (text_of (array_get (noMessages h) (n' - 1))))))
               Q (λ _ _, False) q) as Htext.
  { intros Q q Hq HQ. unfold eN1 in HQ.
    destruct (bool_decide (n' ≤ length (noMessages h))%nat); simpl.
    - gate_step. by apply HQ.
    - by apply wp_ret, HQ. }
  gate_step. apply Htext; [done|]. intros q1 Hq1.
  do 4 gate_step.
  cbn [btnYes btnNo yesScale noClickCount set_yesScale set_noClickCount] in *.
  rewrite Hno, Hyes. fold s'.
  match goal with Hq : gatePage _ eY eN1 _ |- _ => fold s' in Hq end.
  do 6 gate_step.
  match goal with Hq : gatePage _ _ eN1 ?q |- wp _ _ _ ?q => fold eY1 in Hq end.
  assert (∀ (Q : unit → Page → Prop) q,
            gatePage (set_yesScale s' (set_noClickCount n' h)) eY1 eN1 q →
            (∀ q', gatePage (set_yesScale s' (set_noClickCount n' h)) eY1 eN2 q' →
                   Q tt q') →
            wp (when (4 <? s')%float
                  (update (Some "btnNo") (style_set "opacity" (CssText "0.3"));;
                   update (Some "btnNo") (style_set "pointerEvents" (CssText "none"));;
                   update (Some "btnNo") (style_set "cursor" (CssText "not-allowed"))))
               Q (λ _ _, False) q) as Hdim.
  { intros Q q Hq HQ. unfold eN2 in HQ.
    destruct (4 <? s')%float; simpl.
    - do 5 gate_step. by apply HQ.
    - by apply wp_ret, HQ. }
  gate_step. apply Hdim; [done|]. intros q2 Hq2.
  destruct (10 <? s')%float; simpl.
  - unfold makeYesOnlyOption. do 2 gate_step. simpl. rewrite Hno, Hyes.
    do 21 gate_step. done.
  - by apply wp_ret.
Qed.

Lemma pageLoad_messages env h :
  introHandler (pageLoad env) = Some h →
  noMessages h = ["No"; "Are you sure??"; "Really sure??"; "Positive??";
                  "I'll be really sad..."; "Please? 💔"].
Proof.
  set (msgs := ["No"; "Are you sure??"; "Really sure??"; "Positive??";
                "I'll be really sad..."; "Please? 💔"]).
  set (R := λ p : Page, ∀ h, introHandler p = Some h → noMessages h = msgs).
  revert h. change (R (pageLoad env)).
  unfold pageLoad, main_script, initPage. apply wp_exec, wp_bind.
  apply (wp_seq _ _ (λ _ _, True)).
  { unfold localStorage_removeItem, console_warn, console_log.
    repeat wp_step; done. }
  intros _ p _. apply wp_bind, wp_modify. unfold new_IntroHandler.
  apply wp_bind, wp_bind, wp_getElementById_eq.
  apply wp_bind, wp_getElementById_eq.
  apply wp_bind, wp_getElementById_eq.
  apply wp_bind, wp_getElementById_eq.
  apply wp_bind, wp_modify.
  apply (wp_keeps R).
  - keeps_auto; simpl; done.
  - intros h. simpl. by intros [= <-].
  - intros [] p' Hp'. unfold setupSmoothScroll. by apply wp_ret.
  - done.
Qed.

(** The gate after [n] calls of [handleNo] on a page whose markup has both
    controls. *)
Lemma declines_stage env n mYes mNo :
  env_markup env !! "btnYes" = Some mYes → env_markup env !! "btnNo" = Some mNo →
  ∃ h eYes eNo,
    gatePage h eYes eNo (declines n (pageLoad env)) ∧
    (btnYes h = Some "btnYes" ∧ btnNo h = Some "btnNo") ∧
    noMessages h = ["No"; "Are you sure??"; "Really sure??"; "Positive??";
                    "I'll be really sad..."; "Please? 💔"] ∧
    noClickCount h = n ∧ yesScale h = scaleAfter n ∧
    textContent eNo =
      match n with
      | 0 => m_textContent mNo
      | S _ => text_of (array_get (noMessages h) (Nat.min n 6 - 1))
      end ∧
    style eNo !! "pointerEvents" =
      (if bool_decide (11 ≤ n)%nat then Some (CssText "none")
       else m_style mNo !! "pointerEvents") ∧
    style eNo !! "display" =
      (if bool_decide (30 ≤ n)%nat then Some (CssText "none")
       else m_style mNo !! "display") ∧
    style eYes !! "transform" =
      match n with
      | 0 => m_style mYes !! "transform"
      | S _ => Some (CssScale (if bool_decide (30 ≤ n)%nat then 1%float
                               else scaleAfter n))
      end.
Proof.
  intros Hy Hn.
  induction n as [|n (h & eY & eN & Hp & [Hyes Hno] & Hmsgs & Hcount & Hscale &
                      Htext & Hpe & Hdisp & Htr)].
  - destruct (pageLoad_gate env) as (h & (Hh & _) & Hyes & Hno & Hc & Hs & _);
      [by rewrite Hy|by rewrite Hn|].
    pose proof (pageLoad_document env "btnYes") as HdY.
    pose proof (pageLoad_document env "btnNo") as HdN.
    rewrite Hy in HdY. rewrite Hn in HdN.
    eexists h, _, _. split_and!.
    + split_and!; [exact Hh|exact HdY|exact HdN].
    + done.
    + done.
    + by apply (pageLoad_messages env).
    + done.
    + done.
    + done.
    + done.
    + done.
    + done.
  - pose proof (handleNo_exact h eY eN _ Hyes Hno Hp) as Hwp.
    apply wp_nothrow in Hwp as ([] & _ & Hp').
    change (exec handleNo (declines n (pageLoad env)))
      with (declines (S n) (pageLoad env)) in Hp'.
    rewrite Hscale, Hcount in Hp'.
    change (scaleAfter n + three_tenths)%float with (scaleAfter (S n)) in Hp'.
    rewrite scale_passes_4, scale_passes_10, Hmsgs in Hp'.
    eexists _, _, _. split; [exact Hp'|].
    split; [done|]. split; [done|]. split; [done|]. split; [done|].
    cbn [noMessages set_yesScale set_noClickCount]. rewrite Hmsgs.
    rewrite Hmsgs in Htext. cbn [length].
    assert (∀ k v e, style (style_set k v e) = <[k := v]> (style e)) as Hst by done.
    assert (∀ c e, style (classList_add c e) = style e) as Hcl.
    { intros c e. unfold classList_add.
      destruct (bool_decide (c ∈ classList e)); reflexivity. }
    assert (∀ k v e, textContent (style_set k v e) = textContent e) as Hst' by done.
    split_and!.
    + repeat case_bool_decide; rewrite ?Hst'; cbn [textContent set_textContent];
        first
          [ by (exfalso; lia)
          | by rewrite Nat.min_l by lia
          | rewrite Htext; destruct n as [|n']; [exfalso; lia|];
            by rewrite !Nat.min_r by lia ].
    + repeat case_bool_decide; rewrite ?Hst; lookups; cbn [style set_textContent];
        rewrite ?Hpe; repeat case_bool_decide; try done; lia.
    + repeat case_bool_decide; rewrite ?Hst; lookups; cbn [style set_textContent];
        rewrite ?Hdisp; repeat case_bool_decide; try done; lia.
    + repeat case_bool_decide; rewrite ?Hst, ?Hcl, ?Hst; lookups; try done; lia.
Qed.

(** X10. The stages of the decline control. After [n] calls of [handleNo]
    on a page whose markup has both controls, the handler has counted [n]
    and holds the scale [scaleAfter n]. The decline control shows the
    message of the [n]-th call for [n] up to 6 and the last message from
    then on; it has [pointer-events: none] from the 11th call on, not from
    the 10th, where the rounded sum is still 4; and it has [display: none]
    from the 30th call on, where the accept control is set back to
    [scale(1)]. Below these counts the two properties are as the markup
    has them. *)
Theorem decline_stages (env : Env) (n : nat) (mYes mNo : Markup) :
  env_markup env !! "btnYes" = Some mYes → env_markup env !! "btnNo" = Some mNo →
  ∃ h eYes eNo,
    gatePage h eYes eNo (declines n (pageLoad env)) ∧
    noClickCount h = n ∧ yesScale h = scaleAfter n ∧
    textContent eNo =
      match n with
      | 0 => m_textContent mNo
      | S _ => text_of (array_get
                 ["No"; "Are you sure??"; "Really sure??"; "Positive??";
                  "I'll be really sad..."; "Please? 💔"] (Nat.min n 6 - 1))
      end ∧
    style eNo !! "pointerEvents" =
      (if bool_decide (11 ≤ n)%nat then Some (CssText "none")
       else m_style mNo !! "pointerEvents") ∧
    style eNo !! "display" =
      (if bool_decide (30 ≤ n)%nat then Some (CssText "none")
       else m_style mNo !! "display") ∧
    style eYes !! "transform" =
      match n with
      | 0 => m_style mYes !! "transform"
      | S _ => Some (CssScale (if bool_decide (30 ≤ n)%nat then 1%float
                               else scaleAfter n))
      end.
Proof.
  intros Hy Hn.
  destruct (declines_stage env n mYes mNo Hy Hn)
    as (h & eY & eN & Hp & _ & Hmsgs & Hcount & Hscale & Htext & Hpe & Hdisp & Htr).
  exists h, eY, eN. rewrite Hmsgs in Htext. by split_and!.
Qed.

(** C8. With both controls in the document, every call of [handleNo],
    however many came before, completes normally. The message it shows is
    read inside the array: after the call the decline control shows the
    message at the index of the count less one while the count is within
    the array, and the last message from then on, where the array is not
    read. The scale after the call is not below the scale before it; and
    once the scale has passed 10 the decline control is not displayed, so
    that a click on it, by pointer or keyboard, at any later time changes
    nothing. *)
Theorem decline_never_throws (env : Env) (n : nat) :
  is_Some (env_markup env !! "btnYes") →
  is_Some (env_markup env !! "btnNo") →
  ∃ h h',
    introHandler (declines n (pageLoad env)) = Some h ∧
    introHandler (declines (S n) (pageLoad env)) = Some h' ∧
    outcome handleNo (declines n (pageLoad env)) = Normal tt ∧
    noClickCount h' = S n ∧
    ((noClickCount h' ≤ length (noMessages h'))%nat →
       is_Some (array_get (noMessages h') (noClickCount h' - 1))) ∧
    (∃ eNo, document (declines (S n) (pageLoad env)) !! "btnNo" = Some eNo ∧
            array_get (noMessages h')
              (Nat.min (noClickCount h') (length (noMessages h')) - 1)
            = Some (textContent eNo)) ∧
    (yesScale h <=? yesScale h')%float = true ∧
    ((10 <? yesScale h')%float = true →
       ∀ k how,
         step (env_container env) (declines k (declines (S n) (pageLoad env)))
              (Activate how "btnNo")
         = declines k (declines (S n) (pageLoad env))).
Proof.
  intros Hy Hn.
  destruct (decline_call env n Hy Hn)
    as (h & h' & Hh & Hh' & Hout & Hcount & Hidx & Hscale & Hgone).
  destruct Hy as [mYes Hy], Hn as [mNo Hn].
  destruct (declines_stage env (S n) mYes mNo Hy Hn)
    as (h2 & eY & eN & (Hh2 & _ & HeN) & _ & Hmsgs & _ & _ & Htext & _).
  assert (h2 = h') as -> by congruence.
  exists h, h'. split_and!; try done.
  exists eN. split; [done|].
  rewrite Htext, Hcount, Hmsgs.
  destruct n as [|[|[|[|[|[|n]]]]]]; reflexivity.
Qed.

End Decline.

Lemma decline_never_throws_witness :
  ∃ h h',
    introHandler (@declines StringArrayJson.json 29
                    (@pageLoad StringArrayJson.json demoEnv)) = Some h ∧
    introHandler (@declines StringArrayJson.json 30
                    (@pageLoad StringArrayJson.json demoEnv)) = Some h' ∧
    outcome handleNo
      (@declines StringArrayJson.json 29 (@pageLoad StringArrayJson.json demoEnv))
      = Normal tt ∧
    noClickCount h' = 30 ∧
    ((noClickCount h' ≤ length (noMessages h'))%nat →
       is_Some (array_get (noMessages h') (noClickCount h' - 1))) ∧
    (∃ eNo, document (@declines StringArrayJson.json 30
                        (@pageLoad StringArrayJson.json demoEnv)) !! "btnNo"
              = Some eNo ∧
            array_get (noMessages h')
              (Nat.min (noClickCount h') (length (noMessages h')) - 1)
            = Some (textContent eNo)) ∧
    (yesScale h <=? yesScale h')%float = true ∧
    ((10 <? yesScale h')%float = true →
       ∀ k how,
         @step StringArrayJson.json (env_container demoEnv)
           (@declines StringArrayJson.json k
              (@declines StringArrayJson.json 30 (@pageLoad StringArrayJson.json demoEnv)))
           (Activate how "btnNo")
         = @declines StringArrayJson.json k
             (@declines StringArrayJson.json 30 (@pageLoad StringArrayJson.json demoEnv))).
Proof.
  apply (@decline_never_throws StringArrayJson.json demoEnv 29).
  - eexists. by vm_compute.
  - eexists. by vm_compute.
Defined.

Lemma decline_stages_witness :
  ∃ eYes eNo,
    document (@declines StringArrayJson.json 30
                (@pageLoad StringArrayJson.json demoEnv)) !! "btnYes" = Some eYes ∧
    document (@declines StringArrayJson.json 30
                (@pageLoad StringArrayJson.json demoEnv)) !! "btnNo" = Some eNo ∧
    textContent eNo = "Please? 💔" ∧
    style eNo !! "pointerEvents" = Some (CssText "none") ∧
    style eNo !! "display" = Some (CssText "none") ∧
    style eYes !! "transform" = Some (CssScale 1).
Proof.
  destruct (@decline_stages StringArrayJson.json demoEnv 30 plainElement plainElement)
    as (h & eY & eN & (_ & HY & HN) & _ & _ & Htext & Hpe & Hdisp & Htr).
  - reflexivity.
  - reflexivity.
  - exists eY, eN. split; [exact HY|]. split; [exact HN|].
    split; [exact Htext|]. split; [exact Hpe|]. split; [exact Hdisp|exact Htr].
Defined.

(** ** Constructing the tracker *)

Lemma alter_as_insert {A} (f : A → A) (i : nat) (l : list A) (x : A) :
  l !! i = Some x → alter f i l = <[i := f x]> l.
Proof.
  intros Hx. apply list_eq. intros j. destruct (decide (j = i)) as [->|Hne].
  - rewrite list_lookup_alter, decide_True, Hx by done. simpl.
    by rewrite list_lookup_insert_eq by (by eapply lookup_lt_Some).
  - by rewrite list_lookup_alter_ne, list_lookup_insert_ne.
Qed.

Lemma elem_of_cons_ne {A} (x y : A) (l : list A) : y ≠ x → y ∈ x :: l ↔ y ∈ l.
Proof. intros Hne. rewrite elem_of_cons. by split; [intros [?|?]|right]. Qed.

Section Construct.
Context `{Json}.

(** The loop of [initPenguins] over the ids [l]: a penguin that is in the
    document is marked as found if its id is in the set, and gets its
    handler otherwise. *)
Lemma initPenguins_loop this found l :
  NoDup l → ∀ p t, trackers p !! this = Some t → foundPenguins t = found →
  wp (forEach l (λ penguinId,
        penguinElement ← getElementById penguinId;
        when (bool_decide (is_Some penguinElement))
          (t ← tracker this;
           if JsSet.has (foundPenguins t) (JStr penguinId) then
             update penguinElement (classList_add "found")
           else
             let handler := OnPenguin this penguinId in
             update_tracker this (λ t,
               set_penguinHandlers (<[penguinId := handler]> (penguinHandlers t)) t);;
             update penguinElement (addEventListener handler))))
     (λ _ p',
        ∃ t', trackers p' = <[this := t']> (trackers p) ∧
              penguinIds t' = penguinIds t ∧ foundPenguins t' = found ∧
              (∀ id, penguinHandlers t' !! id =
                 if bool_decide (id ∈ l ∧ is_Some (document p !! id) ∧
                                 JsSet.has found (JStr id) = false)
                 then Some (OnPenguin this id) else penguinHandlers t !! id) ∧
              (∀ id, document p' !! id =
                 (if bool_decide (id ∈ l)
                  then λ e, if JsSet.has found (JStr id)
                            then classList_add "found" e
                            else addEventListener (OnPenguin this id) e
                  else λ e, e) <$> document p !! id) ∧
              penguinTracker p' = penguinTracker p)
     (λ _ _, False) p.
Proof.
  induction 1 as [|x l Hx Hl IH]; intros p t Ht Hf.
  - apply wp_ret. exists t. split_and!; [by rewrite list_insert_id|done|done| | |done].
    + intros id. rewrite bool_decide_eq_false_2; [done|].
      intros (Hin & _). by apply not_elem_of_nil in Hin.
    + intros id. rewrite bool_decide_eq_false_2 by apply not_elem_of_nil.
      by destruct (document p !! id).
  - cbn [forEach]. apply wp_bind, wp_bind, wp_getElementById_eq.
    destruct (document p !! x) as [e|] eqn:Hdx.
    + rewrite bool_decide_eq_true_2 by eauto. cbn [when].
      apply wp_bind, (wp_tracker this t); [done|]. rewrite Hf.
      destruct (JsSet.has found (JStr x)) eqn:Hhas.
      * eapply wp_update_present; [exact Hdx|].
        eapply wp_mono; [by apply (IH _ t)| |done].
        intros [] p' (t' & Hts & Hids & Hfd & Hh & Hd & Hpt).
        exists t'. split_and!; [done|done|done| | |done].
        -- intros id. rewrite Hh. simpl.
           destruct (decide (id = x)) as [->|Hne].
           ++ rewrite !bool_decide_eq_false_2; [done| |]; intros (? & ? & ?);
                congruence.
           ++ rewrite lookup_insert_ne by done.
              apply (f_equal (λ b : bool, if b then _ else _)).
              apply bool_decide_ext. by rewrite elem_of_cons_ne.
        -- intros id. rewrite Hd. simpl.
           destruct (decide (id = x)) as [->|Hne].
           ++ rewrite lookup_insert_eq, Hdx, Hhas.
              rewrite bool_decide_eq_false_2 by done.
              rewrite bool_decide_eq_true_2 by apply list_elem_of_here. done.
           ++ rewrite lookup_insert_ne by done.
              apply (f_equal (λ b : bool, (if b then _ else _) <$> _)).
              apply bool_decide_ext. by rewrite elem_of_cons_ne.
      * apply wp_bind. unfold update_tracker at 1. apply wp_modify.
        eapply wp_update_present; [exact Hdx|].
        set (t1 := set_penguinHandlers
                     (<[x := OnPenguin this x]> (penguinHandlers t)) t).
        eapply wp_mono; [apply (IH _ t1)| |done].
        { simpl. rewrite (alter_as_insert _ _ _ t) by done.
          apply list_lookup_insert_eq. by eapply lookup_lt_Some. }
        { done. }
        intros [] p' (t' & Hts & Hids & Hfd & Hh & Hd & Hpt).
        exists t'. split_and!; [|done|done| | |done].
        -- rewrite Hts. simpl. rewrite (alter_as_insert _ _ _ t) by done.
           apply list_insert_insert_eq.
        -- intros id. rewrite Hh. simpl.
           destruct (decide (id = x)) as [->|Hne].
           ++ rewrite bool_decide_eq_false_2 by (by intros (? & _)).
              unfold t1. cbn [penguinHandlers set_penguinHandlers].
              rewrite lookup_insert_eq.
              rewrite bool_decide_eq_true_2; [done|].
              split_and!; [apply list_elem_of_here|by rewrite Hdx|done].
           ++ unfold t1. cbn [penguinHandlers set_penguinHandlers].
              rewrite !lookup_insert_ne by done.
              apply (f_equal (λ b : bool, if b then _ else _)).
              apply bool_decide_ext. by rewrite elem_of_cons_ne.
        -- intros id. rewrite Hd. simpl.
           destruct (decide (id = x)) as [->|Hne].
           ++ rewrite lookup_insert_eq, Hdx, Hhas.
              rewrite bool_decide_eq_false_2 by done.
              rewrite bool_decide_eq_true_2 by apply list_elem_of_here. done.
           ++ rewrite lookup_insert_ne by done.
              apply (f_equal (λ b : bool, (if b then _ else _) <$> _)).
              apply bool_decide_ext. by rewrite elem_of_cons_ne.
    + rewrite bool_decide_eq_false_2 by (by intros [? ?]). cbn [when].
      apply wp_ret.
      eapply wp_mono; [by apply (IH _ t)| |done].
      intros [] p' (t' & Hts & Hids & Hfd & Hh & Hd & Hpt).
      exists t'. split_and!; [done|done|done| | |done].
      * intros id. rewrite Hh.
        destruct (decide (id = x)) as [->|Hne].
        -- rewrite !bool_decide_eq_false_2; [done| |].
           ++ rewrite Hdx. by intros (_ & [? ?] & _).
           ++ by intros (? & _).
        -- apply (f_equal (λ b : bool, if b then _ else _)).
           apply bool_decide_ext. by rewrite elem_of_cons_ne.
      * intros id. rewrite Hd.
        destruct (decide (id = x)) as [->|Hne].
        -- by rewrite Hdx.
        -- apply (f_equal (λ b : bool, (if b then _ else _) <$> _)).
           apply bool_decide_ext. by rewrite elem_of_cons_ne.
Qed.

Lemma updateDisplay_wp this t p :
  trackers p !! this = Some t →
  let n := JsSet.size (foundPenguins t) in
  wp (updateDisplay this)
     (λ _ p',
        trackers p' = trackers p ∧ penguinTracker p' = penguinTracker p ∧
        document p' !! "penguinCount" =
          set_textContent (pretty n) <$> document p !! "penguinCount" ∧
        document p' !! "penguinCounter" =
          (if bool_decide (0 < n)%nat then classList_add "show" else λ e, e)
            <$> document p !! "penguinCounter" ∧
        ∀ id, id ≠ "penguinCount" → id ≠ "penguinCounter" →
              document p' !! id = document p !! id)
     (λ _ _, False) p.
Proof.
  intros Ht n. unfold updateDisplay.
  apply wp_bind, (wp_tracker this t); [done|]. fold n.
  unfold updatePenguinCountDisplay, showPenguinCounter.
  match goal with |- wp _ ?Q _ _ => set (Post := Q) end.
  apply wp_bind, wp_bind, wp_getElementById_eq.
  assert (∀ q : Page,
            trackers q = trackers p → penguinTracker q = penguinTracker p →
            document q !! "penguinCount" =
              set_textContent (pretty n) <$> document p !! "penguinCount" →
            (∀ id, id ≠ "penguinCount" → document q !! id = document p !! id) →
            wp (when (bool_decide (0 < n)%nat)
                  (counter ← getElementById "penguinCounter";
                   when (bool_decide (is_Some counter))
                     (update counter (classList_add "show"))))
               Post (λ _ _, False) q) as Hshow.
  { intros q Hts Hpt Hc Hd. unfold Post.
    destruct (bool_decide (0 < n)%nat); cbn [when].
    - apply wp_bind, wp_getElementById_eq.
      destruct (document q !! "penguinCounter") as [c|] eqn:Hcc.
      + rewrite bool_decide_eq_true_2 by eauto. cbn [when].
        eapply wp_update_present; [exact Hcc|]. simpl.
        split_and!; [done|done| | |].
        * by rewrite lookup_insert_ne.
        * rewrite lookup_insert_eq. rewrite Hd in Hcc by done. by rewrite Hcc.
        * intros id ? ?. rewrite lookup_insert_ne by done. by apply Hd.
      + rewrite bool_decide_eq_false_2 by (by intros [? ?]). cbn [when].
        apply wp_ret. cbv beta. split_and!; [done|done|done| |].
        * rewrite Hd in Hcc by done. rewrite Hd by done. by rewrite Hcc.
        * intros id ? ?. by apply Hd.
    - apply wp_ret. cbv beta. split_and!; [done|done|done| |].
      + rewrite Hd by done. by destruct (document p !! "penguinCounter").
      + intros id ? ?. by apply Hd. }
  clearbody Post.
  destruct (document p !! "penguinCount") as [c|] eqn:Hc.
  - rewrite (bool_decide_eq_true_2 (is_Some (Some "penguinCount"))) by eauto.
    cbn [when].
    apply wp_bind. eapply wp_update_present; [exact Hc|].
    apply Hshow; simpl; [done|done|apply lookup_insert_eq|].
    intros id ?. by rewrite lookup_insert_ne.
  - rewrite (bool_decide_eq_false_2 (is_Some None)) by (by intros [? ?]).
    cbn [when].
    apply wp_bind, wp_ret. by apply Hshow.
Qed.

Lemma activatePenguins_wp p :
  let this := length (trackers p) in
  let found := loaded p in
  wp activatePenguins
     (λ _ p',
        penguinTracker p' = Some this ∧
        ∃ t, trackers p' = trackers p ++ [t] ∧
             penguinIds t = universe ∧ foundPenguins t = found ∧
             (∀ id, penguinHandlers t !! id =
                if bool_decide (id ∈ universe ∧ is_Some (document p !! id) ∧
                                JsSet.has found (JStr id) = false)
                then Some (OnPenguin this id) else None) ∧
             (∀ id e, id ∈ universe → document p !! id = Some e →
                document p' !! id =
                  Some (if JsSet.has found (JStr id) then classList_add "found" e
                        else addEventListener (OnPenguin this id) e)) ∧
             document p' !! "penguinCount" =
               set_textContent (pretty (JsSet.size found))
                 <$> document p !! "penguinCount" ∧
             document p' !! "penguinCounter" =
               (if bool_decide (0 < JsSet.size found)%nat
                then classList_add "show" else λ e, e)
                 <$> document p !! "penguinCounter")
     (λ _ _, False) p.
Proof.
  intros this found. unfold activatePenguins, new_PenguinTracker.
  apply wp_bind, wp_bind, wp_get. cbv beta. fold this.
  apply wp_bind, wp_modify.
  set (t0 := {| penguinIds := universe; penguinHandlers := ∅;
                foundPenguins := JsSet.empty |}).
  apply wp_bind. eapply wp_mono; [apply loadProgress_wp| |done].
  intros s p1 [-> Hp1].
  change (loaded (set_trackers (trackers p ++ [t0]) p)) with found.
  assert (trackers p1 = trackers p ++ [t0] ∧ document p1 = document p) as [Hts1 Hd1].
  { by destruct Hp1 as [->|[e ->]]. }
  clear Hp1.
  apply wp_bind. unfold update_tracker at 1. apply wp_modify.
  set (tf := set_foundPenguins found t0).
  match goal with |- wp _ _ _ ?q => set (p2 := q) end.
  assert (trackers p2 = trackers p ++ [tf]) as Hts2.
  { unfold p2. simpl. rewrite Hts1, alter_app_r_alt by done.
    unfold this. by rewrite Nat.sub_diag. }
  assert (document p2 = document p) as Hd2 by done.
  clearbody p2. clear dependent p1.
  assert (trackers p2 !! this = Some tf) as Ht2.
  { rewrite Hts2. by apply list_lookup_middle. }
  apply wp_bind. unfold initPenguins.
  apply wp_bind, (wp_tracker this tf); [done|].
  change (penguinIds tf) with universe.
  eapply wp_mono;
    [apply (initPenguins_loop this found universe universe_NoDup p2 tf); done| |done].
  intros [] p3 (t' & Hts3 & Hids & Hfd & Hh & Hd3 & _).
  assert (trackers p3 = trackers p ++ [t']) as Hts3'.
  { rewrite Hts3, Hts2, insert_app_r_alt by done.
    unfold this. by rewrite Nat.sub_diag. }
  assert (trackers p3 !! this = Some t') as Ht3.
  { rewrite Hts3'. by apply list_lookup_middle. }
  apply wp_bind.
  eapply wp_mono; [by apply (updateDisplay_wp this t')| |done].
  intros [] p4 (Hts4 & _ & Hc4 & Hcc4 & Hd4).
  apply wp_ret, wp_modify. simpl. split; [done|].
  exists t'. rewrite Hfd in Hc4, Hcc4. split_and!.
  - by rewrite Hts4.
  - done.
  - done.
  - intros id. rewrite Hh, Hd2. by destruct (bool_decide _).
  - intros id e Hid He. destruct (universe_not_display id Hid) as (? & ? & _).
    rewrite Hd4, Hd3, Hd2, He by done.
    by rewrite bool_decide_eq_true_2.
  - rewrite Hc4, Hd3, Hd2.
    rewrite (bool_decide_eq_false_2 ("penguinCount" ∈ universe)); [|].
    + by destruct (document p !! "penguinCount").
    + apply (bool_decide_unpack _). by vm_compute.
  - rewrite Hcc4, Hd3, Hd2.
    rewrite (bool_decide_eq_false_2 ("penguinCounter" ∈ universe)); [|].
    + by destruct (document p !! "penguinCounter").
    + apply (bool_decide_unpack _). by vm_compute.
Qed.

(** X11. Constructing the tracker restores the saved progress. Whatever the
    page, [activatePenguins] completes normally; it adds one tracker to the
    heap and binds [penguinTracker] to it. The tracker's set is what
    [loadProgress] reads from the store. Each penguin of the document whose
    id is in that set is marked [found] and gets no listener; each other
    penguin of the document gets the tracker's handler for its id, and the
    handler map holds exactly these handlers. The count element shows the
    size of the set, and the counter is shown if the set is not empty. *)
Theorem activation_restores_progress (p : Page) :
  let this := length (trackers p) in
  let found := loaded p in
  let p' := exec activatePenguins p in
  outcome activatePenguins p = Normal tt ∧
  penguinTracker p' = Some this ∧
  ∃ t, trackers p' = trackers p ++ [t] ∧
       penguinIds t = universe ∧ foundPenguins t = found ∧
       (∀ id, penguinHandlers t !! id =
          if bool_decide (id ∈ universe ∧ is_Some (document p !! id) ∧
                          JsSet.has found (JStr id) = false)
          then Some (OnPenguin this id) else None) ∧
       (∀ id e, id ∈ universe → document p !! id = Some e →
          document p' !! id =
            Some (if JsSet.has found (JStr id) then classList_add "found" e
                  else addEventListener (OnPenguin this id) e)) ∧
       document p' !! "penguinCount" =
         set_textContent (pretty (JsSet.size found))
           <$> document p !! "penguinCount" ∧
       document p' !! "penguinCounter" =
         (if bool_decide (0 < JsSet.size found)%nat
          then classList_add "show" else λ e, e)
           <$> document p !! "penguinCounter".
Proof.
  intros this found p'.
  destruct (wp_nothrow _ _ _ (activatePenguins_wp p)) as ([] & Hout & Hpost).
  split; [done|]. exact Hpost.
Qed.

End Construct.

(** A second activation, on a page whose store holds two ids: the new
    tracker starts from them. *)
Example activation_restores_two :
  let st := {| st_enabled := true; st_limit := 5242880;
               st_items := {["penguinsFound" :=
                  StringArrayJson.stringify
                    (JArr [JStr "penguin2"; JStr "penguin5"])]} |} in
  let p' := exec (@activatePenguins StringArrayJson.json)
              (set_localStorage st demoPage) in
  (foundPenguins <$> trackers p') = [[]; [JStr "penguin2"; JStr "penguin5"]] ∧
  ((λ e, (classList e, clickListeners e)) <$> document p' !! "penguin2")
    = Some (["found"], [OnPenguin 0 "penguin2"]) ∧
  ((λ e, (classList e, clickListeners e)) <$> document p' !! "penguin1")
    = Some ([], [OnPenguin 0 "penguin1"; OnPenguin 1 "penguin1"]).
Proof. by vm_compute. Qed.

(** ** Handlers that run to completion *)

Lemma listenerReady_extends p q id l :
  extends p q → listenerReady p id l → listenerReady q id l.
Proof.
  intros (Hh & Hd & Hts). destruct l as [| |this x]; simpl.
  - intros (h & (Hp & Hy & Hn) & Hyes & Hno).
    destruct (Hh h Hp) as (h' & Hq & Hy' & Hn' & _).
    exists h'.
    split_and!; [split_and!; [done|by apply Hd|by apply Hd]|congruence|congruence].
  - intros (h & (Hp & Hy & Hn) & Hyes & Hno).
    destruct (Hh h Hp) as (h' & Hq & Hy' & Hn' & _).
    exists h'.
    split_and!; [split_and!; [done|by apply Hd|by apply Hd]|congruence|congruence].
  - intros (? & ? & ?). split_and!; [done|done|lia].
Qed.

Lemma sound_extends p q :
  extends p q →
  (∀ id e' l, document q !! id = Some e' → l ∈ clickListeners e' →
     (∃ e, document p !! id = Some e ∧ l ∈ clickListeners e) ∨
     listenerReady q id l) →
  sound p → sound q.
Proof.
  intros Hext Hl ((h & Hh & Hs & Hm & Hds & Hdm) & Hp). split.
  - destruct Hext as (Hh' & Hd & _).
    destruct (Hh' h Hh) as (h' & Hq & _ & _ & Hs' & Hm').
    exists h'. split_and!; [done|congruence|congruence|by apply Hd|by apply Hd].
  - intros id e' l He' Hin.
    destruct (Hl id e' l He' Hin) as [(e & He & Hin')|?]; [|done].
    eapply listenerReady_extends; [done|]. by eapply Hp.
Qed.

Lemma sameRefs_refl h : sameRefs h h.
Proof. done. Qed.

Lemma sound_same p q :
  document q = document p → introHandler q = introHandler p →
  trackers q = trackers p → sound p → sound q.
Proof.
  intros Hd Hh Hts. apply sound_extends.
  - split_and!.
    + intros h Hp. exists h. by rewrite Hh.
    + intros id. by rewrite Hd.
    + by rewrite Hts.
  - intros id e' l He' Hin. left. exists e'. by rewrite <- Hd.
Qed.

Lemma extends_insert p id x :
  extends p (set_document (<[id := x]> (document p)) p).
Proof.
  split_and!; simpl.
  - intros h Hp. by exists h.
  - intros k. apply present_insert.
  - done.
Qed.

Lemma sound_update p id e f :
  document p !! id = Some e →
  (∀ l, l ∈ clickListeners (f e) → l ∈ clickListeners e) →
  sound p → sound (set_document (<[id := f e]> (document p)) p).
Proof.
  intros He Hf. apply sound_extends; [apply extends_insert|].
  intros k e' l. simpl. destruct (decide (id = k)) as [->|Hne].
  - rewrite lookup_insert_eq. intros [= <-] Hin. left. exists e. auto.
  - rewrite lookup_insert_ne by done. intros He' Hin. left. by exists e'.
Qed.

Lemma sound_listen p id e l0 :
  document p !! id = Some e →
  listenerReady (set_document (<[id := addEventListener l0 e]> (document p)) p) id l0 →
  sound p → sound (set_document (<[id := addEventListener l0 e]> (document p)) p).
Proof.
  intros He Hl0. apply sound_extends; [apply extends_insert|].
  intros k e' l. simpl. destruct (decide (id = k)) as [->|Hne].
  - rewrite lookup_insert_eq. intros [= <-] Hin.
    assert (l ∈ clickListeners e ∨ l = l0) as [?| ->].
    { revert Hin. unfold addEventListener. case_bool_decide; simpl; [auto|].
      rewrite elem_of_app, list_elem_of_singleton. intros [?|?]; auto. }
    + left. by exists e.
    + by right.
  - rewrite lookup_insert_ne by done. intros He' Hin. left. by exists e'.
Qed.

Lemma sound_sheet p id text :
  sound p → sound (set_document (<[id := styleSheet text]> (document p)) p).
Proof.
  apply sound_extends; [apply extends_insert|].
  intros k e' l. simpl. destruct (decide (id = k)) as [->|Hne].
  - rewrite lookup_insert_eq. intros [= <-]. simpl. by intros ?%not_elem_of_nil.
  - rewrite lookup_insert_ne by done. intros He' Hin. left. by exists e'.
Qed.

Lemma sound_fmap p (g : Element → Element) :
  (∀ e, clickListeners (g e) = clickListeners e) →
  sound p → sound (set_document (g <$> document p) p).
Proof.
  intros Hg. apply sound_extends.
  - split_and!; simpl.
    + intros h Hp. by exists h.
    + intros k [e He]. rewrite lookup_fmap, He. by eexists.
    + done.
  - intros k e' l. simpl. rewrite lookup_fmap.
    destruct (document p !! k) as [e|] eqn:He; [|done].
    intros [= <-]. rewrite Hg. intros Hin. left. by exists e.
Qed.

Lemma sound_update_intro p (f : IntroHandler → IntroHandler) :
  (∀ h, sameRefs h (f h)) →
  sound p → sound (set_introHandler (f <$> introHandler p) p).
Proof.
  intros Hf. apply sound_extends.
  - split_and!; simpl; [|done|done].
    intros h Hp. exists (f h). by rewrite Hp.
  - intros k e' l He' Hin. left. by exists e'.
Qed.

Lemma sound_trackers p ts :
  (length (trackers p) ≤ length ts)%nat → sound p → sound (set_trackers ts p).
Proof.
  intros Hts. apply sound_extends.
  - split_and!; simpl; [|done|done]. intros h Hp. by exists h.
  - intros k e' l He' Hin. left. by exists e'.
Qed.

(** Updates of an element that add no listener. *)
Ltac quiet_tac :=
  intros ?;
  first
    [ by unfold classList_add; case_bool_decide
    | by (unfold removeEventListener; simpl; rewrite list_elem_of_filter;
          intros [_ ?])
    | by (simpl; intros ?) ].

(** The writes of the scripts against [sound]. *)
Ltac sound_goal :=
  lazymatch goal with
  | Hp : sound ?p |- sound ?p => exact Hp
  | Hp : sound ?p, He : document ?p !! ?id = Some ?e
    |- sound (set_document (<[?id := _ ?e]> (document ?p)) ?p) =>
      by apply sound_update; [exact He|quiet_tac|exact Hp]
  | Hp : sound ?p |- sound (set_document (<[_ := styleSheet _]> _) ?p) =>
      by apply sound_sheet
  | Hp : sound ?p |- sound (set_introHandler (_ <$> introHandler ?p) ?p) =>
      by apply sound_update_intro
  | Hp : sound ?p |- sound (set_trackers (alter _ _ (trackers ?p)) ?p) =>
      by apply sound_trackers; [rewrite length_alter|]
  | Hp : sound ?p |- sound _ =>
      by apply (sound_same p); [reflexivity..|exact Hp]
  end.

Ltac sound_auto := repeat keeps_step; sound_goal.

Section Sound.
Context `{Json}.

Lemma handleNo_sound : keeps sound handleNo.
Proof. sound_auto. Qed.

Lemma handleYes_sound : keeps sound handleYes.
Proof. sound_auto. Qed.

Lemma handlePenguinClick_sound this id : keeps sound (handlePenguinClick this id).
Proof. sound_auto. Qed.

Lemma reset_sound this : keeps sound (reset this).
Proof. sound_auto. Qed.

Lemma console_reset_sound : keeps sound console_reset.
Proof. sound_auto. Qed.

Lemma reveal_sound : keeps sound (showCompletionCelebration;; revealSecretSection).
Proof. sound_auto. Qed.

Lemma constructing_same this p q :
  document q = document p → introHandler q = introHandler p →
  trackers q = trackers p → constructing this p → constructing this q.
Proof.
  intros Hd Hh Hts (Hp & Ht). split; [by apply (sound_same p)|by rewrite Hts].
Qed.

Lemma constructing_update this p id e f :
  document p !! id = Some e →
  (∀ l, l ∈ clickListeners (f e) → l ∈ clickListeners e) →
  constructing this p →
  constructing this (set_document (<[id := f e]> (document p)) p).
Proof. intros He Hf (Hp & Ht). split; [by apply sound_update|done]. Qed.

Lemma constructing_alter this p (f : PenguinTracker → PenguinTracker) i :
  (∀ t, penguinIds (f t) = penguinIds t) →
  constructing this p →
  constructing this (set_trackers (alter f i (trackers p)) p).
Proof.
  intros Hf (Hp & t & Ht & Hids). split.
  - apply sound_trackers; [by rewrite length_alter|done].
  - simpl. destruct (decide (i = this)) as [->|Hne].
    + exists (f t). rewrite list_lookup_alter, decide_True, Ht by done.
      by rewrite Hf.
    + exists t. by rewrite list_lookup_alter_ne.
Qed.

Ltac constructing_goal :=
  lazymatch goal with
  | Hp : constructing ?this ?p |- constructing ?this ?p => exact Hp
  | Hp : constructing ?this ?p, He : document ?p !! ?id = Some ?e
    |- constructing ?this (set_document (<[?id := _ ?e]> (document ?p)) ?p) =>
      by apply constructing_update; [exact He|quiet_tac|exact Hp]
  | Hp : constructing ?this ?p
    |- constructing ?this (set_trackers (alter _ _ (trackers ?p)) ?p) =>
      by apply constructing_alter
  | Hp : constructing ?this ?p |- constructing ?this _ =>
      by apply (constructing_same this p); [reflexivity..|exact Hp]
  end.

Lemma initPenguins_constructing this : keeps (constructing this) (initPenguins this).
Proof.
  intros p Hp. unfold initPenguins.
  destruct Hp as (Hs & t & Ht & Hids).
  apply wp_bind, (wp_tracker this t); [done|]. rewrite Hids.
  apply (keeps_forEach (constructing this)); [|by split; eauto].
  clear dependent p t. intros x Hx q (Hq & t & Ht & Hids).
  apply wp_bind, wp_getElementById_eq.
  destruct (document q !! x) as [e|] eqn:Hdx.
  - rewrite bool_decide_eq_true_2 by eauto. cbn [when].
    apply wp_bind, (wp_tracker this t); [done|].
    destruct (JsSet.has (foundPenguins t) (JStr x)).
    + eapply wp_update_present; [exact Hdx|].
      apply constructing_update; [done|quiet_tac|by split; eauto].
    + apply wp_bind. unfold update_tracker at 1. apply wp_modify.
      eapply wp_update_present; [exact Hdx|]. split.
      * apply sound_listen; [done| |].
        -- simpl. split_and!; [done|done|]. rewrite length_alter.
           by eapply lookup_lt_Some.
        -- apply sound_trackers; [by rewrite length_alter|done].
      * simpl. eexists. rewrite list_lookup_alter, decide_True, Ht by done.
        split; [done|]. done.
  - rewrite bool_decide_eq_false_2 by (by intros [? ?]). cbn [when].
    apply wp_ret. by split; eauto.
Qed.

Lemma loadProgress_constructing this : keeps (constructing this) loadProgress.
Proof. repeat keeps_step; constructing_goal. Qed.

Lemma updateDisplay_constructing this i :
  keeps (constructing this) (updateDisplay i).
Proof. repeat keeps_step; constructing_goal. Qed.

Lemma activatePenguins_sound : keeps sound activatePenguins.
Proof.
  intros p Hp. unfold activatePenguins, new_PenguinTracker.
  apply wp_bind, wp_bind, wp_get. cbv beta.
  apply wp_bind, wp_modify.
  set (this := length (trackers p)).
  match goal with |- wp _ _ _ ?q => set (p0 := q) end.
  assert (constructing this p0) as Hp0.
  { split.
    - apply sound_trackers; [rewrite length_app; lia|done].
    - eexists. split; [by apply list_lookup_middle|done]. }
  clearbody p0.
  match goal with |- wp ?m _ _ _ =>
    apply (wp_keeps (constructing this) m) end; [|done| |by intros ? ? [? ?]].
  - apply keeps_bind; [apply loadProgress_constructing|intros found].
    apply keeps_bind.
    { unfold update_tracker. apply keeps_modify. intros q Hq.
      by apply constructing_alter. }
    intros _. apply keeps_bind; [apply initPenguins_constructing|intros _].
    apply keeps_bind; [apply updateDisplay_constructing|intros _].
    apply keeps_ret.
  - intros t q [Hq _]. apply wp_modify. by apply (sound_same q).
Qed.

Lemma activation_sound : keeps sound activation.
Proof.
  unfold activation.
  apply keeps_bind; [|intros _].
  { apply keeps_modify. intros p Hp. by apply (sound_same p). }
  apply keeps_bind; [|intros _].
  { unfold observeElements. apply keeps_modify. intros p Hp.
    by apply (sound_same p). }
  apply keeps_bind; [|intros _; apply activatePenguins_sound].
  apply keeps_modify. intros p Hp. apply sound_fmap; [|done].
  intros e. case_bool_decide; [|done].
  unfold classList_add. by case_bool_decide.
Qed.

Lemma runListener_sound l : keeps sound (runListener l).
Proof.
  destruct l as [| |this x]; simpl;
    [apply handleYes_sound|apply handleNo_sound|apply handlePenguinClick_sound].
Qed.

Lemma runTask_sound t : keeps sound (runTask t).
Proof.
  destruct t as [| |o|]; simpl.
  - apply activation_sound.
  - apply reveal_sound.
  - sound_auto.
  - apply keeps_ret.
Qed.

Lemma step_sound container p ev : sound p → sound (step container p ev).
Proof.
  intros Hp. destruct ev as [how id|k|]; simpl.
  - destruct (receives container how p id); [|done].
    apply dispatchClick_keeps; [apply runListener_sound|done].
  - destruct (timers p !! k) as [[d t]|]; [|done].
    apply keeps_exec; [apply runTask_sound|]. by apply (sound_same p).
  - by apply keeps_exec; [apply console_reset_sound|].
Qed.

Lemma pageLoad_refs env :
  ∃ h, introHandler (pageLoad env) = Some h ∧
       btnYes h = (λ _, "btnYes") <$> env_markup env !! "btnYes" ∧
       btnNo h = (λ _, "btnNo") <$> env_markup env !! "btnNo" ∧
       introSection h = (λ _, "introSection") <$> env_markup env !! "introSection" ∧
       mainContent h = (λ _, "mainContent") <$> env_markup env !! "mainContent".
Proof.
  set (R := λ p : Page, ∃ h, introHandler p = Some h ∧
         btnYes h = (λ _, "btnYes") <$> env_markup env !! "btnYes" ∧
         btnNo h = (λ _, "btnNo") <$> env_markup env !! "btnNo" ∧
         introSection h = (λ _, "introSection") <$> env_markup env !! "introSection" ∧
         mainContent h = (λ _, "mainContent") <$> env_markup env !! "mainContent").
  change (R (pageLoad env)).
  unfold pageLoad, main_script, initPage. apply wp_exec, wp_bind.
  apply (wp_seq _ _ (λ _ q, document q = document (blankPage env))).
  { unfold localStorage_removeItem, console_warn, console_log.
    repeat wp_step; done. }
  intros _ p Hp. apply wp_bind, wp_modify. unfold new_IntroHandler.
  apply wp_bind, wp_bind, wp_getElementById_eq.
  apply wp_bind, wp_getElementById_eq.
  apply wp_bind, wp_getElementById_eq.
  apply wp_bind, wp_getElementById_eq.
  apply wp_bind, wp_modify.
  apply (wp_keeps R).
  - keeps_auto; simpl; done.
  - eexists. split; [reflexivity|]. simpl. rewrite Hp. simpl.
    rewrite !lookup_fmap.
    by destruct (env_markup env !! "btnYes"), (env_markup env !! "btnNo"),
      (env_markup env !! "introSection"), (env_markup env !! "mainContent").
  - intros [] p' Hp'. unfold setupSmoothScroll. by apply wp_ret.
  - done.
Qed.

Lemma pageLoad_sound env :
  is_Some (env_markup env !! "introSection") →
  is_Some (env_markup env !! "mainContent") →
  sound (pageLoad env).
Proof.
  intros [ms Hms] [mm Hmm].
  destruct (pageLoad_refs env) as (h & Hh & Hy & Hn & Hs & Hm).
  split.
  - exists h. rewrite Hms in Hs. rewrite Hmm in Hm.
    split_and!; [done|done|done| |].
    + rewrite pageLoad_document, Hms. by eexists.
    + rewrite pageLoad_document, Hmm. by eexists.
  - intros id e l. rewrite pageLoad_document.
    destruct (env_markup env !! id) as [m|] eqn:Hid; [|done].
    intros [= <-]. simpl. unfold loadedListeners, gateWired.
    case_bool_decide as Hw; [|by intros ?%not_elem_of_nil].
    destruct Hw as [[my Hmy] [mn Hmn]].
    rewrite Hmy in Hy. rewrite Hmn in Hn.
    assert (listenerReady (pageLoad env) "btnYes" OnYes) as Hready.
    { exists h. split_and!; [split_and!|done|done]; [done| |].
      - rewrite pageLoad_document, Hmy. by eexists.
      - rewrite pageLoad_document, Hmn. by eexists. }
    repeat case_bool_decide; rewrite ?list_elem_of_singleton;
      [intros ->; exact Hready|intros ->; exact Hready|by intros ?%not_elem_of_nil].
Qed.

Lemma reachable_sound env p :
  is_Some (env_markup env !! "introSection") →
  is_Some (env_markup env !! "mainContent") →
  reachable env p → sound p.
Proof.
  intros Hs Hm. induction 1 as [|p ev _ IH|p id e l _ IH _ _].
  - by apply pageLoad_sound.
  - by apply step_sound.
  - by apply keeps_exec; [apply runListener_sound|].
Qed.

Lemma session_reachable env evs : reachable env (session env evs).
Proof.
  unfold session, run. induction evs as [|ev evs IH] using rev_ind.
  - apply reach_load.
  - rewrite foldl_app. simpl. by apply (reach_step env).
Qed.

Lemma handleYes_completes p : sound p → outcome handleYes p = Normal tt.
Proof.
  intros Hp.
  assert (wp handleYes (λ _ _, True) (λ _ _, False) p) as Hwp.
  { destruct Hp as ((h & Hh & Hs & Hm & [es Hes] & [em Hem]) & _).
    unfold handleYes. eapply wp_bind, wp_intro; [done|]. rewrite Hs, Hm.
    eapply wp_bind, wp_update_present; [done|].
    eapply wp_bind, wp_update_present; [apply lookup_insert_eq|].
    eapply wp_bind, wp_update_present; [apply lookup_insert_eq|].
    apply wp_bind, wp_modify.
    eapply wp_bind, wp_update_present;
      [simpl; by rewrite !lookup_insert_ne by done|].
    unfold setTimeout. by apply wp_modify. }
  by destruct (wp_nothrow _ _ _ Hwp) as ([] & ? & _).
Qed.

Lemma handleNo_completes p id :
  listenerReady p id OnNo → outcome handleNo p = Normal tt.
Proof.
  intros (h & Hready & Hyes & Hno).
  by destruct (wp_nothrow _ _ _ (handleNo_wp h p Hyes Hno Hready)) as ([] & ? & _).
Qed.

Lemma handlePenguinClick_completes p this id e :
  id ∈ universe → (this < length (trackers p))%nat → document p !! id = Some e →
  outcome (handlePenguinClick this id) p = Normal tt.
Proof.
  intros Hid Hthis He.
  destruct (lookup_lt_is_Some_2 _ _ Hthis) as [t Ht].
  by destruct (wp_nothrow _ _ _ (handlePenguinClick_wp p this id t e Hid Ht He))
    as ([] & ? & _).
Qed.

Lemma listener_completes p id e l :
  sound p → document p !! id = Some e → l ∈ clickListeners e →
  outcome (runListener l) p = Normal tt.
Proof.
  intros Hp He Hl. pose proof (proj2 Hp id e l He Hl) as Hready.
  destruct l as [| |this x]; simpl.
  - by apply handleYes_completes.
  - by eapply handleNo_completes.
  - destruct Hready as (-> & Hid & Hthis).
    by eapply handlePenguinClick_completes.
Qed.

(** X12. No click listener throws. On a page whose markup has the intro
    section and the main content, every listener found on an element
    completes normally when it runs: at the page as loaded, after any
    events, and in the middle of a click that runs several listeners.
    This covers the pages of every session. *)
Theorem listeners_never_throw (env : Env) :
  is_Some (env_markup env !! "introSection") →
  is_Some (env_markup env !! "mainContent") →
  (∀ evs, reachable env (session env evs)) ∧
  ∀ p id e l,
    reachable env p → document p !! id = Some e → l ∈ clickListeners e →
    outcome (runListener l) p = Normal tt.
Proof.
  intros Hs Hm. split; [apply session_reachable|].
  intros p id e l Hp. apply listener_completes. by apply (reachable_sound env).
Qed.

(** X13. No timer callback throws, whatever the page: the activation,
    which constructs the tracker, the reveal of the secret section, with
    or without that section in the document, and the removal of an
    overlay. *)
Theorem timer_callbacks_never_throw (p : Page) (t : Task) :
  outcome (runTask t) p = Normal tt.
Proof.
  assert (frame (λ _ : Page, True)) as HI by (by split).
  destruct t as [| |o|]; simpl.
  - assert (wp activation (λ _ _, True) (λ _ _, False) p) as Hwp.
    { unfold activation, observeElements.
      apply wp_bind, wp_modify, wp_bind, wp_modify, wp_bind, wp_modify.
      eapply wp_mono; [apply activatePenguins_wp|done|done]. }
    by destruct (wp_nothrow _ _ _ Hwp) as ([] & ? & _).
  - pose proof (steady_runTask _ HI TaskReveal) as Hst.
    destruct (wp_nothrow _ _ _ (Hst ltac:(done) p I)) as ([] & ? & _). done.
  - done.
  - done.
Qed.

End Sound.

Lemma listeners_never_throw_witness :
  outcome (@runListener StringArrayJson.json (OnPenguin 0 "penguin2"))
    (demoSession [Activate Pointer "btnYes"; TimerFires 0]) = Normal tt.
Proof.
  destruct (@listeners_never_throw StringArrayJson.json demoEnv) as [Hreach Hrun].
  - eexists. reflexivity.
  - eexists. reflexivity.
  - eapply (Hrun _ "penguin2" _ (OnPenguin 0 "penguin2")).
    + apply (Hreach [Activate Pointer "btnYes"; TimerFires 0]).
    + vm_compute. reflexivity.
    + apply list_elem_of_here.
Defined.

(** ** Loading the page *)

Section Load.
Context `{Json}.

Lemma pageLoad_wp env :
  wp (main_script;; penguins_script)
     (λ _ q, bodyOverflow q = Some "hidden" ∧
             console q = if st_enabled (env_storage env) then []
                         else [WarnClearFailed SecurityError])
     (λ _ _, False) (blankPage env).
Proof.
  unfold main_script, initPage.
  apply wp_bind.
  apply (wp_seq _ _ (λ _ q, introHandler q = None ∧
           console q = if st_enabled (env_storage env) then []
                       else [WarnClearFailed SecurityError])).
  { unfold localStorage_removeItem, console_warn, console_log.
    repeat wp_step; simpl in *; try done.
    all: match goal with Hs : st_enabled _ = _ |- _ => by rewrite Hs end. }
  intros _ p [Hh Hc]. apply wp_bind, wp_modify. unfold new_IntroHandler.
  apply wp_bind, wp_bind, wp_getElementById_eq.
  apply wp_bind, wp_getElementById_eq.
  apply wp_bind, wp_getElementById_eq.
  apply wp_bind, wp_getElementById_eq.
  apply wp_bind, wp_modify.
  set (I := λ q : Page, bodyOverflow q = Some "hidden" ∧
         console q = if st_enabled (env_storage env) then []
                     else [WarnClearFailed SecurityError]).
  apply (wp_mono initIntro (λ _, I) _ (λ _ _, False)); [| |done].
  - unfold initIntro. eapply wp_bind, wp_intro; [done|]. simpl.
    destruct (document p !! "btnYes") as [ey|] eqn:Hy; simpl;
      [|by apply wp_ret].
    destruct (document p !! "btnNo") as [en|] eqn:Hn; simpl;
      [|by apply wp_ret].
    eapply wp_bind, wp_update_present; [done|].
    eapply wp_update_present; [simpl; by rewrite lookup_insert_ne|].
    done.
  - intros [] q Hq. unfold setupSmoothScroll. apply wp_ret.
    unfold penguins_script, initPenguinSystem.
    by repeat wp_step.
Qed.

(** X14. Loading the page never throws, whatever the store and the markup;
    it leaves the body unscrollable, and it logs one warning, that the
    progress could not be cleared, exactly if the store cannot be
    accessed. *)
Theorem page_load_never_throws (env : Env) :
  outcome (main_script;; penguins_script) (blankPage env) = Normal tt ∧
  bodyOverflow (pageLoad env) = Some "hidden" ∧
  console (pageLoad env) =
    if st_enabled (env_storage env) then [] else [WarnClearFailed SecurityError].
Proof.
  destruct (wp_nothrow _ _ _ (pageLoad_wp env)) as ([] & Hout & Hpost).
  split; [done|]. exact Hpost.
Qed.

End Load.

(** ** The store and the sets *)

Lemma alter_absent {A} (f : A → A) (i : nat) (l : list A) :
  l !! i = None → alter f i l = l.
Proof.
  intros Hi. apply list_eq. intros j. destruct (decide (j = i)) as [->|Hne].
  - by rewrite list_lookup_alter, decide_True, Hi.
  - by rewrite list_lookup_alter_ne.
Qed.

Section Current.
Context `{Json}.

Lemma currentFor_append st stored sets s :
  (stored = None → s = []) →
  currentFor st stored sets → currentFor st stored (sets ++ [s]).
Proof.
  intros Hs (H1 & H2). split.
  - destruct H1 as [?|(s0 & saved & Hin & ?)]; [by left|right].
    exists s0, saved. split; [|done]. apply elem_of_app. by left.
  - destruct sets as [|s0 [|s1 sets]]; simpl; [|done|done].
    intros _ _. destruct H1 as [Hn|(s0 & saved & Hin & _)].
    + rewrite Hn, (Hs Hn). by rewrite bool_decide_eq_true_2.
    + by apply not_elem_of_nil in Hin.
Qed.

Lemma currentFor_saved st sets i s :
  sets !! i = Some s → s ≠ [] →
  currentFor st (Some (JSON_stringify (JsSet.to_array s))) sets.
Proof.
  intros Hi Hs. split.
  - right. exists s, s. split; [by eapply list_elem_of_lookup_2|done].
  - destruct sets as [|s0 [|s1 sets]]; [done| |done].
    destruct i as [|i]; [|done]. injection Hi as ->.
    intros _ _. by rewrite bool_decide_eq_false_2.
Qed.

Lemma add_not_nil (s : JsSet.t) v : JsSet.add s v ≠ [].
Proof.
  unfold JsSet.add. destruct (JsSet.has s v) eqn:Hhas.
  - by destruct s.
  - by destruct s.
Qed.

Lemma add_prefix (s : JsSet.t) v : s `prefix_of` JsSet.add s v.
Proof.
  unfold JsSet.add. destruct (JsSet.has s v); [done|]. by apply prefix_app_r.
Qed.

(** A save that fails leaves the entry of the last save that worked. *)
Lemma currentFor_unsaved st stored sets i s v :
  sets !! i = Some s →
  st_enabled st &&
    st_fits st "penguinsFound" (JSON_stringify (JsSet.to_array (JsSet.add s v)))
    = false →
  currentFor st stored sets →
  currentFor st stored (alter (λ s, JsSet.add s v) i sets).
Proof.
  intros Hi Hw (H1 & H2). split.
  - destruct H1 as [?|(s0 & saved & Hin & Hpre & Hne & Hst)]; [by left|right].
    apply list_elem_of_lookup in Hin as [j Hj].
    destruct (decide (j = i)) as [->|Hji].
    + exists (JsSet.add s0 v), saved. split_and!; [|by etrans; [|apply add_prefix]|done..].
      apply (list_elem_of_lookup_2 _ i).
      by rewrite list_lookup_alter, decide_True, Hj.
    + exists s0, saved. split_and!; [|done..].
      apply (list_elem_of_lookup_2 _ j). by rewrite list_lookup_alter_ne.
  - destruct sets as [|s0 [|s1 sets]]; [done| |by destruct i as [|[|i]]].
    destruct i as [|i]; [|done]. injection Hi as ->. simpl.
    intros Hen Hfit. by rewrite Hen, Hfit in Hw.
Qed.

Lemma saveProgress_effect this p :
  trackers (exec (saveProgress this) p) = trackers p ∧
  match trackers p !! this with
  | Some t =>
      if st_enabled (localStorage p) &&
         st_fits (localStorage p) "penguinsFound"
                 (JSON_stringify (JsSet.to_array (foundPenguins t)))
      then storedProgress (exec (saveProgress this) p) =
             Some (JSON_stringify (JsSet.to_array (foundPenguins t)))
      else localStorage (exec (saveProgress this) p) = localStorage p
  | None => localStorage (exec (saveProgress this) p) = localStorage p
  end.
Proof.
  unfold saveProgress, exec, try_catch, tracker, localStorage_setItem,
    console_warn, console_log, storedProgress, mbind, Js_bind, get, modify, throw.
  simpl. destruct (trackers p !! this) as [t|]; simpl; [|done].
  destruct (st_enabled (localStorage p)) eqn:Hen; simpl; [|done].
  destruct (st_fits (localStorage p) "penguinsFound" _) eqn:Hfit; simpl; [|done].
  by rewrite lookup_insert_eq.
Qed.

Ltac storeFrame_goal :=
  lazymatch goal with
  | Hp : storeFrame ?s ?sets ?p |- storeFrame ?s ?sets _ =>
      first
        [ exact Hp
        | by (destruct Hp as [? ?]; split; [done|]; simpl;
              rewrite fmap_alter_same) ]
  end.

Lemma storeFrame_tail s sets this id :
  keeps (storeFrame s sets)
    (t ← tracker this;
     console_log (LogFound id (JsSet.size (foundPenguins t)));;
     penguinContainer ← getElementById id;
     createCelebrationEffect penguinContainer;;
     t ← tracker this;
     match penguinHandlers t !! id with
     | Some handler =>
         update penguinContainer (removeEventListener handler);;
         update_tracker this (λ t,
           set_penguinHandlers (delete id (penguinHandlers t)) t)
     | None => mret tt
     end;;
     disablePenguinInteraction penguinContainer;;
     updateDisplay this;;
     showPenguinFoundFeedback;;
     checkForCompletion this).
Proof. repeat keeps_step; storeFrame_goal. Qed.

Lemma storeCurrent_frame p q :
  storeFrame (localStorage p) (foundPenguins <$> trackers p) q →
  storeCurrent p → storeCurrent q.
Proof. unfold storeCurrent, storedProgress. by intros [-> ->]. Qed.

Lemma handlePenguinClick_current this id p :
  storeCurrent p → storeCurrent (exec (handlePenguinClick this id) p).
Proof.
  intros Hp. unfold handlePenguinClick. rewrite exec_bind_update_tracker.
  set (p1 := set_trackers _ p).
  set (p2 := exec (saveProgress this) p1).
  assert (storeCurrent p2) as Hp2.
  { destruct (saveProgress_effect this p1) as (Hts & Hst).
    fold p2 in Hts, Hst.
    unfold storeCurrent. rewrite Hts.
    change (localStorage p1) with (localStorage p) in Hst.
    change (trackers p1)
      with (alter (λ t, set_foundPenguins (JsSet.add (foundPenguins t) (JStr id)) t)
              this (trackers p)) in *.
    rewrite (list_fmap_alter foundPenguins _ (λ s, JsSet.add s (JStr id)))
      by (by apply Forall_true).
    rewrite list_lookup_alter, decide_True in Hst by done.
    destruct (trackers p !! this) as [t|] eqn:Ht; simpl in Hst.
    - destruct (st_enabled (localStorage p) && st_fits _ _ _) eqn:Hw.
      + rewrite Hst. eapply (currentFor_saved _ _ this); [|apply add_not_nil].
        by rewrite list_lookup_alter, decide_True, list_lookup_fmap, Ht.
      + unfold storedProgress. rewrite Hst.
        apply (currentFor_unsaved _ _ _ this (foundPenguins t));
          [by rewrite list_lookup_fmap, Ht|done|exact Hp].
    - unfold storedProgress. rewrite Hst.
      rewrite alter_absent by (by rewrite list_lookup_fmap, Ht). exact Hp. }
  apply (storeCurrent_frame p2); [|done].
  match goal with |- storeFrame ?s ?f (exec (?m ≫= ?k) ?q) =>
    apply (exec_bind_keeps (storeFrame s f) m k q) end; [done|].
  intros _. apply storeFrame_tail.
Qed.

(** What a call of the click handler leaves in the store. *)
Lemma handlePenguinClick_store this id p t :
  trackers p !! this = Some t →
  if st_enabled (localStorage p) &&
     st_fits (localStorage p) "penguinsFound"
       (JSON_stringify (JsSet.to_array (JsSet.add (foundPenguins t) (JStr id))))
  then storedProgress (exec (handlePenguinClick this id) p) =
         Some (JSON_stringify (JsSet.to_array (JsSet.add (foundPenguins t) (JStr id))))
  else localStorage (exec (handlePenguinClick this id) p) = localStorage p.
Proof.
  intros Ht. unfold handlePenguinClick. rewrite exec_bind_update_tracker.
  set (p1 := set_trackers _ p).
  set (p2 := exec (saveProgress this) p1).
  match goal with |- context [exec (?m ≫= ?k) p1] =>
    pose proof (exec_bind_keeps
                  (storeFrame (localStorage p2) (foundPenguins <$> trackers p2))
                  m k p1) as Hkeep
  end.
  destruct Hkeep as [Hl _]; [done|intros _; apply storeFrame_tail|].
  destruct (saveProgress_effect this p1) as (_ & Hst). fold p2 in Hst.
  change (localStorage p1) with (localStorage p) in Hst.
  change (trackers p1)
    with (alter (λ t, set_foundPenguins (JsSet.add (foundPenguins t) (JStr id)) t)
            this (trackers p)) in Hst.
  rewrite list_lookup_alter, decide_True, Ht in Hst by done. simpl in Hst.
  unfold storedProgress in *.
  destruct (st_enabled (localStorage p) && st_fits _ _ _); by rewrite Hl.
Qed.

(** X9. A click handled for an id that has no element: the id is added to
    the set, the set is saved and the find is logged; then the celebration
    effect meets [null] and the call ends in a [TypeError]. The store holds
    the text of the new set if it is enabled and has room for it, and is as
    before otherwise. The document, the display, the overlays and the
    timers are as before, the handler map is untouched, and no completion
    check is made. *)
Theorem penguin_click_without_element (p : Page) (this : nat) (id : string)
    (t : PenguinTracker) :
  trackers p !! this = Some t → document p !! id = None →
  let p' := exec (handlePenguinClick this id) p in
  let found' := JsSet.add (foundPenguins t) (JStr id) in
  outcome (handlePenguinClick this id) p = Throw TypeError ∧
  trackers p' = <[this := set_foundPenguins found' t]> (trackers p) ∧
  (if st_enabled (localStorage p) &&
      st_fits (localStorage p) "penguinsFound" (JSON_stringify (JsSet.to_array found'))
   then storedProgress p' = Some (JSON_stringify (JsSet.to_array found'))
   else localStorage p' = localStorage p) ∧
  document p' = document p ∧ overlays p' = overlays p ∧ timers p' = timers p ∧
  completionSignals p' = completionSignals p ∧
  last (console p') = Some (LogFound id (JsSet.size found')).
Proof.
  intros Ht He p' found'.
  destruct (click_without_element p this id t Ht He) as (Hout & Hts & Hrest).
  split; [done|]. split; [done|]. split; [|exact Hrest].
  apply (handlePenguinClick_store this id p t Ht).
Qed.

Lemma frame_current {A} (m : Js A) p :
  (∀ s sets, keeps (storeFrame s sets) m) →
  storeCurrent p → storeCurrent (exec m p).
Proof.
  intros Hm. apply storeCurrent_frame. by apply keeps_exec; [apply Hm|].
Qed.

Lemma handleNo_storeFrame s sets : keeps (storeFrame s sets) handleNo.
Proof. repeat keeps_step; storeFrame_goal. Qed.

Lemma handleYes_storeFrame s sets : keeps (storeFrame s sets) handleYes.
Proof. repeat keeps_step; storeFrame_goal. Qed.

Lemma reveal_storeFrame s sets :
  keeps (storeFrame s sets) (showCompletionCelebration;; revealSecretSection).
Proof. repeat keeps_step; storeFrame_goal. Qed.

Lemma construct_storeFrame s sets this :
  keeps (storeFrame s sets) (initPenguins this;; updateDisplay this;; mret this).
Proof. repeat keeps_step; storeFrame_goal. Qed.

(** The constructor adds the set it loads and leaves the store alone. *)
Lemma activatePenguins_store p :
  storeFrame (localStorage p) ((foundPenguins <$> trackers p) ++ [loaded p])
    (exec activatePenguins p).
Proof.
  set (I := storeFrame (localStorage p) ((foundPenguins <$> trackers p) ++ [loaded p])).
  apply wp_exec. unfold activatePenguins, new_PenguinTracker.
  apply wp_bind, wp_bind, wp_get. cbv beta.
  apply wp_bind, wp_modify.
  set (t0 := {| penguinIds := universe; penguinHandlers := ∅;
                foundPenguins := JsSet.empty |}).
  apply wp_bind. eapply wp_mono; [apply loadProgress_wp| |done].
  intros s p1 [-> Hp1].
  change (loaded (set_trackers (trackers p ++ [t0]) p)) with (loaded p).
  assert (trackers p1 = trackers p ++ [t0] ∧ localStorage p1 = localStorage p)
    as [Hts1 Hl1].
  { by destruct Hp1 as [->|[e ->]]. }
  clear Hp1.
  apply wp_bind. unfold update_tracker at 1. apply wp_modify.
  match goal with |- wp ?m _ _ ?q =>
    apply (wp_keeps I m) end; [apply construct_storeFrame| | |done].
  - split; [done|]. simpl. rewrite Hts1, alter_app_r_alt by done.
    rewrite Nat.sub_diag, fmap_app. done.
  - intros t q Hq. apply wp_modify. exact Hq.
Qed.

Lemma activation_current p : storeCurrent p → storeCurrent (exec activation p).
Proof.
  intros Hp. unfold activation, observeElements.
  rewrite !exec_bind_modify.
  match goal with |- storeCurrent (exec activatePenguins ?q) => set (p3 := q) end.
  assert (storeCurrent p3) as Hp3 by exact Hp.
  destruct (activatePenguins_store p3) as [Hl Hf].
  unfold storeCurrent, storedProgress in *. rewrite Hl, Hf.
  apply currentFor_append; [|done].
  intros Hnone. apply loaded_None. exact Hnone.
Qed.

Lemma runListener_current l : keeps storeCurrent (runListener l).
Proof.
  intros p Hp. apply wp_exec. destruct l as [| |this x]; simpl.
  - by apply frame_current; [apply handleYes_storeFrame|].
  - by apply frame_current; [apply handleNo_storeFrame|].
  - by apply handlePenguinClick_current.
Qed.

Lemma runTask_current t : keeps storeCurrent (runTask t).
Proof.
  intros p Hp. apply wp_exec. destruct t as [| |o|]; simpl.
  - by apply activation_current.
  - by apply frame_current; [apply reveal_storeFrame|].
  - done.
  - done.
Qed.

Lemma step_current container p ev :
  storeCurrent p → window_penguinTracker p = None →
  storeCurrent (step container p ev).
Proof.
  intros Hp Hw. destruct ev as [how id|k|]; simpl.
  - destruct (receives container how p id); [|done].
    apply dispatchClick_keeps; [apply runListener_current|done].
  - destruct (timers p !! k) as [[d t]|]; [|done].
    by apply keeps_exec; [apply runTask_current|].
  - by rewrite exec_console_reset.
Qed.

Lemma pageLoad_current env : storeCurrent (pageLoad env).
Proof.
  unfold storeCurrent. rewrite pageLoad_storedProgress, pageLoad_trackers.
  split; [by left|done].
Qed.

Lemma session_current env evs : storeCurrent (session env evs).
Proof.
  unfold session, run.
  generalize (conj (pageLoad_current env) (pageLoad_window env)).
  generalize (pageLoad env).
  induction evs as [|ev evs IH]; intros p [Hp Hw]; simpl; [done|].
  apply IH. split; [by apply step_current|by apply step_keeps_window].
Qed.

(** X15. The stored progress is a state that was saved. In every session
    the progress entry, if the store holds one, is the text of what the
    set of a tracker of the page was at a save: a part of that set from
    its start, with at least one member. It can be behind the set, since a
    write that fails leaves the older entry. With a single tracker and a
    store that is enabled and has room for the text of its set, the entry
    is absent while the set is empty and is the text of the set from the
    first find on. *)
Theorem stored_progress_was_saved (env : Env) (evs : list Event) :
  (storedProgress (session env evs) = None ∨
   ∃ t saved, t ∈ trackers (session env evs) ∧
        saved `prefix_of` foundPenguins t ∧ saved ≠ [] ∧
        storedProgress (session env evs) =
          Some (JSON_stringify (JsSet.to_array saved))) ∧
  (∀ t, trackers (session env evs) = [t] →
        st_enabled (localStorage (session env evs)) = true →
        st_fits (localStorage (session env evs)) "penguinsFound"
                (JSON_stringify (JsSet.to_array (foundPenguins t))) = true →
        storedProgress (session env evs) =
          if bool_decide (foundPenguins t = []) then None
          else Some (JSON_stringify (JsSet.to_array (foundPenguins t)))).
Proof.
  destruct (session_current env evs) as (H1 & H2). split.
  - destruct H1 as [?|(s & saved & Hin & Hrest)]; [by left|right].
    apply list_elem_of_fmap in Hin as (t & -> & Hin). by exists t, saved.
  - intros t Ht Hen Hfit. rewrite Ht in H2. by apply H2.
Qed.

End Current.

Lemma penguin_click_without_element_witness :
  let t := {| penguinIds := universe; penguinHandlers := ∅; foundPenguins := [] |} in
  let p := set_trackers [t] (@pageLoad StringArrayJson.json demoEnv) in
  outcome (demoClick "penguin9") p = Throw TypeError ∧
  (foundPenguins <$> trackers (exec (demoClick "penguin9") p)) = [[JStr "penguin9"]] ∧
  storedProgress (exec (demoClick "penguin9") p) =
    Some (StringArrayJson.stringify (JArr [JStr "penguin9"])).
Proof.
  intros t p.
  destruct (@penguin_click_without_element StringArrayJson.json p 0 "penguin9" t)
    as (Hout & Hts & Hst & _).
  - reflexivity.
  - by vm_compute.
  - split; [exact Hout|]. split.
    + unfold demoClick. rewrite Hts. reflexivity.
    + exact Hst.
Defined.

(** On the demo page, after two finds, the store holds the two ids. *)
Example demo_store_follows :
  storedProgress (demoSession [Activate Pointer "btnYes"; TimerFires 0;
                               Activate Pointer "penguin4";
                               Activate Keyboard "penguin1"])
  = Some (StringArrayJson.stringify (JArr [JStr "penguin4"; JStr "penguin1"])).
Proof. by vm_compute. Qed.

(** ** The signal and the reveal *)

Lemma balanced_ext c p q :
  console q = console p → timers q = timers p → balanced c p → balanced c q.
Proof. unfold balanced, completionSignals, reveals. by intros -> ->. Qed.

Lemma balanced_log c p l :
  l ≠ LogAllFound → balanced c p →
  balanced c (set_console (console p ++ [l]) p).
Proof.
  unfold balanced, completionSignals, reveals. simpl. intros Hl Hp.
  rewrite filter_app, filter_cons_False by done. simpl.
  by rewrite app_nil_r.
Qed.

Lemma balanced_timer c p d t :
  t ≠ TaskReveal → balanced c p →
  balanced c (set_timers (timers p ++ [(d, t)]) p).
Proof.
  unfold balanced, completionSignals, reveals. simpl. intros Ht Hp.
  rewrite filter_app, filter_cons_False by done. simpl.
  by rewrite app_nil_r.
Qed.

Section Signal.
Context `{Json}.

(** The completion check gives the signal and schedules the reveal
    together. *)
Lemma checkForCompletion_balanced c this : keeps (balanced c) (checkForCompletion this).
Proof.
  intros p Hp. unfold checkForCompletion, tracker, console_log, allPenguinsFound,
    setTimeout.
  repeat wp_step; simpl; try done.
  - unfold balanced, completionSignals, reveals in *. simpl.
    rewrite !filter_app, !length_app. simpl. lia.
  - by apply balanced_log.
Qed.

Ltac balanced_goal :=
  match goal with
  | Hp : balanced ?c ?p |- balanced ?c _ =>
      first [ exact Hp
            | by apply (balanced_ext c p)
            | by apply balanced_log
            | by apply balanced_timer ]
  end.

Ltac balanced_auto :=
  repeat first [ apply checkForCompletion_balanced | keeps_step ];
  first [ done | balanced_goal ].

Lemma handleNo_balanced c : keeps (balanced c) handleNo.
Proof. balanced_auto. Qed.
Lemma handleYes_balanced c : keeps (balanced c) handleYes.
Proof. balanced_auto. Qed.
Lemma handlePenguinClick_balanced c this id :
  keeps (balanced c) (handlePenguinClick this id).
Proof. balanced_auto. Qed.
Lemma activation_balanced c : keeps (balanced c) activation.
Proof. balanced_auto. Qed.
Lemma console_reset_balanced c : keeps (balanced c) console_reset.
Proof. balanced_auto. Qed.
Lemma runTask_balanced c t : keeps (balanced c) (runTask t).
Proof. destruct t; balanced_auto. Qed.

Lemma runListener_balanced c l : keeps (balanced c) (runListener l).
Proof.
  destruct l; [apply handleYes_balanced|apply handleNo_balanced
              |apply handlePenguinClick_balanced].
Qed.

Lemma reveals_delete p k d t :
  timers p !! k = Some (d, t) →
  reveals p = (reveals (set_timers (delete k (timers p)) p) +
               (if decide (t = TaskReveal) then 1 else 0))%nat.
Proof.
  intros Hk. unfold reveals. simpl.
  by rewrite (filter_delete_length _ (timers p) k (d, t) Hk).
Qed.

(** An event keeps the balance; the expiry of a reveal moves one reveal
    from those that wait to those that fired. *)
Lemma step_balanced container c p ev :
  balanced c p →
  balanced (c + if firesReveal p ev then 1 else 0) (step container p ev).
Proof.
  intros Hp. destruct ev as [how id|k|]; simpl.
  - rewrite Nat.add_0_r. destruct (receives container how p id); [|done].
    apply (dispatchClick_keeps (balanced c)); [|done]. apply runListener_balanced.
  - destruct (timers p !! k) as [[d t]|] eqn:Hk; [|by rewrite Nat.add_0_r].
    apply keeps_exec; [apply runTask_balanced|].
    pose proof (reveals_delete p k d t Hk) as Hr.
    unfold balanced in *. change (completionSignals (set_timers _ p))
      with (completionSignals p).
    destruct t; simpl in *; lia.
  - rewrite Nat.add_0_r. by apply keeps_exec; [apply console_reset_balanced|].
Qed.

Lemma run_balanced container evs c p :
  balanced c p →
  balanced (c + revealsFired container p evs) (run container evs p).
Proof.
  revert c p. induction evs as [|ev evs IH]; intros c p Hp; simpl.
  - by rewrite Nat.add_0_r.
  - rewrite Nat.add_assoc. apply IH. by apply step_balanced.
Qed.

Lemma pageLoad_balanced env : balanced 0 (pageLoad env).
Proof.
  unfold pageLoad. apply keeps_exec; [balanced_auto|]. done.
Qed.

Lemma session_balanced env evs :
  balanced (revealsFired (env_container env) (pageLoad env) evs) (session env evs).
Proof. apply (run_balanced _ evs 0), pageLoad_balanced. Qed.

Lemma signals_log_other p l :
  l ≠ LogAllFound →
  completionSignals (set_console (console p ++ [l]) p) = completionSignals p.
Proof.
  intros Hl. unfold completionSignals. simpl.
  rewrite filter_app, filter_cons_False by done. simpl. by rewrite app_nil_r.
Qed.

(** The reveal itself gives no signal. *)
Lemma reveal_task_signals n :
  keeps (λ q, completionSignals q = n) (runTask TaskReveal).
Proof.
  simpl. keeps_auto; try done.
  all: by rewrite signals_log_other.
Qed.

(** C1, amended. The completion signal is the log line together with the
    reveal that is scheduled with it. In a session it is emitted at most
    once. It has been emitted exactly when the tracker's set is complete; no
    event takes it back or emits it again; and the event that emits it is
    the click on the last penguin that was not found, which completes the
    set and schedules one reveal. Every signal has scheduled its reveal: the
    signals given are the reveals that wait on a timer and those whose
    timer has expired; the expiry of a reveal takes it from those that
    wait, and every other event changes the signals and the reveals that
    wait by the same number. *)
Theorem completion_signalled_once (env : Env) (evs : list Event) (ev : Event) :
  gateNested (env_container env) →
  let p := session env evs in
  let p' := step (env_container env) p ev in
  (completionSignals p = 0 ∨ completionSignals p = 1) ∧
  (completionSignals p = 1 ↔ ∃ t, trackers p = [t] ∧ isComplete t = true) ∧
  (completionSignals p ≤ completionSignals p')%nat ∧
  (completionSignals p = 0 → completionSignals p' = 1 →
     ∃ how id t t',
       ev = Activate how id ∧ id ∈ universe ∧
       trackers p = [t] ∧ (JStr id ∉ foundPenguins t) ∧
       trackers p' = [t'] ∧
       foundPenguins t' = foundPenguins t ++ [JStr id] ∧
       isComplete t' = true ∧
       reveals p' = S (reveals p)) ∧
  completionSignals p =
    (reveals p + revealsFired (env_container env) (pageLoad env) evs)%nat ∧
  (if firesReveal p ev
   then completionSignals p' = completionSignals p ∧ S (reveals p') = reveals p
   else (completionSignals p' + reveals p = completionSignals p + reveals p')%nat).
Proof.
  intros Hnest p p'.
  pose proof (signalled_once env evs ev Hnest) as Hs. cbv zeta in Hs.
  fold p in Hs. fold p' in Hs. destruct Hs as (H1 & H2 & H3 & H4).
  pose proof (session_balanced env evs) as Hb. fold p in Hb.
  pose proof (step_balanced (env_container env) _ p ev Hb) as Hb'. fold p' in Hb'.
  unfold balanced in Hb, Hb'.
  split_and!; [done|done|done| |done|].
  - intros Hzero Hone.
    destruct (H4 Hzero Hone) as (how & id & t & t' & -> & Hrest).
    exists how, id, t, t'. simpl in Hb'.
    destruct Hrest as (? & ? & ? & ? & ? & ?). split_and!; [done..|]. lia.
  - destruct (firesReveal p ev) eqn:Hfire; [|lia].
    assert (completionSignals p' = completionSignals p) as Hsame.
    { unfold p'. destruct ev as [how id|k|]; simpl in *; [done| |done].
      destruct (timers p !! k) as [[d t]|]; [|done].
      destruct t; try done.
      by apply (keeps_exec (λ q, completionSignals q = completionSignals p));
        [apply reveal_task_signals|]. }
    split; [done|lia].
Qed.

End Signal.

Lemma completion_signalled_once_witness :
  let p := demoSession ([Activate Pointer "btnYes"; TimerFires 0] ++
             (Activate Pointer <$> ["penguin4"; "penguin1"; "penguin5"; "penguin2"])) in
  let p' := @step StringArrayJson.json (env_container demoEnv) p
              (Activate Keyboard "penguin3") in
  (completionSignals p = 0 ∨ completionSignals p = 1) ∧
  (completionSignals p = 1 ↔ ∃ t, trackers p = [t] ∧ isComplete t = true) ∧
  (completionSignals p ≤ completionSignals p')%nat ∧
  (completionSignals p = 0 → completionSignals p' = 1 →
     ∃ how id t t',
       Activate Keyboard "penguin3" = Activate how id ∧ id ∈ universe ∧
       trackers p = [t] ∧ (JStr id ∉ foundPenguins t) ∧
       trackers p' = [t'] ∧
       foundPenguins t' = foundPenguins t ++ [JStr id] ∧
       isComplete t' = true ∧
       reveals p' = S (reveals p)) ∧
  completionSignals p =
    (reveals p +
     @revealsFired StringArrayJson.json (env_container demoEnv)
       (@pageLoad StringArrayJson.json demoEnv)
       ([Activate Pointer "btnYes"; TimerFires 0] ++
          (Activate Pointer <$> ["penguin4"; "penguin1"; "penguin5"; "penguin2"])))%nat ∧
  (if firesReveal p (Activate Keyboard "penguin3")
   then completionSignals p' = completionSignals p ∧ S (reveals p') = reveals p
   else (completionSignals p' + reveals p = completionSignals p + reveals p')%nat).
Proof.
  apply (@completion_signalled_once StringArrayJson.json demoEnv
           ([Activate Pointer "btnYes"; TimerFires 0] ++
              (Activate Pointer <$> ["penguin4"; "penguin1"; "penguin5"; "penguin2"]))
           (Activate Keyboard "penguin3")).
  by vm_compute.
Defined.

(** On the demo page: the click on the fifth penguin gives the signal and
    schedules the reveal; when its timer expires the secret section is
    revealed, and no signal is given again. *)
Example demo_signal_and_reveal :
  let p := demoSession ([Activate Pointer "btnYes"; TimerFires 0] ++
             (Activate Pointer <$> universe)) in
  let p' := @step StringArrayJson.json (env_container demoEnv) p
              (TimerFires (length (timers p) - 1)) in
  completionSignals p = 1 ∧ reveals p = 1 ∧
  last (timers p) = Some (300, TaskReveal) ∧
  completionSignals p' = 1 ∧ reveals p' = 0 ∧
  ((λ e, bool_decide ("revealed" ∈ classList e)) <$> document p' !! "secretSection")
    = Some true.
Proof. by vm_compute. Qed.

(** ** The store on the demo page *)

(** With a store that has room for one id: the first find is saved, the
    save of the second fails on the quota and is logged as a warning, and
    the entry stays behind the set. *)
Example store_falls_behind :
  let p := @session StringArrayJson.json smallStoreEnv
             [Activate Pointer "btnYes"; TimerFires 0;
              Activate Pointer "penguin4"; Activate Keyboard "penguin1"] in
  foundPenguins <$> trackers p = [[JStr "penguin4"; JStr "penguin1"]] ∧
  storedProgress p = Some (StringArrayJson.stringify (JArr [JStr "penguin4"])) ∧
  console p = [LogFound "penguin4" 1; LogChecking 1 5;
               WarnSaveFailed QuotaExceededError;
               LogFound "penguin1" 2; LogChecking 2 5] ∧
  st_size (st_items (localStorage p)) = 25%N.
Proof. by vm_compute. Qed.

(** A string is iterated by code points, not by bytes. *)
Example string_items_code_points :
  String.length "é💔" = 6 ∧
  string_items "é💔" = [JStr "é"; JStr "💔"] ∧
  string_items "ab" = [JStr "a"; JStr "b"] ∧
  string_items "" = [].
Proof. by vm_compute. Qed.
